(** * Page pool, capture protocol and instance rotation of puppeteer-core

    A shallow embedding of three classes of the repository:

    - [PagePool]  (pagePool.ts): the map of page slots of one browser,
    - [Render]    (core.ts): one browser and the capture protocol,
    - [Puppeteer] (index.ts): the rotation of browsers and the retry,

    and, beside them, the record of requests in flight that
    [Render.simulateWaitUntil] keeps ([WaitUntil]) and the installation
    of the browser ([InitChrome], init.ts, with [Common.Platform]).

    Asynchronous methods are embedded as state transformers: every
    [await] on the browser driver is answered by an oracle ([Driver])
    that sees the calls made so far, so a call may resolve or reject
    differently each time it is made.  A promise that never settles on
    its own (the polling branch of [acquirePage]) is the outcome
    [Pending].  The methods of the pool that await the browser are
    written in parts, one up to the [await] and one after it.  A method
    as a whole is the composition of its parts: the method when nothing
    else runs while it waits.  [Overlap] lets calls, timeouts and the
    parts after an [await] come in any order.  A rejection that no code
    handles goes on record ([unhandled]).

    JavaScript numbers are embedded as rationals.  The quotient whose
    ceiling is the number of slices is rounded to double precision
    ([binary64]), as the division of the source is; [NaN] and the
    infinities are not represented. *)

From Stdlib Require Import List String Ascii Bool Arith ZArith QArith Qround Qminmax Qabs Lia Lqa Permutation.
Import ListNotations.

Local Open Scope nat_scope.
Local Open Scope string_scope.
Local Open Scope list_scope.

(** ** Values of the driver *)

Definition Page := nat.          (* identity of a puppeteer Page object *)
Definition ElementHandle := nat. (* identity of an ElementHandle *)
Definition TimerId := nat.       (* identity of a NodeJS.Timeout *)

Inductive Err :=
| DriverError (code : nat)       (* an exception raised by the driver *)
| TypeError (msg : string).      (* property access on undefined / null *)

(** What [page.screenshot] hands back. *)
Inductive Image :=
| Buffer (bytes : list nat)
| Uint8Array (bytes : list nat)
| Base64 (text : string).

Inductive RenderResult :=
| Single (img : Image)
| Multi (imgs : list Image).

Record BoundingBox := { box_width : Q; box_height : Q }.

(** ** The [screenshot] parameter object *)

Inductive ImageType := png | jpeg | webp.
Inductive Encoding := base64 | binary.
Inductive MultiPage := MPBool (b : bool) | MPNum (n : Q).
Inductive OneOrMany := One (s : string) | Many (l : list string).

Record Viewport := {
  width : option Q;
  height : option Q;
  deviceScaleFactor : option Q
}.

Record Clip := { clip_x : Q; clip_y : Q; clip_width : Q; clip_height : Q }.

Module Data.
Record screenshot := {
  file : string;
  selector : option string;
  type : option ImageType;
  quality : option Q;
  headers : option (list (string * string));
  fullPage : option bool;
  optimizeForSpeed : option bool;
  encoding : option Encoding;
  path : option string;
  omitBackground : option bool;
  captureBeyondViewport : option bool;
  setViewport : option Viewport;
  multiPage : option MultiPage;
  pageGotoParams : option string;
  waitForSelector : option OneOrMany;
  waitForFunction : option OneOrMany;
  waitForRequest : option OneOrMany;
  waitForResponse : option OneOrMany;
  setRequestInterception : option nat;   (* identity of the callback *)
  clip : option Clip
}.

Definition with_waitForSelector (v : option OneOrMany) (d : screenshot) :=
  {| file := file d; selector := selector d; type := type d; quality := quality d;
     headers := headers d; fullPage := fullPage d; optimizeForSpeed := optimizeForSpeed d;
     encoding := encoding d; path := path d; omitBackground := omitBackground d;
     captureBeyondViewport := captureBeyondViewport d; setViewport := setViewport d;
     multiPage := multiPage d; pageGotoParams := pageGotoParams d;
     waitForSelector := v; waitForFunction := waitForFunction d;
     waitForRequest := waitForRequest d; waitForResponse := waitForResponse d;
     setRequestInterception := setRequestInterception d; clip := clip d |}.

Definition with_waitForFunction (v : option OneOrMany) (d : screenshot) :=
  {| file := file d; selector := selector d; type := type d; quality := quality d;
     headers := headers d; fullPage := fullPage d; optimizeForSpeed := optimizeForSpeed d;
     encoding := encoding d; path := path d; omitBackground := omitBackground d;
     captureBeyondViewport := captureBeyondViewport d; setViewport := setViewport d;
     multiPage := multiPage d; pageGotoParams := pageGotoParams d;
     waitForSelector := waitForSelector d; waitForFunction := v;
     waitForRequest := waitForRequest d; waitForResponse := waitForResponse d;
     setRequestInterception := setRequestInterception d; clip := clip d |}.

Definition with_waitForRequest (v : option OneOrMany) (d : screenshot) :=
  {| file := file d; selector := selector d; type := type d; quality := quality d;
     headers := headers d; fullPage := fullPage d; optimizeForSpeed := optimizeForSpeed d;
     encoding := encoding d; path := path d; omitBackground := omitBackground d;
     captureBeyondViewport := captureBeyondViewport d; setViewport := setViewport d;
     multiPage := multiPage d; pageGotoParams := pageGotoParams d;
     waitForSelector := waitForSelector d; waitForFunction := waitForFunction d;
     waitForRequest := v; waitForResponse := waitForResponse d;
     setRequestInterception := setRequestInterception d; clip := clip d |}.

Definition with_waitForResponse (v : option OneOrMany) (d : screenshot) :=
  {| file := file d; selector := selector d; type := type d; quality := quality d;
     headers := headers d; fullPage := fullPage d; optimizeForSpeed := optimizeForSpeed d;
     encoding := encoding d; path := path d; omitBackground := omitBackground d;
     captureBeyondViewport := captureBeyondViewport d; setViewport := setViewport d;
     multiPage := multiPage d; pageGotoParams := pageGotoParams d;
     waitForSelector := waitForSelector d; waitForFunction := waitForFunction d;
     waitForRequest := waitForRequest d; waitForResponse := v;
     setRequestInterception := setRequestInterception d; clip := clip d |}.

Definition with_clip (v : option Clip) (d : screenshot) :=
  {| file := file d; selector := selector d; type := type d; quality := quality d;
     headers := headers d; fullPage := fullPage d; optimizeForSpeed := optimizeForSpeed d;
     encoding := encoding d; path := path d; omitBackground := omitBackground d;
     captureBeyondViewport := captureBeyondViewport d; setViewport := setViewport d;
     multiPage := multiPage d; pageGotoParams := pageGotoParams d;
     waitForSelector := waitForSelector d; waitForFunction := waitForFunction d;
     waitForRequest := waitForRequest d; waitForResponse := waitForResponse d;
     setRequestInterception := setRequestInterception d; clip := v |}.
End Data.

(** The [options] object literal built inside [render]. *)
Module Options.
Record t := {
  path : option string;
  type : ImageType;
  quality : option Q;
  fullPage : bool;
  optimizeForSpeed : bool;
  encoding : Encoding;
  omitBackground : bool;
  captureBeyondViewport : bool
}.
End Options.

(** ** Calls that reach the driver, in the order they are made *)

Module Drv.
Inductive Call :=
| newPage
| setExtraHTTPHeaders (p : Page) (h : list (string * string))
| setRequestInterception (p : Page) (on : bool)
| on_request (p : Page) (callback : nat)
| goto (p : Page) (target : string) (params : option string)
| setContent (p : Page) (html : string) (params : option string)
| waitForSelector (p : Page) (sel : string)
| waitForFunction (p : Page) (fn : string)
| waitForRequest (p : Page) (url : string)
| waitForResponse (p : Page) (url : string)
| query (p : Page) (sel : string)                 (* page.$(sel) *)
| boundingBox (e : ElementHandle)
| setViewport (p : Page) (w h d : Z)
| page_screenshot (p : Page) (o : Options.t)
| element_screenshot (e : ElementHandle) (d : Data.screenshot)
| close (p : Page)
| removeAllListeners (p : Page)
| emit (event : string) (id : nat)
| launch.                                         (* puppeteer.launch(config) *)
End Drv.

(** The environment: how the browser answers each call, given the calls
    made before it, and what [Date.now] and [Math.random] return;
    [Math.random] also given the number of the call it answers, since
    two calls of it may have no call into the browser between them. *)
Record Driver := {
  settles : list Drv.Call -> Drv.Call -> option Err;   (* [None]: resolves *)
  finds : list Drv.Call -> Page -> string -> Err + option ElementHandle;
  measures : list Drv.Call -> ElementHandle -> Err + option BoundingBox;
  captures : list Drv.Call -> Drv.Call -> Err + Image;
  random : list Drv.Call -> nat -> string;
  clock : list Drv.Call -> nat
}.

(** ** The objects *)

Inductive Status := idle | busy.

Record PageInfo := {
  page : Page;
  status : Status;
  lastUsed : nat;
  timer : option TimerId
}.

(** One [Render] with its [PagePool] and the part of the runtime the two
    drive: the pending timeouts and the handles the browser gave out. *)
Record RenderObj := {
  id : nat;
  pool : list (string * PageInfo);   (* Map<string, PageInfo>, insertion order *)
  timers : list (TimerId * string);  (* pending timeouts and the id they close over *)
  nextTimer : TimerId;
  nextPage : Page;
  list_ : list string;               (* Render.list: echoes in flight *)
  trace : list Drv.Call;
  unhandled : list Err               (* rejections no code of the class handles *)
}.

(** The heap a method works on: the receiver and the caller's parameter
    object, which [newPage] and [render] assign into. *)
Record Heap (T : Type) := { this : T; data : Data.screenshot }.
Arguments this {T} h.
Arguments data {T} h.

Definition with_pool (f : list (string * PageInfo) -> list (string * PageInfo)) (r : RenderObj) :=
  {| id := id r; pool := f (pool r); timers := timers r; nextTimer := nextTimer r;
     nextPage := nextPage r; list_ := list_ r; trace := trace r;
     unhandled := unhandled r |}.
Definition with_timers (f : list (TimerId * string) -> list (TimerId * string)) (r : RenderObj) :=
  {| id := id r; pool := pool r; timers := f (timers r); nextTimer := nextTimer r;
     nextPage := nextPage r; list_ := list_ r; trace := trace r;
     unhandled := unhandled r |}.
Definition with_nextTimer (n : TimerId) (r : RenderObj) :=
  {| id := id r; pool := pool r; timers := timers r; nextTimer := n;
     nextPage := nextPage r; list_ := list_ r; trace := trace r;
     unhandled := unhandled r |}.
Definition with_nextPage (n : Page) (r : RenderObj) :=
  {| id := id r; pool := pool r; timers := timers r; nextTimer := nextTimer r;
     nextPage := n; list_ := list_ r; trace := trace r;
     unhandled := unhandled r |}.
Definition with_list (f : list string -> list string) (r : RenderObj) :=
  {| id := id r; pool := pool r; timers := timers r; nextTimer := nextTimer r;
     nextPage := nextPage r; list_ := f (list_ r); trace := trace r;
     unhandled := unhandled r |}.
Definition with_trace (f : list Drv.Call -> list Drv.Call) (r : RenderObj) :=
  {| id := id r; pool := pool r; timers := timers r; nextTimer := nextTimer r;
     nextPage := nextPage r; list_ := list_ r; trace := f (trace r);
     unhandled := unhandled r |}.

Definition with_unhandled (f : list Err -> list Err) (r : RenderObj) :=
  {| id := id r; pool := pool r; timers := timers r; nextTimer := nextTimer r;
     nextPage := nextPage r; list_ := list_ r; trace := trace r;
     unhandled := f (unhandled r) |}.

Definition on_this {T} (f : T -> T) (h : Heap T) : Heap T :=
  {| this := f (this h); data := data h |}.
Definition on_data {T} (f : Data.screenshot -> Data.screenshot) (h : Heap T) : Heap T :=
  {| this := this h; data := f (data h) |}.

(** ** The monad of asynchronous methods *)

Inductive Result (A : Type) :=
| Ok (a : A)          (* the promise resolves *)
| Throw (e : Err)     (* the promise rejects / the method throws *)
| Pending.            (* the promise does not settle *)
Arguments Ok {A} a.
Arguments Throw {A} e.
Arguments Pending {A}.

Definition Async (T A : Type) := Heap T -> Result A * Heap T.

(** Methods of [Render] and of its [PagePool]. *)
Definition M (A : Type) := Async RenderObj A.

Definition ret {T A} (a : A) : Async T A := fun h => (Ok a, h).
Definition throw {T A} (e : Err) : Async T A := fun h => (Throw e, h).
Definition pending {T A} : Async T A := fun h => (Pending, h).
Definition bind {T A B} (m : Async T A) (k : A -> Async T B) : Async T B :=
  fun h => match m h with
           | (Ok a, h') => k a h'
           | (Throw e, h') => (Throw e, h')
           | (Pending, h') => (Pending, h')
           end.

Declare Scope js_scope.
Delimit Scope js_scope with js.
Notation "x <- m ;; k" := (bind m (fun x => k))
  (at level 100, m at next level, right associativity) : js_scope.
Notation "m ;; k" := (bind m (fun _ => k))
  (at level 100, right associativity) : js_scope.
Local Open Scope js_scope.

(** [promise.catch(() => { })]: a rejection becomes a normal completion. *)
Definition catch_noop {T} (m : Async T unit) : Async T unit :=
  fun h => match m h with
           | (Throw _, h') => (Ok tt, h')
           | r => r
           end.

(** [try { m } catch (err) { handler err }] *)
Definition try_catch {T A} (m : Async T A) (handler : Err -> Async T A) : Async T A :=
  fun h => match m h with
           | (Throw e, h') => handler e h'
           | r => r
           end.

(** Run [m] up to the point where its promise settles and hand the
    settlement to the code after the [try] block. *)
Definition settle {T A} (m : Async T A) : Async T (Err + A) :=
  fun h => match m h with
           | (Ok a, h') => (Ok (inr a), h')
           | (Throw e, h') => (Ok (inl e), h')
           | (Pending, h') => (Pending, h')
           end.

(** A call whose promise is dropped ([this.launch()] in the crash
    listener, [this.initFirstPage()] in the constructor of [PagePool]):
    the caller goes on whatever becomes of it.  When the promise is
    rejected nothing in the program handles the rejection; it goes to
    the host, which [note] records.  Node by default ends the process
    on such a rejection: a state with a rejection on record is a state
    of the program under a host that goes on.

    The dropped call is run to its end here.  The caller in fact goes
    on as soon as the call has reached its first [await]; for the pool
    that order is the subject of [Overlap], where [initFirstPage] waits
    for its page while other calls are made. *)
Definition detached {T A} (note : Err -> T -> T) (m : Async T A) : Async T unit :=
  fun h => match m h with
           | (Throw e, h') => (Ok tt, on_this (note e) h')
           | (_, h') => (Ok tt, h')
           end.

Definition get_this {T} : Async T T := fun h => (Ok (this h), h).
Definition get_data {T} : Async T Data.screenshot := fun h => (Ok (data h), h).
Definition modify_this {T} (f : T -> T) : Async T unit := fun h => (Ok tt, on_this f h).
Definition modify_data {T} (f : Data.screenshot -> Data.screenshot) : Async T unit :=
  fun h => (Ok tt, on_data f h).

Definition when {T} (b : bool) (m : Async T unit) : Async T unit := if b then m else ret tt.

Fixpoint for_of {T A} (l : list A) (body : A -> Async T unit) : Async T unit :=
  match l with
  | [] => ret tt
  | x :: l' => body x ;; for_of l' body
  end.

(** ** Primitive effects *)

Section Effects.
Context (drv : Driver).

(** A driver call whose promise resolves to [undefined]. *)
Definition call (c : Drv.Call) : M unit :=
  fun h =>
    let h' := on_this (with_trace (fun t => t ++ [c])) h in
    match settles drv (trace (this h)) c with
    | None => (Ok tt, h')
    | Some e => (Throw e, h')
    end.

(** The two halves of an awaited call, for the methods other calls can
    overlap: the call leaves for the browser, which settles what becomes
    of it from the calls made so far, and the caller waits; when the
    [await] is over the caller goes on with the answer.  [call] is
    [send] followed at once by [answered]. *)
Definition send (c : Drv.Call) : M (option Err) :=
  fun h => (Ok (settles drv (trace (this h)) c),
            on_this (with_trace (fun t => t ++ [c])) h).

Definition answered (o : option Err) : M unit :=
  fun h => match o with
           | None => (Ok tt, h)
           | Some e => (Throw e, h)
           end.

(** A synchronous call that cannot fail ([emit], [page.on],
    [removeAllListeners]); it is only recorded. *)
Definition note (c : Drv.Call) : M unit :=
  modify_this (with_trace (fun t => t ++ [c])).

(** The answer to [browser.newPage()]: a new handle each time it
    resolves. *)
Definition newPage_answered (o : option Err) : M Page :=
  fun h => match o with
           | None => (Ok (nextPage (this h)), on_this (with_nextPage (S (nextPage (this h)))) h)
           | Some e => (Throw e, h)
           end.

(** [await this.render.browser.newPage()] with nothing in between. *)
Definition browser_newPage : M Page :=
  o <- send Drv.newPage ;;
  newPage_answered o.

(** [page.$(sel)] *)
Definition query (p : Page) (sel : string) : M (option ElementHandle) :=
  fun h =>
    let h' := on_this (with_trace (fun t => t ++ [Drv.query p sel])) h in
    match finds drv (trace (this h)) p sel with
    | inr e => (Ok e, h')
    | inl err => (Throw err, h')
    end.

(** [body!.boundingBox()] *)
Definition boundingBox (body : option ElementHandle) : M (option BoundingBox) :=
  match body with
  | None => throw (TypeError "Cannot read properties of null (reading 'boundingBox')")
  | Some e =>
      fun h =>
        let h' := on_this (with_trace (fun t => t ++ [Drv.boundingBox e])) h in
        match measures drv (trace (this h)) e with
        | inr b => (Ok b, h')
        | inl err => (Throw err, h')
        end
  end.

(** [page.screenshot(options)] and [body.screenshot(data)] *)
Definition take (c : Drv.Call) : M Image :=
  fun h =>
    let h' := on_this (with_trace (fun t => t ++ [c])) h in
    match captures drv (trace (this h)) c with
    | inr img => (Ok img, h')
    | inl err => (Throw err, h')
    end.

Definition Date_now : M nat := fun h => (Ok (clock drv (trace (this h))), h).

Definition clearTimeout (t : TimerId) : M unit :=
  modify_this (with_timers (filter (fun e => negb (Nat.eqb (fst e) t)))).

(** [setTimeout(callback, idleTimeout)] where the callback closes over [id]. *)
Definition setTimeout (id : string) : M TimerId :=
  fun h =>
    let t := nextTimer (this h) in
    (Ok t, on_this (fun r => with_nextTimer (S t) (with_timers (fun l => l ++ [(t, id)]) r)) h).

End Effects.

(** ** [Map<string, PageInfo>] *)

Fixpoint Map_get (id : string) (m : list (string * PageInfo)) : option PageInfo :=
  match m with
  | [] => None
  | (k, v) :: m' => if String.eqb k id then Some v else Map_get id m'
  end.

Fixpoint Map_set (id : string) (v : PageInfo) (m : list (string * PageInfo)) :=
  match m with
  | [] => [(id, v)]
  | (k, x) :: m' => if String.eqb k id then (k, v) :: m' else (k, x) :: Map_set id v m'
  end.

Fixpoint Map_delete (id : string) (m : list (string * PageInfo)) :=
  match m with
  | [] => []
  | (k, x) :: m' => if String.eqb k id then m' else (k, x) :: Map_delete id m'
  end.

(** Assignment to a field of the object [Map_get id] returned. *)
Fixpoint Map_update (id : string) (f : PageInfo -> PageInfo) (m : list (string * PageInfo)) :=
  match m with
  | [] => []
  | (k, x) :: m' => if String.eqb k id then (k, f x) :: m' else (k, x) :: Map_update id f m'
  end.

(** Assignment to a field of the first entry a [for ... of] loop stops at. *)
Fixpoint update_first (p : PageInfo -> bool) (f : PageInfo -> PageInfo)
    (m : list (string * PageInfo)) :=
  match m with
  | [] => []
  | (k, x) :: m' => if p x then (k, f x) :: m' else (k, x) :: update_first p f m'
  end.

Definition first_entry (p : PageInfo -> bool) (m : list (string * PageInfo)) :=
  find (fun e => p (snd e)) m.

Definition set_status (s : Status) (i : PageInfo) :=
  {| page := page i; status := s; lastUsed := lastUsed i; timer := timer i |}.
Definition set_lastUsed (n : nat) (i : PageInfo) :=
  {| page := page i; status := status i; lastUsed := n; timer := timer i |}.
Definition set_timer (t : option TimerId) (i : PageInfo) :=
  {| page := page i; status := status i; lastUsed := lastUsed i; timer := t |}.

Definition is_idle (i : PageInfo) : bool :=
  match status i with idle => true | busy => false end.
Definition has_page (p : Page) (i : PageInfo) : bool := Nat.eqb (page i) p.

(** ** class PagePool *)

Module PagePool.
Section Methods.
Context (drv : Driver).

Definition maxSize : nat := 10.
Definition idleTimeout : N := 60000%N.   (* milliseconds *)

(** [generateId] is called once for each page the browser has handed
    out: their number is the number of the call. *)
Definition generateId : M string :=
  fun h => (Ok (random drv (trace (this h)) (nextPage (this h))), h).

(** [createNewPage] after [await this.render.browser.newPage()]. *)
Definition createNewPage_end (o : option Err) : M string :=
  page <- newPage_answered o ;;
  id <- generateId ;;
  now <- Date_now drv ;;
  modify_this (with_pool (Map_set id
    {| page := page; status := idle; lastUsed := now; timer := None |})) ;;
  ret id.

Definition createNewPage : M string :=
  o <- send drv Drv.newPage ;;
  createNewPage_end o.

Definition initFirstPage : M unit :=
  createNewPage ;; ret tt.

(** The callback [startIdleTimer] hands to [setTimeout], up to its
    [await]: [Some o] when [info.page.close()] has left for the
    browser. *)
Definition idleTimerCallback_begin (id : string) : M (option (option Err)) :=
  r <- get_this ;;
  match Map_get id (pool r) with
  | Some info =>
      if is_idle info then
        o <- send drv (Drv.close (page info)) ;;
        ret (Some o)
      else ret None
  | None => ret None
  end.

(** The callback after [await info.page.close().catch(() => { })]. *)
Definition idleTimerCallback_end (id : string) (o : option Err) : M unit :=
  catch_noop (answered o) ;;
  modify_this (with_pool (Map_delete id)).

Definition idleTimerCallback (id : string) : M unit :=
  closing <- idleTimerCallback_begin id ;;
  match closing with
  | Some o => idleTimerCallback_end id o
  | None => ret tt
  end.

Definition startIdleTimer (id : string) : M unit :=
  r <- get_this ;;
  match Map_get id (pool r) with
  | None => ret tt
  | Some pageInfo =>
      match timer pageInfo with
      | Some t => clearTimeout t
      | None => ret tt
      end ;;
      t <- setTimeout id ;;
      modify_this (with_pool (Map_update id (set_timer (Some t))))
  end.

(** The runtime runs a timeout that is still pending: the callback up
    to its [await], with the key it closes over. *)
Definition fire_begin (t : TimerId) : M (option (string * option Err)) :=
  r <- get_this ;;
  match find (fun e => Nat.eqb (fst e) t) (timers r) with
  | Some (_, id) =>
      clearTimeout t ;;
      closing <- idleTimerCallback_begin id ;;
      ret (option_map (pair id) closing)
  | None => ret None
  end.

(** A timeout fires and its callback runs to its end with nothing in
    between. *)
Definition fire (t : TimerId) : M unit :=
  closing <- fire_begin t ;;
  match closing with
  | Some (id, o) => idleTimerCallback_end id o
  | None => ret tt
  end.

(** [acquirePage] and [createPage] after [await this.createNewPage()]. *)
Definition take_created (id : string) : M Page :=
  r <- get_this ;;
  match Map_get id (pool r) with
  | Some info =>
      modify_this (with_pool (Map_update id (set_status busy))) ;;
      ret (page info)
  | None => throw (TypeError "Cannot set properties of undefined (setting 'status')")
  end.

Definition createPage : M Page :=
  id <- createNewPage ;;
  take_created id.

(** The loop over [this.pool.entries()] shared by the first lines of
    [acquirePage] and by its polling callback. *)
Definition takeIdle : M (option Page) :=
  r <- get_this ;;
  match first_entry is_idle (pool r) with
  | Some (_, info) =>
      now <- Date_now drv ;;
      modify_this (with_pool (update_first is_idle
        (fun i => set_lastUsed now (set_status busy i)))) ;;
      match timer info with
      | Some t => clearTimeout t
      | None => ret tt
      end ;;
      ret (Some (page info))
  | None => ret None
  end.

(** Where the synchronous part of [acquirePage] ends: with an idle page,
    at [await browser.newPage()] inside [createNewPage], or in the
    promise that polls every 100 ms. *)
Inductive Acquiring :=
| handed (page : Page)
| creating (o : option Err)
| polling.

Definition acquirePage_begin : M Acquiring :=
  found <- takeIdle ;;
  match found with
  | Some page => ret (handed page)
  | None =>
      r <- get_this ;;
      if Nat.ltb (List.length (pool r)) maxSize then
        o <- send drv Drv.newPage ;;
        ret (creating o)
      else ret polling
  end.

(** [acquirePage] with nothing in between its parts. *)
Definition acquirePage : M Page :=
  a <- acquirePage_begin ;;
  match a with
  | handed page => ret page
  | creating o =>
      id <- createNewPage_end o ;;
      take_created id
  | polling => pending
  end.

(** One tick of the [setInterval] callback of a caller that is waiting. *)
Definition poll : M (option Page) := takeIdle.

Definition releasePage (p : Page) : M unit :=
  r <- get_this ;;
  match first_entry (has_page p) (pool r) with
  | Some (id, _) =>
      now <- Date_now drv ;;
      modify_this (with_pool (update_first (has_page p)
        (fun i => set_lastUsed now (set_status idle i)))) ;;
      startIdleTimer id
  | None => ret tt
  end.

(** [closeAll] with nothing in between: the pages are closed one after
    the other, each [await] answered before the loop goes on. *)
Definition closeAll : M unit :=
  r <- get_this ;;
  for_of (pool r) (fun e =>
    match timer (snd e) with
    | Some t => clearTimeout t
    | None => ret tt
    end ;;
    catch_noop (call drv (Drv.close (page (snd e))))) ;;
  modify_this (with_pool (fun _ => [])).

(** [removePage] up to its [await]: the key of the slot when
    [info.page.close()] has left for the browser. *)
Definition removePage_begin (p : Page) : M (option (string * option Err)) :=
  r <- get_this ;;
  match first_entry (has_page p) (pool r) with
  | Some (id, info) =>
      match timer info with
      | Some t => clearTimeout t
      | None => ret tt
      end ;;
      note (Drv.removeAllListeners p) ;;
      o <- send drv (Drv.close (page info)) ;;
      ret (Some (id, o))
  | None => ret None
  end.

(** [removePage] after [await info.page.close().catch(() => { })]. *)
Definition removePage_end (id : string) (o : option Err) : M unit :=
  catch_noop (answered o) ;;
  modify_this (with_pool (Map_delete id)).

Definition removePage (p : Page) : M unit :=
  closing <- removePage_begin p ;;
  match closing with
  | Some (id, o) => removePage_end id o
  | None => ret tt
  end.

End Methods.
End PagePool.

(** ** JavaScript truthiness *)

Definition truthy_string (s : string) : bool := negb (String.eqb s "").
Definition truthy_number (n : Q) : bool := negb (Qeq_bool n 0%Q).
Definition truthy_bool (b : option bool) : bool :=
  match b with Some true => true | _ => false end.
Definition truthy_name (s : option string) : bool :=
  match s with Some s => truthy_string s | None => false end.
Definition truthy_optnum (n : option Q) : bool :=
  match n with Some n => truthy_number n | None => false end.
Definition truthy_multiPage (m : option MultiPage) : bool :=
  match m with
  | Some (MPBool b) => b
  | Some (MPNum n) => truthy_number n
  | None => false
  end.
Definition truthy_wait (w : option OneOrMany) : bool :=
  match w with
  | Some (One s) => truthy_string s
  | Some (Many _) => true
  | None => false
  end.

(** [a || b] on optional numbers *)
Definition or_number (a b : option Q) : option Q :=
  if truthy_optnum a then a else b.
(** [a || d] with a number literal on the right *)
Definition or_default (a : option Q) (d : Q) : Q :=
  match a with
  | Some n => if truthy_number n then n else d
  | None => d
  end.

Definition Math_round (n : Q) : Z := Qfloor (n + (1 # 2))%Q.
Definition Math_ceil (n : Q) : Z := Qceiling n.

(** ** Double precision

    A JavaScript number is an IEEE-754 binary64 value, embedded as the
    rational it denotes.  The result of an operation is the exact result
    rounded to the nearest binary64 value, ties to even: [binary64]
    (overflow to an infinity is not represented). *)

(** The integer nearest to [q], ties to even. *)
Definition round_half_even (q : Q) : Z :=
  let f := Qfloor q in
  match Qcompare (q - inject_Z f) (1 # 2) with
  | Lt => f
  | Gt => (f + 1)%Z
  | Eq => if Z.even f then f else (f + 1)%Z
  end.

(** The exponent [e] of the last place of the binary64 values around
    [q]: [2 ^ 52 <= |q| / 2 ^ e < 2 ^ 53], and [-1074] for the subnormal
    ones. *)
Definition ulp_exponent (q : Q) : Z :=
  let a := Qabs q in
  let e0 := (Z.log2 (Qnum a) - Z.log2 (Zpos (Qden a)) - 52)%Z in
  Z.max (if Qle_bool (2 ^ 52) (a / 2 ^ e0) then e0 else e0 - 1) (-1074).

Definition binary64 (q : Q) : Q :=
  let r := Qred q in
  if Qeq_bool r 0 then 0%Q
  else Qred (inject_Z (round_half_even (r / 2 ^ ulp_exponent r)) * 2 ^ ulp_exponent r).

(** [q] is a binary64 value: the operation that gave it was exact. *)
Definition representable (q : Q) : Prop := (binary64 q == q)%Q.

(** ** class Render *)

Module Render.
Section Methods.
Context (drv : Driver).

(** [new Render(id, config)] *)
Definition new (id : nat) : RenderObj :=
  {| id := id; pool := []; timers := []; nextTimer := 0; nextPage := 0;
     list_ := []; trace := []; unhandled := [] |}.

(** [init]: the constructor of [PagePool] starts [initFirstPage] without
    awaiting it, so its rejection does not reach [init] and nothing
    handles it.  Here the first page has arrived when [init] is over;
    [Overlap.born] is the state at the moment [init] resolves, with
    [initFirstPage] still waiting for its page. *)
Definition init : M unit :=
  call drv Drv.launch ;;
  detached (fun e => with_unhandled (fun l => l ++ [e])) (PagePool.initFirstPage drv).

Definition setViewport (page : Page) (width height deviceScaleFactor : option Q) : M unit :=
  if negb (truthy_optnum width) && negb (truthy_optnum height)
     && negb (truthy_optnum deviceScaleFactor)
  then ret tt
  else call drv (Drv.setViewport page
         (Math_round (or_default width 1920%Q))
         (Math_round (or_default height 1080%Q))
         (Math_round (or_default deviceScaleFactor 1%Q))).

(** [await a || await b] on element handles *)
Definition or_else (a b : M (option ElementHandle)) : M (option ElementHandle) :=
  x <- a ;;
  match x with
  | Some e => ret (Some e)
  | None => b
  end.

Definition elementHandle (page : Page) (name : option string) : M (option ElementHandle) :=
  try_catch
    (match name with
     | Some n =>
         if truthy_string n then
           or_else (query drv page n)
             (or_else (query drv page "#container") (query drv page "body"))
         else or_else (query drv page "#container") (query drv page "body")
     | None => or_else (query drv page "#container") (query drv page "body")
     end)
    (fun _ => or_else (query drv page "#container") (query drv page "body")).

Definition entries (w : option OneOrMany) : list string :=
  match w with
  | Some (One s) => [s]
  | Some (Many l) => l
  | None => []
  end.

(** The four blocks of [newPage] after the wait for [body]. *)
Definition optionalWaits (page : Page) : M unit :=
  data <- get_data ;;
  when (truthy_wait (Data.waitForSelector data))
    (modify_data (Data.with_waitForSelector (Some (Many (entries (Data.waitForSelector data))))) ;;
     for_of (entries (Data.waitForSelector data)) (fun selector =>
       catch_noop (call drv (Drv.waitForSelector page selector)))) ;;
  when (truthy_wait (Data.waitForFunction data))
    (modify_data (Data.with_waitForFunction (Some (Many (entries (Data.waitForFunction data))))) ;;
     for_of (entries (Data.waitForFunction data)) (fun func =>
       catch_noop (call drv (Drv.waitForFunction page func)))) ;;
  when (truthy_wait (Data.waitForRequest data))
    (modify_data (Data.with_waitForRequest (Some (Many (entries (Data.waitForRequest data))))) ;;
     for_of (entries (Data.waitForRequest data)) (fun req =>
       catch_noop (call drv (Drv.waitForRequest page req)))) ;;
  when (truthy_wait (Data.waitForResponse data))
    (modify_data (Data.with_waitForResponse (Some (Many (entries (Data.waitForResponse data))))) ;;
     for_of (entries (Data.waitForResponse data)) (fun res =>
       catch_noop (call drv (Drv.waitForResponse page res)))).

(** [newPage] up to and including [await page.waitForSelector('body')]. *)
Definition openPage : M Page :=
  data <- get_data ;;
  r <- get_this ;;
  page <- match Data.setRequestInterception data with
          | Some callback =>
              page <- PagePool.createPage drv ;;
              match Data.headers data with
              | Some h => call drv (Drv.setExtraHTTPHeaders page h)
              | None => ret tt
              end ;;
              call drv (Drv.setRequestInterception page true) ;;
              note (Drv.on_request page callback) ;;
              ret page
          | None =>
              page <- PagePool.acquirePage drv ;;
              match Data.headers data with
              | Some h => call drv (Drv.setExtraHTTPHeaders page h)
              | None => ret tt
              end ;;
              ret page
          end ;;
  note (Drv.emit "newPage" (id r)) ;;
  (if String.prefix "http" (Data.file data) || String.prefix "file://" (Data.file data)
   then call drv (Drv.goto page (Data.file data) (Data.pageGotoParams data))
   else call drv (Drv.setContent page (Data.file data) (Data.pageGotoParams data))) ;;
  call drv (Drv.waitForSelector page "body") ;;
  ret page.

Definition newPage : M Page :=
  page <- openPage ;;
  optionalWaits page ;;
  ret page.

(** The [options] literal and the line that follows it. *)
Definition makeOptions (data : Data.screenshot) : Options.t :=
  let quality := Some (or_default (Data.quality data) 90%Q) in
  {| Options.path := Data.path data;
     Options.type := match Data.type data with Some t => t | None => jpeg end;
     Options.quality :=
       match Data.type data with
       | Some png => None     (* options.quality is never falsy here *)
       | _ => quality
       end;
     Options.fullPage := truthy_bool (Data.fullPage data);
     Options.optimizeForSpeed := truthy_bool (Data.optimizeForSpeed data);
     Options.encoding := match Data.encoding data with Some e => e | None => binary end;
     Options.omitBackground := truthy_bool (Data.omitBackground data);
     Options.captureBeyondViewport := truthy_bool (Data.captureBeyondViewport data) |}.

Definition set_captureBeyondViewport (b : bool) (o : Options.t) : Options.t :=
  {| Options.path := Options.path o; Options.type := Options.type o;
     Options.quality := Options.quality o; Options.fullPage := Options.fullPage o;
     Options.optimizeForSpeed := Options.optimizeForSpeed o;
     Options.encoding := Options.encoding o;
     Options.omitBackground := Options.omitBackground o;
     Options.captureBeyondViewport := b |}.

(** The slice height and the number of slices of a paginated capture. *)
Definition sliceHeight (multiPage : option MultiPage) (boxHeight : Q) : Q :=
  match multiPage with
  | Some (MPNum n) => n
  | _ => if Qle_bool 2000%Q boxHeight then 2000%Q else boxHeight
  end.

(** [Math.ceil(boxHeight / height)]: the quotient is rounded. *)
Definition sliceCount (boxHeight height : Q) : Z :=
  Math_ceil (binary64 (boxHeight / height)).

(** The clip rectangle the loop body computes for index [i].  The
    product, the difference and the two shifts by 100 are those of the
    rationals; the program computes the same whenever they are
    [representable], which the statements about the rectangles of the
    slices after the first ask for ([exact_clips]). *)
Definition clipAt (i : nat) (boxWidth boxHeight height : Q) : Clip :=
  let y := (inject_Z (Z.of_nat i) * height)%Q in
  let clipHeight := Qmin height (boxHeight - inject_Z (Z.of_nat i) * height)%Q in
  if Nat.eqb i 0
  then {| clip_x := 0%Q; clip_y := y; clip_width := boxWidth; clip_height := clipHeight |}
  else {| clip_x := 0%Q; clip_y := (y - 100)%Q; clip_width := boxWidth;
          clip_height := (clipHeight + 100)%Q |}.

(** The arithmetic of [clipAt] is exact for every index of the loop. *)
Definition exact_clips (boxHeight height : Q) : Prop :=
  forall i : nat,
    (Z.of_nat i < sliceCount boxHeight height)%Z ->
    representable (inject_Z (Z.of_nat i) * height)
    /\ representable (boxHeight - inject_Z (Z.of_nat i) * height)
    /\ representable (inject_Z (Z.of_nat i) * height - 100)
    /\ representable (Qmin height (boxHeight - inject_Z (Z.of_nat i) * height) + 100).

(** The indices [for (let i = 0; i < count; i++)] runs through. *)
Definition indices (count : Z) : list nat := seq 0 (Z.to_nat count).

Definition clips (boxWidth boxHeight height : Q) : list Clip :=
  map (fun i => clipAt i boxWidth boxHeight height) (indices (sliceCount boxHeight height)).

Fixpoint slices (body : option ElementHandle) (boxWidth boxHeight height : Q)
    (ixs : list nat) : M (list Image) :=
  match ixs with
  | [] => ret []
  | i :: ixs' =>
      modify_data (Data.with_clip (Some (clipAt i boxWidth boxHeight height))) ;;
      data <- get_data ;;
      uint8Array <- match body with
                    | Some e => take drv (Drv.element_screenshot e data)
                    | None => throw (TypeError "Cannot read properties of null (reading 'screenshot')")
                    end ;;
      rest <- slices body boxWidth boxHeight height ixs' ;;
      ret (uint8Array :: rest)
  end.

Definition vp_width (data : Data.screenshot) : option Q :=
  match Data.setViewport data with Some v => width v | None => None end.
Definition vp_height (data : Data.screenshot) : option Q :=
  match Data.setViewport data with Some v => height v | None => None end.
Definition vp_deviceScaleFactor (data : Data.screenshot) : option Q :=
  match Data.setViewport data with Some v => deviceScaleFactor v | None => None end.

(** The [try] block of [render] after [page] has been assigned. *)
Definition capture (page : Page) : M RenderResult :=
  data <- get_data ;;
  let options := makeOptions data in
  if truthy_bool (Data.fullPage data) then
    uint8Array <- take drv (Drv.page_screenshot page (set_captureBeyondViewport true options)) ;;
    setViewport page (vp_width data) (vp_height data) (vp_deviceScaleFactor data) ;;
    ret (Single uint8Array)
  else
    body <- elementHandle page (Data.selector data) ;;
    box <- boundingBox drv body ;;
    setViewport page
      (or_number (vp_width data) (option_map box_width box))
      (or_number (vp_height data) (option_map box_height box))
      (vp_deviceScaleFactor data) ;;
    if negb (truthy_multiPage (Data.multiPage data)) then
      uint8Array <- take drv (Drv.page_screenshot page options) ;;
      ret (Single uint8Array)
    else
      let boxWidth := match box with Some b => box_width b | None => 1200%Q end in
      let boxHeight := match box with Some b => box_height b | None => 2000%Q end in
      let height := sliceHeight (Data.multiPage data) boxHeight in
      let count := sliceCount boxHeight height in
      list <- slices body boxWidth boxHeight height (indices count) ;;
      ret (Multi list).

Definition list_set (echo : string) (l : list string) : list string :=
  if existsb (String.eqb echo) l then l else l ++ [echo].
Definition list_delete (echo : string) (l : list string) : list string :=
  filter (fun e => negb (String.eqb echo e)) l.

(** [render]: the local variable [page] is still [undefined] in [catch]
    and [finally] when [newPage] itself rejects. *)
Definition render (echo : string) : M RenderResult :=
  modify_this (with_list (list_set echo)) ;;
  opened <- settle newPage ;;
  match opened with
  | inl error =>
      modify_this (with_list (list_delete echo)) ;;
      throw error
  | inr page =>
      captured <- settle (capture page) ;;
      match captured with
      | inl error =>
          PagePool.removePage drv page ;;
          modify_this (with_list (list_delete echo)) ;;
          throw error
      | inr result =>
          modify_this (with_list (list_delete echo)) ;;
          r <- get_this ;;
          note (Drv.emit "screenshot" (id r)) ;;
          PagePool.releasePage drv page ;;
          ret result
      end
  end.

End Methods.
End Render.

(** ** class Puppeteer *)

Module Puppeteer.

Record t := {
  index : nat;
  list_ : list RenderObj;      (* Puppeteer.list: the rotation *)
  uuids : nat;                 (* calls of crypto.randomUUID so far *)
  console : list string;
  unhandled : list Err         (* rejections no code of the class handles *)
}.

Definition with_index (n : nat) (P : t) :=
  {| index := n; list_ := list_ P; uuids := uuids P; console := console P;
     unhandled := unhandled P |}.
Definition with_list_ (f : list RenderObj -> list RenderObj) (P : t) :=
  {| index := index P; list_ := f (list_ P); uuids := uuids P; console := console P;
     unhandled := unhandled P |}.
Definition with_uuids (n : nat) (P : t) :=
  {| index := index P; list_ := list_ P; uuids := n; console := console P;
     unhandled := unhandled P |}.
Definition with_console (f : list string -> list string) (P : t) :=
  {| index := index P; list_ := list_ P; uuids := uuids P; console := f (console P);
     unhandled := unhandled P |}.
Definition with_unhandled (f : list Err -> list Err) (P : t) :=
  {| index := index P; list_ := list_ P; uuids := uuids P; console := console P;
     unhandled := f (unhandled P) |}.

Section Methods.
Context (drvs : nat -> Driver).         (* the browser launched under each id *)
Context (randomUUID : nat -> string).

Definition new : t :=
  {| index := 0; list_ := []; uuids := 0; console := []; unhandled := [] |}.

(** Run a method of a [Render] from a method of [Puppeteer]; the
    parameter object is the same one. *)
Definition on_browser {A} (browser : RenderObj) (m : M A) (h : Heap t)
  : Result A * RenderObj * Data.screenshot :=
  let '(r, hb) := m {| this := browser; data := data h |} in
  (r, this hb, data hb).

Definition launch : Async t unit :=
  fun h =>
    let P := this h in
    let browser := Render.new (index P) in
    let P1 := with_index (S (index P)) P in
    match on_browser browser (Render.init (drvs (index P))) h with
    | (Ok _, browser', d) =>
        (Ok tt, {| this := with_list_ (fun l => l ++ [browser']) P1; data := d |})
    | (Throw e, _, d) => (Throw e, {| this := P1; data := d |})
    | (Pending, _, d) => (Pending, {| this := P1; data := d |})
    end.

Fixpoint findIndex (x : nat) (l : list RenderObj) : option nat :=
  match l with
  | [] => None
  | item :: l' => if Nat.eqb (id item) x then Some 0 else option_map S (findIndex x l')
  end.

(** [list.splice(index, 1)] *)
Definition splice (i : nat) (l : list RenderObj) : list RenderObj :=
  firstn i l ++ skipn (S i) l.

(** The listener [init] registers for ['browserCrash']. *)
Definition browserCrash (x : nat) : Async t unit :=
  P <- get_this ;;
  match findIndex x (list_ P) with
  | Some i => modify_this (with_list_ (splice i))
  | None => ret tt
  end ;;
  detached (fun e => with_unhandled (fun l => l ++ [e])) launch.

Fixpoint launch_times (n : nat) : Async t unit :=
  match n with
  | 0 => ret tt
  | S n' => launch ;; launch_times n'
  end.

(** [init], after the executable path has been resolved. *)
Definition init (browserCount : option nat) : Async t unit :=
  launch_times (match browserCount with
                | Some 0 | None => 1
                | Some n => n
                end).

Definition task : Async t RenderResult :=
  fun h =>
    let P := this h in
    let echo := randomUUID (uuids P) in
    let P1 := with_uuids (S (uuids P)) P in
    match list_ P with
    | [] => (Throw (TypeError "Cannot read properties of undefined (reading 'render')"),
             {| this := P1; data := data h |})
    | browser :: rest =>
        let '(image, browser', d) :=
          on_browser browser (Render.render (drvs (id browser)) echo) h in
        (image, {| this := with_list_ (fun _ => rest ++ [browser']) P1; data := d |})
    end.

Definition Array_isArray (r : RenderResult) : bool :=
  match r with Multi _ => true | Single _ => false end.
Definition Buffer_isBuffer (r : RenderResult) : bool :=
  match r with Single (Buffer _) => true | _ => false end.

(** The text logged before the second dispatch is the message of the
    source in English. *)
Definition screenshot : Async t RenderResult :=
  result <- task ;;
  if Array_isArray result || Buffer_isBuffer result then ret result
  else
    modify_this (with_console (fun c => c ++ ["[chrome] first screenshot failed, retrying~"])) ;;
    task.

End Methods.
End Puppeteer.

(** ** Definitions used in the statements *)

(** *** Slot and timer properties of a [PagePool] *)

(** The timeout held in the [timer] field has been set and has neither
    fired nor been cleared: it is among the pending timeouts [ts]. *)
Definition armed (ts : list (TimerId * string)) (info : PageInfo) : Prop :=
  exists t, timer info = Some t /\ In t (map fst ts).

(** The slot invariant of the data model. A slot whose [timer] field was
    never assigned is one that was created and not yet released:
    [startIdleTimer], reached from [releasePage] only, is the one place
    that assigns the field. *)
Definition slot_ok (ts : list (TimerId * string)) (info : PageInfo) : Prop :=
  match status info with
  | busy => ~ armed ts info
  | idle => armed ts info \/ timer info = None
  end.

Definition slots_ok (slots : list (string * PageInfo)) (ts : list (TimerId * string)) : Prop :=
  forall id info, In (id, info) slots -> slot_ok ts info.

(** What the runtime guarantees about the map and the timeouts: keys are
    unique, timeout handles are unique and were handed out before
    [next], and the timeout a slot holds closes over the key of that
    slot. *)
Record runtime_ok (slots : list (string * PageInfo)) (ts : list (TimerId * string))
    (next : TimerId) : Prop := {
  keys_unique : NoDup (map fst slots);
  handles_unique : NoDup (map fst ts);
  handles_old : forall t id, In (t, id) ts -> t < next;
  held_old : forall id info t, In (id, info) slots -> timer info = Some t -> t < next;
  held_closes : forall id info t id',
      In (id, info) slots -> timer info = Some t -> In (t, id') ts -> id' = id
}.

Definition pool_inv (r : RenderObj) : Prop :=
  runtime_ok (pool r) (timers r) (nextTimer r) /\ slots_ok (pool r) (timers r).

(** [clearTimeout] on the [timer] field of a slot. *)
Definition cleared (t : option TimerId) (l : list (TimerId * string)) : list (TimerId * string) :=
  match t with
  | Some t => filter (fun e => negb (Nat.eqb (fst e) t)) l
  | None => l
  end.

(** What the slot invariant reads of a browser. *)
Definition core (r : RenderObj) := (pool r, timers r, nextTimer r).

(** One operation on the pool of a browser, each run to completion. *)
Inductive PoolOp :=
| acquirePage
| poll
| createPage
| releasePage (p : Page)
| removePage (p : Page)
| fire (t : TimerId)
| closeAll.

Definition run_op (drv : Driver) (op : PoolOp) (h : Heap RenderObj) : Heap RenderObj :=
  match op with
  | acquirePage => snd (PagePool.acquirePage drv h)
  | poll => snd (PagePool.poll drv h)
  | createPage => snd (PagePool.createPage drv h)
  | releasePage p => snd (PagePool.releasePage drv p h)
  | removePage p => snd (PagePool.removePage drv p h)
  | fire t => snd (PagePool.fire drv t h)
  | closeAll => snd (PagePool.closeAll drv h)
  end.

Definition is_createPage (op : PoolOp) : nat :=
  match op with createPage => 1 | _ => 0 end.

(** The states of a pool: the one [Render.init] leaves behind, and those
    any sequence of operations leads to; the index counts the calls of
    [createPage]. *)
Inductive pool_reach (drv : Driver) : nat -> Heap RenderObj -> Prop :=
| reach_init (id : nat) (d : Data.screenshot) :
    pool_reach drv 0 (snd (Render.init drv {| this := Render.new id; data := d |}))
| reach_step (n : nat) (h : Heap RenderObj) (op : PoolOp) :
    pool_reach drv n h ->
    pool_reach drv (is_createPage op + n) (run_op drv op h).

(** *** Calls of a pool that overlap

    A call that has reached an [await] on the browser waits there while
    other calls begin, timeouts fire and other waiting calls go on.  The
    states of a pool are those any such schedule leads to. *)

Module Overlap.

(** A call that waits, with what it needs to go on. *)
Inductive Waiting :=
| page_wanted (o : option Err) (take : bool)
    (* [createNewPage] at [await browser.newPage()], which settles as [o];
       [take]: on behalf of [acquirePage] or [createPage], which take the
       page; otherwise on behalf of [initFirstPage], whose promise the
       constructor has dropped *)
| page_created (id : string)
    (* [acquirePage] or [createPage] at [await this.createNewPage()],
       which has resolved with [id] *)
| closing (id : string) (o : option Err)
    (* the timeout callback at [await info.page.close()] *)
| removing (id : string) (o : option Err)
    (* [removePage] at [await info.page.close()] *)
| idle_wanted.
    (* [acquirePage] in its promise, between two ticks of the interval *)

Inductive Event :=
| acquirePage_called
| createPage_called
| releasePage_called (p : Page)
| removePage_called (p : Page)
| timeout (t : TimerId)          (* the runtime runs a pending timeout *)
| goes_on (i : nat).             (* the [i]-th waiting call goes on *)

Definition State : Type := Heap RenderObj * list Waiting.

Definition without {A} (i : nat) (l : list A) : list A := firstn i l ++ skipn (S i) l.

(** A part of a method has run: if it resolved, the call waits as
    [waits] says; if it threw, the call is over. *)
Definition starts {A} (out : Result A * Heap RenderObj) (ws : list Waiting)
    (waits : A -> list Waiting) : State :=
  match out with
  | (Ok a, h) => (h, ws ++ waits a)
  | (_, h) => (h, ws)
  end.

(** The page of a slot whose creator has not returned it yet: the
    creator waits at [await this.createNewPage()]. *)
Definition unreturned (s : State) (p : Page) : bool :=
  existsb (fun w =>
    match w with
    | page_created id =>
        match Map_get id (pool (this (fst s))) with
        | Some info => Nat.eqb (page info) p
        | None => false
        end
    | _ => false
    end) (snd s).

(** A page is released by a caller it was returned to.  The continuation
    of [await this.createNewPage()] is a microtask queued when the page
    is put into the map: whoever is handed the page in between resumes
    after it. *)
Definition permitted (e : Event) (s : State) : bool :=
  match e with
  | releasePage_called p => negb (unreturned s p)
  | _ => true
  end.

Section Steps.
Context (drv : Driver).

Definition step (e : Event) (s : State) : State :=
  let (h, ws) := s in
  match e with
  | acquirePage_called =>
      starts (PagePool.acquirePage_begin drv h) ws (fun a =>
        match a with
        | PagePool.handed _ => []
        | PagePool.creating o => [page_wanted o true]
        | PagePool.polling => [idle_wanted]
        end)
  | createPage_called =>
      starts (send drv Drv.newPage h) ws (fun o => [page_wanted o true])
  | releasePage_called p =>
      starts (PagePool.releasePage drv p h) ws (fun _ => [])
  | removePage_called p =>
      starts (PagePool.removePage_begin drv p h) ws (fun c =>
        match c with
        | Some (id, o) => [removing id o]
        | None => []
        end)
  | timeout t =>
      starts (PagePool.fire_begin drv t h) ws (fun c =>
        match c with
        | Some (id, o) => [closing id o]
        | None => []
        end)
  | goes_on i =>
      match nth_error ws i with
      | None => s
      | Some w =>
          let rest := without i ws in
          match w with
          | page_wanted o true =>
              starts (PagePool.createNewPage_end drv o h) rest (fun id => [page_created id])
          | page_wanted o false =>
              starts (detached (fun e => with_unhandled (fun l => l ++ [e]))
                        (PagePool.createNewPage_end drv o) h) rest (fun _ => [])
          | page_created id =>
              starts (PagePool.take_created id h) rest (fun _ => [])
          | closing id o =>
              starts (PagePool.idleTimerCallback_end id o h) rest (fun _ => [])
          | removing id o =>
              starts (PagePool.removePage_end id o h) rest (fun _ => [])
          | idle_wanted =>
              starts (PagePool.poll drv h) rest (fun found =>
                match found with
                | Some _ => []
                | None => [idle_wanted]
                end)
          end
      end
  end.

(** [Render.init] as far as the constructor of [PagePool] gets:
    [puppeteer.launch] has resolved and [initFirstPage] waits for its
    page.  When the launch is rejected there is no pool. *)
Definition born (id : nat) (d : Data.screenshot) : State :=
  starts ((call drv Drv.launch ;; send drv Drv.newPage) {| this := Render.new id; data := d |})
    [] (fun o => [page_wanted o false]).

Inductive reach : State -> Prop :=
| reach_born (id : nat) (d : Data.screenshot) : reach (born id d)
| reach_step (s : State) (e : Event) :
    reach s -> permitted e s = true -> reach (step e s).

Definition run (es : list Event) (s : State) : State :=
  fold_left (fun s e => step e s) es s.

Fixpoint permitted_all (es : list Event) (s : State) : bool :=
  match es with
  | [] => true
  | e :: es' => permitted e s && permitted_all es' (step e s)
  end.

End Steps.





End Overlap.

(** *** Element resolution as the specification words it *)

Section ResolveSpec.
Context (drv : Driver).

(** A lookup that raises counts as one that found nothing. *)
Definition lookup (page : Page) (sel : string) : M (option ElementHandle) :=
  try_catch (query drv page sel) (fun _ => ret None).

(** The candidates are tried in order until one is found. *)
Fixpoint first_found (page : Page) (candidates : list string) : M (option ElementHandle) :=
  match candidates with
  | [] => ret None
  | sel :: rest =>
      x <- lookup page sel ;;
      match x with
      | Some e => ret (Some e)
      | None => first_found page rest
      end
  end.

Definition candidates (name : option string) : list string :=
  (if truthy_name name then match name with Some n => [n] | None => [] end else [])
  ++ ["#container"; "body"].

Definition resolve_spec (page : Page) (name : option string) : M (option ElementHandle) :=
  first_found page (candidates name).

End ResolveSpec.

(** *** The rotation of [Puppeteer] *)

Definition ids (l : list RenderObj) : list nat := map id l.

(** Every id in the rotation was handed out before [index]. *)
Definition ids_below (P : Puppeteer.t) : Prop :=
  Forall (fun b => id b < Puppeteer.index P) (Puppeteer.list_ P).

(** [list.splice(list.findIndex(item => item.id === x), 1)] on ids. *)
Fixpoint remove_first (x : nat) (l : list RenderObj) : list RenderObj :=
  match l with
  | [] => []
  | b :: l' => if Nat.eqb (id b) x then l' else b :: remove_first x l'
  end.

Definition rotation_ok (P : Puppeteer.t) : Prop :=
  ids_below P /\ NoDup (ids (Puppeteer.list_ P)).

(** What a program does with a [Puppeteer]: it calls its methods, the
    emitter delivers crash notifications, and each [screenshot] call
    brings its own parameter object. *)
Inductive PuppeteerOp :=
| op_init (browserCount : option nat)
| op_launch
| op_browserCrash (x : nat)
| op_task
| op_screenshot.

Definition run_puppeteer (drvs : nat -> Driver) (randomUUID : nat -> string)
    (op : PuppeteerOp) (h : Heap Puppeteer.t) : Heap Puppeteer.t :=
  match op with
  | op_init n => snd (Puppeteer.init drvs n h)
  | op_launch => snd (Puppeteer.launch drvs h)
  | op_browserCrash x => snd (Puppeteer.browserCrash drvs x h)
  | op_task => snd (Puppeteer.task drvs randomUUID h)
  | op_screenshot => snd (Puppeteer.screenshot drvs randomUUID h)
  end.

Inductive rotation_reach (drvs : nat -> Driver) (randomUUID : nat -> string)
  : Heap Puppeteer.t -> Prop :=
| rotation_new (d : Data.screenshot) :
    rotation_reach drvs randomUUID {| this := Puppeteer.new; data := d |}
| rotation_step (h : Heap Puppeteer.t) (op : PuppeteerOp) :
    rotation_reach drvs randomUUID h ->
    rotation_reach drvs randomUUID (run_puppeteer drvs randomUUID op h)
| rotation_params (h : Heap Puppeteer.t) (d : Data.screenshot) :
    rotation_reach drvs randomUUID h ->
    rotation_reach drvs randomUUID {| this := this h; data := d |}.

(** [h] comes after [h0] in the life of a [Puppeteer]. *)
Inductive rotation_path (drvs : nat -> Driver) (randomUUID : nat -> string)
  : Heap Puppeteer.t -> Heap Puppeteer.t -> Prop :=
| path_here (h : Heap Puppeteer.t) : rotation_path drvs randomUUID h h
| path_step (h0 h : Heap Puppeteer.t) (op : PuppeteerOp) :
    rotation_path drvs randomUUID h0 h ->
    rotation_path drvs randomUUID h0 (run_puppeteer drvs randomUUID op h)
| path_params (h0 h : Heap Puppeteer.t) (d : Data.screenshot) :
    rotation_path drvs randomUUID h0 h ->
    rotation_path drvs randomUUID h0 {| this := this h; data := d |}.

(** As [steady], but captures come back as base64 text. *)
Definition textual : Driver :=
  {| settles := fun _ _ => None;
     finds := fun _ _ _ => inr (Some 0);
     measures := fun _ _ => inr (Some {| box_width := 800%Q; box_height := 4500%Q |});
     captures := fun _ _ => inr (Base64 "iVBORw0KGgo=");
     random := fun tr _ => String (ascii_of_nat (65 + List.length tr)) "";
     clock := fun tr => List.length tr |}.

(** *** Sample environments and parameter objects *)

Definition fresh_id (tr : list Drv.Call) : string :=
  String (ascii_of_nat (65 + List.length tr)) "".

(** A page of 800 x 4500 pixels on which every call succeeds. *)
Definition steady : Driver :=
  {| settles := fun _ _ => None;
     finds := fun _ _ _ => inr (Some 0);
     measures := fun _ _ => inr (Some {| box_width := 800%Q; box_height := 4500%Q |});
     captures := fun _ _ => inr (Buffer [137; 80; 78; 71]);
     random := fun tr _ => fresh_id tr;
     clock := fun tr => List.length tr |}.

Definition has_goto (tr : list Drv.Call) : bool :=
  existsb (fun c => match c with Drv.goto _ _ _ => true | _ => false end) tr.

(** As [steady], but the first navigation of the browser is rejected. *)
Definition flaky : Driver :=
  {| settles := fun tr c =>
       match c with
       | Drv.goto _ _ _ => if has_goto tr then None else Some (DriverError 1)
       | _ => None
       end;
     finds := finds steady;
     measures := measures steady;
     captures := captures steady;
     random := random steady;
     clock := clock steady |}.

(** As [steady], but the page has no element for the caller's selector
    and the lookup of [#container] raises. *)
Definition detached_container : Driver :=
  {| settles := settles steady;
     finds := fun _ _ sel =>
       if String.eqb sel "#container" then inl (DriverError 2)
       else if String.eqb sel "body" then inr (Some 1)
       else inr None;
     measures := measures steady;
     captures := captures steady;
     random := random steady;
     clock := clock steady |}.

(** As [steady], but looking up [.card] raises (its frame is gone), the
    page has no [#container] and no [.menu], and [body] exists. *)
Definition stale_card : Driver :=
  {| settles := settles steady;
     finds := fun _ _ sel =>
       if String.eqb sel ".card" then inl (DriverError 6)
       else if String.eqb sel "body" then inr (Some 1)
       else inr None;
     measures := measures steady;
     captures := captures steady;
     random := random steady;
     clock := clock steady |}.

(** As [steady], with keys that differ from one call of [Math.random]
    to the next whatever happens in between. *)
Definition lively : Driver :=
  {| settles := settles steady;
     finds := finds steady;
     measures := measures steady;
     captures := captures steady;
     random := fun _ n => String (ascii_of_nat (96 + n)) "";
     clock := clock steady |}.

(** As [steady], but every optional wait times out. *)
Definition never_ready : Driver :=
  {| settles := fun _ c =>
       match c with
       | Drv.waitForSelector _ sel => if String.eqb sel "body" then None else Some (DriverError 3)
       | Drv.waitForFunction _ _ | Drv.waitForRequest _ _ | Drv.waitForResponse _ _ =>
           Some (DriverError 3)
       | _ => None
       end;
     finds := finds steady;
     measures := measures steady;
     captures := captures steady;
     random := random steady;
     clock := clock steady |}.

Definition plain (f : string) : Data.screenshot :=
  {| Data.file := f; Data.selector := None; Data.type := None; Data.quality := None;
     Data.headers := None; Data.fullPage := None; Data.optimizeForSpeed := None;
     Data.encoding := None; Data.path := None; Data.omitBackground := None;
     Data.captureBeyondViewport := None; Data.setViewport := None; Data.multiPage := None;
     Data.pageGotoParams := None; Data.waitForSelector := None; Data.waitForFunction := None;
     Data.waitForRequest := None; Data.waitForResponse := None;
     Data.setRequestInterception := None; Data.clip := None |}.

(** [{ file, type: 'png', quality: 90, multiPage }] *)
Definition png90 (f : string) (m : option MultiPage) : Data.screenshot :=
  {| Data.file := f; Data.selector := None; Data.type := Some png; Data.quality := Some 90%Q;
     Data.headers := None; Data.fullPage := None; Data.optimizeForSpeed := None;
     Data.encoding := None; Data.path := None; Data.omitBackground := None;
     Data.captureBeyondViewport := None; Data.setViewport := None; Data.multiPage := m;
     Data.pageGotoParams := None; Data.waitForSelector := None; Data.waitForFunction := None;
     Data.waitForRequest := None; Data.waitForResponse := None;
     Data.setRequestInterception := None; Data.clip := None |}.

(** [{ file, multiPage }] *)
Definition paged (f : string) (m : option MultiPage) : Data.screenshot :=
  {| Data.file := f; Data.selector := None; Data.type := None; Data.quality := None;
     Data.headers := None; Data.fullPage := None; Data.optimizeForSpeed := None;
     Data.encoding := None; Data.path := None; Data.omitBackground := None;
     Data.captureBeyondViewport := None; Data.setViewport := None; Data.multiPage := m;
     Data.pageGotoParams := None; Data.waitForSelector := None; Data.waitForFunction := None;
     Data.waitForRequest := None; Data.waitForResponse := None;
     Data.setRequestInterception := None; Data.clip := None |}.

(** [{ file, setRequestInterception }] *)
Definition intercepting (f : string) (callback : nat) : Data.screenshot :=
  {| Data.file := f; Data.selector := None; Data.type := None; Data.quality := None;
     Data.headers := None; Data.fullPage := None; Data.optimizeForSpeed := None;
     Data.encoding := None; Data.path := None; Data.omitBackground := None;
     Data.captureBeyondViewport := None; Data.setViewport := None; Data.multiPage := None;
     Data.pageGotoParams := None; Data.waitForSelector := None; Data.waitForFunction := None;
     Data.waitForRequest := None; Data.waitForResponse := None;
     Data.setRequestInterception := Some callback; Data.clip := None |}.

(** [{ file, waitForSelector: '#late', waitForFunction: [...], ... }] *)
Definition waiting (f : string) : Data.screenshot :=
  {| Data.file := f; Data.selector := None; Data.type := None; Data.quality := None;
     Data.headers := None; Data.fullPage := None; Data.optimizeForSpeed := None;
     Data.encoding := None; Data.path := None; Data.omitBackground := None;
     Data.captureBeyondViewport := None; Data.setViewport := None; Data.multiPage := None;
     Data.pageGotoParams := None;
     Data.waitForSelector := Some (One "#late");
     Data.waitForFunction := Some (Many ["window.ready"; "window.fonts"]);
     Data.waitForRequest := Some (One "https://cdn/app.js");
     Data.waitForResponse := Some (Many ["https://api/data"]);
     Data.setRequestInterception := None; Data.clip := None |}.

(** The browser [new Render(0, config)] after [init] on [drv]. *)
Definition started (drv : Driver) (d : Data.screenshot) : Heap RenderObj :=
  snd (Render.init drv {| this := Render.new 0; data := d |}).

(** [new Puppeteer()] after [init()] with one browser. *)
Definition ready (drv : Driver) (d : Data.screenshot) : Heap Puppeteer.t :=
  snd (Puppeteer.init (fun _ => drv) None {| this := Puppeteer.new; data := d |}).

Definition uuid (n : nat) : string := String (ascii_of_nat (97 + n)) "".

(** The clip rectangles of the element captures in a trace. *)
Fixpoint clip_calls (tr : list Drv.Call) : list (option Clip) :=
  match tr with
  | [] => []
  | Drv.element_screenshot _ d :: tr' => Data.clip d :: clip_calls tr'
  | _ :: tr' => clip_calls tr'
  end.

(** The first page of a new browser arrives and a task takes it; ten
    more tasks call [acquirePage] before any of their pages has
    arrived; the ten pages arrive and the ten calls return. *)
Definition stampede : list Overlap.Event :=
  [Overlap.goes_on 0; Overlap.acquirePage_called]
  ++ repeat Overlap.acquirePage_called 10
  ++ repeat (Overlap.goes_on 0) 20.


(** Ten ordinary tasks hold the ten slots of a pool; a task with request
    interception then gets an eleventh. *)
Definition crowded : Heap RenderObj :=
  run_op steady createPage
    (Nat.iter 10 (run_op steady acquirePage) (started steady (plain "http://a"))).

(** A page is taken and given back: its slot is idle with a pending
    timeout. *)
Definition rested : Heap RenderObj :=
  run_op steady (releasePage 0) (run_op steady acquirePage (started steady (plain "http://a"))).

(** A relation between the heap before and the heap after that a method
    maintains whatever its outcome. *)
Definition respects {T} (R : Heap T -> Heap T -> Prop) {A} (m : Async T A) : Prop :=
  forall h, R h (snd (m h)).

(** What no method changes: the identity of the browser and the fields
    of the parameter object that select the capture mode. *)
Definition same_task (h h' : Heap RenderObj) : Prop :=
  id (this h') = id (this h)
  /\ Data.multiPage (data h') = Data.multiPage (data h)
  /\ Data.fullPage (data h') = Data.fullPage (data h)
  /\ Data.setRequestInterception (data h') = Data.setRequestInterception (data h).

(** What the steps that only talk to the browser leave alone. *)
Definition same_pool (h h' : Heap RenderObj) : Prop :=
  pool (this h') = pool (this h)
  /\ timers (this h') = timers (this h)
  /\ nextTimer (this h') = nextTimer (this h)
  /\ nextPage (this h') = nextPage (this h).

(** A browser on which every capture, measurement and viewport change
    succeeds and every lookup finds an element. *)
Definition cooperative (drv : Driver) : Prop :=
  (forall tr c, settles drv tr c = None)
  /\ (forall tr p sel, exists e, finds drv tr p sel = inr (Some e))
  /\ (forall tr e, exists b, measures drv tr e = inr b)
  /\ (forall tr c, exists img, captures drv tr c = inr img).

(** The calls an optional wait block makes for one field. *)
Definition wanted (w : option OneOrMany) : list string :=
  if truthy_wait w then Render.entries w else [].

(** *** Page handles of a pool *)

(** The handles the slots hold, in the order of the map. *)
Definition pages (slots : list (string * PageInfo)) : list Page :=
  map (fun e => page (snd e)) slots.

(** Some slot holds page [p]. *)
Definition holds (p : Page) (slots : list (string * PageInfo)) : Prop :=
  exists k v, In (k, v) slots /\ page v = p.

(** No handle is in two slots, and every handle a slot holds is one the
    browser handed out: [browser.newPage()] has resolved with it. *)
Definition pages_ok (r : RenderObj) : Prop :=
  NoDup (pages (pool r)) /\ Forall (fun p => p < nextPage r) (pages (pool r)).

(** The calls a method added to the trace. *)
Definition calls_since (h h' : Heap RenderObj) : list Drv.Call :=
  skipn (List.length (trace (this h))) (trace (this h')).

(** The calls that take a picture. *)
Definition is_capture (c : Drv.Call) : bool :=
  match c with
  | Drv.page_screenshot _ _ | Drv.element_screenshot _ _ => true
  | _ => false
  end.

(** The options of the one [page.screenshot] call of the branches that
    return one image. *)
Definition single_options (d : Data.screenshot) : Options.t :=
  if truthy_bool (Data.fullPage d)
  then Render.set_captureBeyondViewport true (Render.makeOptions d)
  else Render.makeOptions d.

(** What the steps around a capture do: they take no picture, and they
    leave alone the fields the [options] literal reads. *)
Definition quiet (h h' : Heap RenderObj) : Prop :=
  Render.makeOptions (data h') = Render.makeOptions (data h)
  /\ exists l, trace (this h') = trace (this h) ++ l /\ filter is_capture l = [].

(** What the pool and the capture protocol leave alone: the echoes in
    flight. *)
Definition same_list (h h' : Heap RenderObj) : Prop :=
  list_ (this h') = list_ (this h).

(** Ten ordinary tasks hold the ten slots of a pool. *)
Definition full : Heap RenderObj :=
  Nat.iter 10 (run_op steady acquirePage) (started steady (plain "http://a")).

(** What every method but [browser.newPage()] leaves alone: the next
    handle the browser will hand out. *)
Definition same_next (h h' : Heap RenderObj) : Prop :=
  nextPage (this h') = nextPage (this h).

(** One task holds page 0 of a new browser. *)
Definition taken : Heap RenderObj :=
  run_op steady acquirePage (started steady (plain "http://a")).

(** The method of the pool [newPage] takes its page from. *)
Definition page_source (drv : Driver) (d : Data.screenshot) : M Page :=
  match Data.setRequestInterception d with
  | Some _ => PagePool.createPage drv
  | None => PagePool.acquirePage drv
  end.

(** As [steady], but the browser refuses every capture. *)
Definition blind : Driver :=
  {| settles := settles steady;
     finds := finds steady;
     measures := measures steady;
     captures := fun _ _ => inl (DriverError 4);
     random := random steady;
     clock := clock steady |}.

(** The two invariants of a pool a task relies on. *)
Definition pool_wf (r : RenderObj) : Prop := pool_inv r /\ pages_ok r.

(** [{ file, selector: '#card', fullPage: true, multiPage: true }] *)
Definition whole (f : string) : Data.screenshot :=
  {| Data.file := f; Data.selector := Some "#card"; Data.type := None; Data.quality := None;
     Data.headers := None; Data.fullPage := Some true; Data.optimizeForSpeed := None;
     Data.encoding := None; Data.path := None; Data.omitBackground := None;
     Data.captureBeyondViewport := None; Data.setViewport := None;
     Data.multiPage := Some (MPBool true);
     Data.pageGotoParams := None; Data.waitForSelector := None; Data.waitForFunction := None;
     Data.waitForRequest := None; Data.waitForResponse := None;
     Data.setRequestInterception := None; Data.clip := None |}.

(** A browser that does not start. *)
Definition dead : Driver :=
  {| settles := fun _ c => match c with Drv.launch => Some (DriverError 5) | _ => None end;
     finds := finds steady;
     measures := measures steady;
     captures := captures steady;
     random := random steady;
     clock := clock steady |}.

(** The first launch succeeds, every later one fails. *)
Definition one_shot (i : nat) : Driver :=
  match i with 0 => steady | _ => dead end.

(** ** [Render.simulateWaitUntil]: the requests in flight

    The record [list] of the method (here [counts]) and the four
    listeners it puts on the page.  Keys are the URLs of requests; a listener runs to its end
    before the next event is delivered. *)

Module WaitUntil.

(** [Record<string, number>] *)
Definition Counts := list (string * Z).

Fixpoint get (url : string) (counts : Counts) : option Z :=
  match counts with
  | [] => None
  | (k, n) :: counts' => if String.eqb k url then Some n else get url counts'
  end.

Fixpoint set (url : string) (n : Z) (counts : Counts) : Counts :=
  match counts with
  | [] => [(url, n)]
  | (k, x) :: counts' => if String.eqb k url then (k, n) :: counts' else (k, x) :: set url n counts'
  end.

Fixpoint delete (url : string) (counts : Counts) : Counts :=
  match counts with
  | [] => []
  | (k, x) :: counts' => if String.eqb k url then counts' else (k, x) :: delete url counts'
  end.

(** What a listener does besides updating [list]. *)
Inductive Signal :=
| continue_ (url : string)     (* req.continue() *)
| end_ (done : bool).          (* common.emit('end', done) *)

(** [page.on('request', ...)] *)
Definition onRequest (url : string) (counts : Counts) : Counts * list Signal :=
  match get url counts with
  | None => (set url 0%Z counts, [])
  | Some n => (set url (n + 1)%Z counts, [continue_ url])
  end.

Definition delCount (url : string) (counts : Counts) : Counts * list Signal :=
  let counts1 := match get url counts with
               | Some n => if Z.eqb n 0 then counts else set url (n - 1)%Z counts
               | None => counts
               end in
  let counts2 := match get url counts1 with
               | Some n => if Z.leb n 0 then delete url counts1 else counts1
               | None => counts1
               end in
  (counts2, if Nat.leb (List.length counts2) 0 then [end_ true] else []).

Inductive Event :=
| request (url : string)
| response (url : string)
| requestfailed (url : string)
| requestfinished (url : string).

Definition url_of (ev : Event) : string :=
  match ev with
  | request u | response u | requestfailed u | requestfinished u => u
  end.

Definition is_request (ev : Event) : bool :=
  match ev with request _ => true | _ => false end.

Definition handle (ev : Event) (counts : Counts) : Counts * list Signal :=
  match ev with
  | request u => onRequest u counts
  | response u | requestfailed u | requestfinished u => delCount u counts
  end.

(** The events of a page load, delivered in order. *)
Fixpoint deliver (evs : list Event) (counts : Counts) : Counts * list Signal :=
  match evs with
  | [] => (counts, [])
  | ev :: evs' =>
      let (counts1, s1) := handle ev counts in
      let (counts2, s2) := deliver evs' counts1 in
      (counts2, s1 ++ s2)
  end.

(** The URLs in the record, and a record of requests none of which
    was repeated. *)
Definition keys (m : Counts) : list string := map fst m.
Definition zeros (m : Counts) : Prop := Forall (fun e => snd e = 0%Z) m.

(** *** The requests in flight, as a list of URLs

    What the listeners are there to keep track of, stated without the
    record: a request puts its URL in flight, each of the three other
    events takes the URL of its request out (and does nothing when it
    is out already, as for the second of the two events, [response] and
    [requestfinished], of a load that succeeds), and ['end'] is
    signalled by each of those events after which nothing is in
    flight. *)
Fixpoint drop (url : string) (out : list string) : list string :=
  match out with
  | [] => []
  | k :: out' => if String.eqb k url then out' else k :: drop url out'
  end.

Fixpoint in_flight (evs : list Event) (out : list string) : list string * list Signal :=
  match evs with
  | [] => (out, [])
  | request u :: evs' => in_flight evs' (out ++ [u])
  | ev :: evs' =>
      let out1 := drop (url_of ev) out in
      let (out2, s2) := in_flight evs' out1 in
      (out2, (match out1 with [] => [end_ true] | _ :: _ => [] end) ++ s2)
  end.

(** No URL is requested while a request for it is in flight. *)
Fixpoint apart (evs : list Event) (out : list string) : Prop :=
  match evs with
  | [] => True
  | request u :: evs' => ~ In u out /\ apart evs' (out ++ [u])
  | ev :: evs' => apart evs' (drop (url_of ev) out)
  end.

(** The record that holds the URLs [out], none of them repeated. *)
Definition blank (out : list string) : Counts := map (fun u => (u, 0%Z)) out.

End WaitUntil.

(** ** class InitChrome (init.ts) with [Common.Platform]

    The machine the class runs on answers each call as a function of
    the calls made so far, as the browser does for [Render]. *)

Module InitChrome.

(** [process.platform], [os.platform()] *)
Inductive OS := linux | darwin | win32 | other (name : string).

Inductive Call :=
| existsSync (path : string)        (* common.exists(path) *)
| unlinkSync (path : string)        (* fs.unlinkSync(path) *)
| download (url file : string)      (* common.download(url, file) *)
| unzip (file output : string)      (* common.unzip(file, output) *)
| install.                          (* this.install() *)

Inductive Failure :=
| unsupported_system                (* thrown by Common.Platform *)
| download_failed                   (* '[chrome][init] 下载失败' *)
| unzip_failed                      (* '[chrome][init] 解压失败' *)
| raised (c : Call).                (* the call threw, or its promise was rejected *)

(** [common.download] resolves to [true] or [false] or rejects. *)
Inductive Download := resolved (ok : bool) | rejected.

Record Host := {
  platform : OS;
  arch : string;                                          (* os.arch() *)
  common_dir : string;                                    (* common.dir *)
  present : list Call -> string -> bool;                  (* fs.existsSync *)
  removed : list Call -> string -> bool;                  (* [false]: unlinkSync throws *)
  fetched : list Call -> string -> string -> Download;
  unpacked : list Call -> string -> string -> bool;       (* common.unzip catches its errors *)
  installed : list Call -> bool                           (* [false]: install rejects *)
}.

Record Info := { dir : string; zip : string; chromeDir : string; chrome : string }.

(** The object: [version], [platform], [info]. *)
Record t := { version : string; platform_id : string; info : Info }.

Definition Cnpm : string := "https://cdn.npmmirror.com/binaries/chrome-for-testing".

(** [Common.Platform] *)
Definition Platform (host : Host) : Failure + string :=
  match platform host with
  | linux => inr "linux64"
  | darwin => inr (if String.eqb (arch host) "arm64" then "mac-arm64" else "mac-x64")
  | win32 => inr (if String.eqb (arch host) "x64" then "win64" else "win32")
  | other _ => inl unsupported_system
  end.

Definition GetInfo (host : Host) (platform_id : string) : Info :=
  let version := ("chrome-headless-shell-" ++ platform_id)%string in
  let dir := (common_dir host ++ "/data/chromium")%string in
  let zip := (dir ++ "/" ++ version ++ ".zip")%string in
  let chromeDir := (dir ++ "/" ++ version)%string in
  let chrome := (chromeDir ++ "/chrome-headless-shell"
                 ++ (if String.eqb platform_id "win64" then ".exe" else ""))%string in
  {| dir := dir; zip := zip; chromeDir := chromeDir; chrome := chrome |}.

(** [new InitChrome(version)] *)
Definition new (host : Host) (version : string) : Failure + t :=
  match Platform host with
  | inl f => inl f
  | inr p => inr {| version := version; platform_id := p; info := GetInfo host p |}
  end.

(** [GetDownloadUrl()] with its default host; nothing in its [try]
    block throws. *)
Definition GetDownloadUrl (self : t) : string :=
  (Cnpm ++ "/" ++ version self ++ "/" ++ platform_id self
   ++ "/chrome-headless-shell-" ++ platform_id self ++ ".zip")%string.

(** Methods as functions of the calls made so far. *)
Definition Run (A : Type) := list Call -> (Failure + A) * list Call.

Definition pure {A} (a : A) : Run A := fun tr => (inr a, tr).
Definition fail {A} (f : Failure) : Run A := fun tr => (inl f, tr).
Definition andThen {A B} (m : Run A) (k : A -> Run B) : Run B :=
  fun tr => match m tr with
            | (inr a, tr') => k a tr'
            | (inl f, tr') => (inl f, tr')
            end.

Section Methods.
Context (host : Host).

Definition exists_ (path : string) : Run bool :=
  fun tr => (inr (present host tr path), tr ++ [existsSync path]).

Definition unlink (path : string) : Run unit :=
  fun tr => (if removed host tr path then inr tt else inl (raised (unlinkSync path)),
             tr ++ [unlinkSync path]).

Definition fetch (url file : string) : Run bool :=
  fun tr => (match fetched host tr url file with
             | resolved ok => inr ok
             | rejected => inl (raised (download url file))
             end, tr ++ [download url file]).

Definition unpack (file output : string) : Run bool :=
  fun tr => (inr (unpacked host tr file output), tr ++ [unzip file output]).

Definition run_install : Run unit :=
  fun tr => (if installed host tr then inr tt else inl (raised install), tr ++ [install]).

Definition is_linux : bool :=
  match platform host with linux => true | _ => false end.

Definition init (self : t) : Run string :=
  andThen (exists_ (chrome (info self))) (fun found =>
  if found then pure (chrome (info self)) else
  let url := GetDownloadUrl self in
  andThen (exists_ (zip (info self))) (fun stale =>
  andThen (if stale then unlink (zip (info self)) else pure tt) (fun _ =>
  andThen (fetch url (zip (info self))) (fun downloadRes =>
  if negb downloadRes then fail download_failed else
  andThen (unpack (zip (info self)) (dir (info self))) (fun unzipRes =>
  if negb unzipRes then fail unzip_failed else
  andThen (unlink (zip (info self))) (fun _ =>
  andThen (if is_linux then run_install else pure tt) (fun _ =>
  pure (chrome (info self))))))))).

End Methods.

(** A Linux machine with nothing on disk on which every step succeeds. *)
Definition bare : Host :=
  {| platform := linux; arch := "x64"; common_dir := "/opt/karin";
     present := fun _ _ => false; removed := fun _ _ => true;
     fetched := fun _ _ _ => resolved true; unpacked := fun _ _ _ => true;
     installed := fun _ => true |}.

(** The same machine without network. *)
Definition offline : Host :=
  {| platform := linux; arch := "x64"; common_dir := "/opt/karin";
     present := fun _ _ => false; removed := fun _ _ => true;
     fetched := fun _ _ _ => resolved false; unpacked := fun _ _ _ => true;
     installed := fun _ => true |}.

Definition linux_chrome : t :=
  {| version := "125.0.6422.78"; platform_id := "linux64";
     info := GetInfo bare "linux64" |}.

End InitChrome.


(** * Paginated capture *)

Section Slicing.
Local Open Scope Q_scope.

(** Rounding does not tell two fractions of the same value apart. *)
Lemma binary64_comp (p q : Q) : p == q -> binary64 p = binary64 q.
Proof. intros E. unfold binary64. now rewrite (Qred_complete p q E). Qed.

Lemma binary64_one (q : Q) : q == 1 -> binary64 q = 1.
Proof. intros E. rewrite (binary64_comp q 1 E). reflexivity. Qed.

(** The slice count is the ceiling of the quotient as the program has
    it. *)
Lemma sliceCount_rounded (boxHeight height : Q) :
  inject_Z (Render.sliceCount boxHeight height - 1) < binary64 (boxHeight / height)
  /\ binary64 (boxHeight / height) <= inject_Z (Render.sliceCount boxHeight height).
Proof.
  unfold Render.sliceCount, Math_ceil. split; [apply Qceiling_lt | apply Qle_ceiling].
Qed.

Lemma sliceCount_exact (boxHeight height : Q) :
  representable (boxHeight / height) ->
  Render.sliceCount boxHeight height = Qceiling (boxHeight / height).
Proof. unfold representable, Render.sliceCount, Math_ceil. intros E. now rewrite E. Qed.

Lemma sliceCount_kept (boxHeight height : Q) :
  0 < height -> Render.sliceCount boxHeight height = Qceiling (boxHeight / height) ->
  inject_Z (Render.sliceCount boxHeight height - 1) * height < boxHeight /\
  boxHeight <= inject_Z (Render.sliceCount boxHeight height) * height.
Proof.
  intros Hpos Hexact. rewrite Hexact.
  assert (Hne : ~ height == 0) by (intro E; rewrite E in Hpos; discriminate).
  assert (Hq : boxHeight / height * height == boxHeight) by (field; exact Hne).
  split.
  - rewrite <- Hq at 2. apply Qmult_lt_compat_r; [exact Hpos | apply Qceiling_lt].
  - rewrite <- Hq at 1. apply Qmult_le_compat_r; [apply Qle_ceiling | apply Qlt_le_weak; exact Hpos].
Qed.

Lemma sliceCount_ceiling (boxHeight height : Q) :
  0 < height -> representable (boxHeight / height) ->
  inject_Z (Render.sliceCount boxHeight height - 1) * height < boxHeight /\
  boxHeight <= inject_Z (Render.sliceCount boxHeight height) * height.
Proof.
  intros Hpos Hexact. apply sliceCount_kept; [exact Hpos | now apply sliceCount_exact].
Qed.

Lemma clips_length (boxWidth boxHeight height : Q) :
  List.length (Render.clips boxWidth boxHeight height)
  = Z.to_nat (Render.sliceCount boxHeight height).
Proof. unfold Render.clips, Render.indices. now rewrite length_map, length_seq. Qed.

Lemma clips_nth (boxWidth boxHeight height : Q) (i : nat) (c : Clip) :
  nth_error (Render.clips boxWidth boxHeight height) i = Some c ->
  c = Render.clipAt i boxWidth boxHeight height.
Proof.
  unfold Render.clips, Render.indices. intros H.
  rewrite nth_error_map in H.
  destruct (nth_error (seq 0 (Z.to_nat (Render.sliceCount boxHeight height))) i) as [j|] eqn:E;
    [|discriminate].
  assert (Hlt : (i < List.length (seq 0 (Z.to_nat (Render.sliceCount boxHeight height))))%nat)
    by (apply nth_error_Some; congruence).
  rewrite nth_error_nth' with (d := 0%nat) in E by exact Hlt.
  rewrite length_seq in Hlt.
  rewrite seq_nth in E by exact Hlt. simpl in E, H. congruence.
Qed.

End Slicing.

(** * Reasoning about asynchronous methods *)

Lemma bind_Ok {T A B} (m : Async T A) (k : A -> Async T B) h a h' :
  m h = (Ok a, h') -> bind m k h = k a h'.
Proof. unfold bind. now intros ->. Qed.

Lemma detached_Ok {T A} (rec : Err -> T -> T) (m : Async T A) h :
  fst (detached rec m h) = Ok tt.
Proof. unfold detached. now destruct (m h) as [[a|e|] h1]. Qed.

Lemma detached_same {A} (m : M A) (h : Heap RenderObj) :
  exists f, snd (detached (fun e => with_unhandled (fun l => l ++ [e])) m h)
            = on_this (with_unhandled f) (snd (m h)).
Proof.
  unfold detached. destruct (m h) as [[a|e|] [[i p t nt np l tr u] d]].
  - now exists (fun l => l).
  - now exists (fun l => l ++ [e]).
  - now exists (fun l => l).
Qed.

Ltac undetach :=
  match goal with
  | |- context [detached _ ?m ?h] =>
      let f := fresh "f" in destruct (detached_same m h) as [f ->]
  end.

Lemma bind_Throw {T A B} (m : Async T A) (k : A -> Async T B) h e h' :
  m h = (Throw e, h') -> bind m k h = (Throw e, h').
Proof. unfold bind. now intros ->. Qed.

Lemma bind_Pending {T A B} (m : Async T A) (k : A -> Async T B) h h' :
  m h = (Pending, h') -> bind m k h = (Pending, h').
Proof. unfold bind. now intros ->. Qed.

(** If a sequence resolves, so did its first part. *)
Lemma bind_inv_Ok {T A B} (m : Async T A) (k : A -> Async T B) h b h2 :
  bind m k h = (Ok b, h2) -> exists a h1, m h = (Ok a, h1) /\ k a h1 = (Ok b, h2).
Proof.
  unfold bind. destruct (m h) as [[a|e|] h1]; intros H; try discriminate.
  now exists a, h1.
Qed.

(** ** Methods with nothing in between their parts

    A method that is not overlapped reads as its source does: the call
    is awaited where it is made. *)

Section Whole.
Context (drv : Driver).

Lemma call_parts (c : Drv.Call) (h : Heap RenderObj) :
  call drv c h = (o <- send drv c ;; answered o) h.
Proof. reflexivity. Qed.

Lemma close_parts (p : Page) (k : unit -> M unit) (h : Heap RenderObj) :
  (o <- send drv (Drv.close p) ;; catch_noop (answered o) ;; k tt) h
  = (catch_noop (call drv (Drv.close p)) ;; k tt) h.
Proof.
  unfold bind, send, catch_noop, answered, call.
  destruct (settles drv (trace (this h)) (Drv.close p)); reflexivity.
Qed.

Lemma createNewPage_whole (h : Heap RenderObj) :
  PagePool.createNewPage drv h
  = (page <- browser_newPage drv ;;
     id <- PagePool.generateId drv ;;
     now <- Date_now drv ;;
     modify_this (with_pool (Map_set id
       {| page := page; status := idle; lastUsed := now; timer := None |})) ;;
     ret id) h.
Proof. reflexivity. Qed.

Lemma idleTimerCallback_whole (id : string) (h : Heap RenderObj) :
  PagePool.idleTimerCallback drv id h
  = (r <- get_this ;;
     match Map_get id (pool r) with
     | Some info =>
         if is_idle info then
           catch_noop (call drv (Drv.close (page info))) ;;
           modify_this (with_pool (Map_delete id))
         else ret tt
     | None => ret tt
     end) h.
Proof.
  unfold PagePool.idleTimerCallback, PagePool.idleTimerCallback_begin,
    PagePool.idleTimerCallback_end, bind, get_this.
  destruct (Map_get id (pool (this h))) as [info|]; [|reflexivity].
  destruct (is_idle info); [|reflexivity].
  unfold send, catch_noop, answered, call, ret, modify_this.
  destruct (settles drv (trace (this h)) (Drv.close (page info))); reflexivity.
Qed.

Lemma fire_whole (t : TimerId) (h : Heap RenderObj) :
  PagePool.fire drv t h
  = (r <- get_this ;;
     match find (fun e => Nat.eqb (fst e) t) (timers r) with
     | Some (_, id) => clearTimeout t ;; PagePool.idleTimerCallback drv id
     | None => ret tt
     end) h.
Proof.
  unfold PagePool.fire, PagePool.fire_begin, PagePool.idleTimerCallback, bind, get_this.
  destruct (find (fun e => Nat.eqb (fst e) t) (timers (this h))) as [[t' id]|]; [|reflexivity].
  unfold clearTimeout, modify_this.
  destruct (PagePool.idleTimerCallback_begin drv id _) as [[[o|]|e|] h1]; reflexivity.
Qed.

Lemma createPage_whole (h : Heap RenderObj) :
  PagePool.createPage drv h
  = (id <- PagePool.createNewPage drv ;;
     r <- get_this ;;
     match Map_get id (pool r) with
     | Some info =>
         modify_this (with_pool (Map_update id (set_status busy))) ;;
         ret (page info)
     | None => throw (TypeError "Cannot set properties of undefined (setting 'status')")
     end) h.
Proof. reflexivity. Qed.

Lemma acquirePage_whole (h : Heap RenderObj) :
  PagePool.acquirePage drv h
  = (found <- PagePool.takeIdle drv ;;
     match found with
     | Some page => ret page
     | None =>
         r <- get_this ;;
         if Nat.ltb (List.length (pool r)) PagePool.maxSize then
           id <- PagePool.createNewPage drv ;;
           r <- get_this ;;
           match Map_get id (pool r) with
           | Some info =>
               modify_this (with_pool (Map_update id (set_status busy))) ;;
               ret (page info)
           | None => throw (TypeError "Cannot set properties of undefined (setting 'status')")
           end
         else pending
     end) h.
Proof.
  unfold PagePool.acquirePage, PagePool.acquirePage_begin, bind.
  destruct (PagePool.takeIdle drv h) as [[[page|]|e|] h1]; try reflexivity.
  unfold get_this.
  destruct (Nat.ltb _ _); reflexivity.
Qed.

Lemma removePage_whole (p : Page) (h : Heap RenderObj) :
  PagePool.removePage drv p h
  = (r <- get_this ;;
     match first_entry (has_page p) (pool r) with
     | Some (id, info) =>
         match timer info with
         | Some t => clearTimeout t
         | None => ret tt
         end ;;
         note (Drv.removeAllListeners p) ;;
         catch_noop (call drv (Drv.close (page info))) ;;
         modify_this (with_pool (Map_delete id))
     | None => ret tt
     end) h.
Proof.
  unfold PagePool.removePage, PagePool.removePage_begin, PagePool.removePage_end, bind, get_this.
  destruct (first_entry (has_page p) (pool (this h))) as [[id info]|]; [|reflexivity].
  destruct (timer info);
    unfold clearTimeout, modify_this, note, send, catch_noop, answered, call, ret; cbn;
    match goal with
    | |- context [settles drv ?tr ?c] => destruct (settles drv tr c)
    end; reflexivity.
Qed.

End Whole.

(** ** Relations every step of a method maintains *)

Section Frames.
Context {T : Type} (R : Heap T -> Heap T -> Prop).
Hypothesis R_refl : forall h, R h h.
Hypothesis R_trans : forall a b c, R a b -> R b c -> R a c.

Lemma respects_ret {A} (a : A) : respects R (ret a).
Proof using R_refl R_trans. intros h. apply R_refl. Qed.

Lemma respects_throw {A} (e : Err) : respects R (@throw T A e).
Proof using R_refl R_trans. intros h. apply R_refl. Qed.

Lemma respects_pending {A} : respects R (@pending T A).
Proof using R_refl R_trans. intros h. apply R_refl. Qed.

Lemma respects_get_this : respects R (@get_this T).
Proof using R_refl R_trans. intros h. apply R_refl. Qed.

Lemma respects_get_data : respects R (@get_data T).
Proof using R_refl R_trans. intros h. apply R_refl. Qed.

Lemma respects_bind {A B} (m : Async T A) (k : A -> Async T B) :
  respects R m -> (forall a, respects R (k a)) -> respects R (bind m k).
Proof using R_refl R_trans.
  intros Hm Hk h. unfold bind. specialize (Hm h).
  destruct (m h) as [[a|e|] h1]; simpl in *; auto.
  eapply R_trans; [exact Hm | apply Hk].
Qed.

Lemma respects_catch_noop (m : Async T unit) : respects R m -> respects R (catch_noop m).
Proof using R_refl R_trans.
  intros Hm h. unfold catch_noop. specialize (Hm h).
  destruct (m h) as [[a|e|] h1]; simpl in *; auto.
Qed.

Lemma respects_try_catch {A} (m : Async T A) (handler : Err -> Async T A) :
  respects R m -> (forall e, respects R (handler e)) -> respects R (try_catch m handler).
Proof using R_refl R_trans.
  intros Hm Hk h. unfold try_catch. specialize (Hm h).
  destruct (m h) as [[a|e|] h1]; simpl in *; auto.
  eapply R_trans; [exact Hm | apply Hk].
Qed.

Lemma respects_settle {A} (m : Async T A) : respects R m -> respects R (settle m).
Proof using R_refl R_trans.
  intros Hm h. unfold settle. specialize (Hm h).
  destruct (m h) as [[a|e|] h1]; simpl in *; auto.
Qed.

Lemma respects_detached {A} (rec : Err -> T -> T) (m : Async T A) :
  (forall e h, R h (on_this (rec e) h)) -> respects R m -> respects R (detached rec m).
Proof using R_refl R_trans.
  intros Hrec Hm h. unfold detached. specialize (Hm h).
  destruct (m h) as [[a|e|] h1]; simpl in *; auto.
  eapply R_trans; [exact Hm | apply Hrec].
Qed.

Lemma respects_when (b : bool) (m : Async T unit) : respects R m -> respects R (when b m).
Proof using R_refl R_trans. destruct b; simpl; auto using respects_ret. Qed.

Lemma respects_for_of {A} (l : list A) (body : A -> Async T unit) :
  (forall x, respects R (body x)) -> respects R (for_of l body).
Proof using R_refl R_trans.
  intros Hb. induction l as [|x l IH]; simpl.
  - apply respects_ret.
  - apply respects_bind; auto.
Qed.

Lemma respects_modify_this (f : T -> T) :
  (forall h, R h (on_this f h)) -> respects R (modify_this f).
Proof using R_refl R_trans. intros H h. apply H. Qed.

Lemma respects_modify_data (f : Data.screenshot -> Data.screenshot) :
  (forall h, R h (on_data f h)) -> respects R (modify_data f).
Proof using R_refl R_trans. intros H h. apply H. Qed.

End Frames.

Lemma respects_run {T A} (R : Heap T -> Heap T -> Prop) (m : Async T A) h r h' :
  respects R m -> m h = (r, h') -> R h h'.
Proof. intros Hm E. specialize (Hm h). now rewrite E in Hm. Qed.

Lemma calls_since_app (h h' : Heap RenderObj) (l : list Drv.Call) :
  trace (this h') = trace (this h) ++ l -> calls_since h h' = l.
Proof.
  unfold calls_since. intros ->. rewrite skipn_app, skipn_all, Nat.sub_diag. reflexivity.
Qed.

(** Steps that only touch the trace: calls into the driver. *)
Section DriverFrames.
Context (R : Heap RenderObj -> Heap RenderObj -> Prop).
Hypothesis R_refl : forall h, R h h.
Hypothesis R_trace : forall f h, R h (on_this (with_trace f) h).
Context (drv : Driver).

Lemma respects_call c : respects R (call drv c).
Proof using R_refl R_trace. intros h. unfold call. destruct (settles drv _ c); apply R_trace. Qed.

Lemma respects_send c : respects R (send drv c).
Proof using R_refl R_trace. intros h. apply R_trace. Qed.

Lemma respects_answered o : respects R (answered o).
Proof using R_refl R_trace. intros h. unfold answered. destruct o; apply R_refl. Qed.

Lemma respects_note c : respects R (note c).
Proof using R_refl R_trace. intros h. apply R_trace. Qed.

Lemma respects_query p sel : respects R (query drv p sel).
Proof using R_refl R_trace. intros h. unfold query. destruct (finds drv _ p sel); apply R_trace. Qed.

Lemma respects_boundingBox body : respects R (boundingBox drv body).
Proof using R_refl R_trace.
  destruct body as [e|]; intros h; simpl; [|apply R_refl].
  destruct (measures drv _ e); apply R_trace.
Qed.

Lemma respects_take c : respects R (take drv c).
Proof using R_refl R_trace. intros h. unfold take. destruct (captures drv _ c); apply R_trace. Qed.

Lemma respects_Date_now : respects R (Date_now drv).
Proof using R_refl R_trace. intros h. apply R_refl. Qed.

End DriverFrames.

(** * Optional waits of [newPage] *)

Section OptionalWaits.
Context (drv : Driver).

(** A loop of waits whose rejections are dropped runs to its end and
    makes every call. *)
Lemma for_of_waits (mk : string -> Drv.Call) (l : list string) (h : Heap RenderObj) :
  exists h', for_of l (fun s => catch_noop (call drv (mk s))) h = (Ok tt, h')
             /\ trace (this h') = trace (this h) ++ map mk l.
Proof.
  revert h. induction l as [|s l IH]; intros h; simpl.
  - exists h. split; [reflexivity | now rewrite app_nil_r].
  - unfold bind, catch_noop, call.
    set (h1 := on_this (with_trace (fun t => t ++ [mk s])) h).
    destruct (IH h1) as (h' & Hrun & Htr).
    exists h'. split.
    + destruct (settles drv (trace (this h)) (mk s)); exact Hrun.
    + rewrite Htr. subst h1. simpl. now rewrite <- app_assoc.
Qed.

Lemma wait_block (mk : string -> Drv.Call) (w : option OneOrMany)
    (norm : Data.screenshot -> Data.screenshot) (h : Heap RenderObj) :
  exists h',
    when (truthy_wait w)
      (modify_data norm ;;
       for_of (Render.entries w) (fun s => catch_noop (call drv (mk s)))) h = (Ok tt, h')
    /\ trace (this h') = trace (this h) ++ map mk (wanted w).
Proof.
  unfold wanted. destruct (truthy_wait w); simpl.
  - unfold bind, modify_data.
    destruct (for_of_waits mk (Render.entries w) (on_data norm h)) as (h' & Hrun & Htr).
    exists h'. split; [exact Hrun | exact Htr].
  - exists h. split; [reflexivity | now rewrite app_nil_r].
Qed.

Lemma optionalWaits_runs (page : Page) (h : Heap RenderObj) :
  exists h',
    Render.optionalWaits drv page h = (Ok tt, h')
    /\ trace (this h') = trace (this h)
         ++ map (Drv.waitForSelector page) (wanted (Data.waitForSelector (data h)))
         ++ map (Drv.waitForFunction page) (wanted (Data.waitForFunction (data h)))
         ++ map (Drv.waitForRequest page) (wanted (Data.waitForRequest (data h)))
         ++ map (Drv.waitForResponse page) (wanted (Data.waitForResponse (data h))).
Proof.
  unfold Render.optionalWaits.
  rewrite (bind_Ok get_data _ h (data h) h) by reflexivity.
  set (d := data h).
  destruct (wait_block (Drv.waitForSelector page) (Data.waitForSelector d)
              (Data.with_waitForSelector (Some (Many (Render.entries (Data.waitForSelector d)))))
              h) as (h1 & R1 & T1).
  rewrite (bind_Ok _ _ _ _ _ R1).
  destruct (wait_block (Drv.waitForFunction page) (Data.waitForFunction d)
              (Data.with_waitForFunction (Some (Many (Render.entries (Data.waitForFunction d)))))
              h1) as (h2 & R2 & T2).
  rewrite (bind_Ok _ _ _ _ _ R2).
  destruct (wait_block (Drv.waitForRequest page) (Data.waitForRequest d)
              (Data.with_waitForRequest (Some (Many (Render.entries (Data.waitForRequest d)))))
              h2) as (h3 & R3 & T3).
  rewrite (bind_Ok _ _ _ _ _ R3).
  destruct (wait_block (Drv.waitForResponse page) (Data.waitForResponse d)
              (Data.with_waitForResponse (Some (Many (Render.entries (Data.waitForResponse d)))))
              h3) as (h4 & R4 & T4).
  exists h4. split; [exact R4|].
  rewrite T4, T3, T2, T1. now rewrite <- !app_assoc.
Qed.

(** C7. Whatever the outcome of each optional wait (waitForSelector,
    waitForFunction, waitForRequest, waitForResponse; one value or a
    list), the wait blocks of [newPage] complete normally after making
    every wait call in order, and [newPage] hands back the page as soon
    as the steps before the optional waits have succeeded: a rejected or
    timed-out optional wait never reaches the caller. *)
Theorem C7_optional_waits_are_swallowed (page : Page) (h : Heap RenderObj) :
  (exists h',
     Render.optionalWaits drv page h = (Ok tt, h')
     /\ trace (this h') = trace (this h)
          ++ map (Drv.waitForSelector page) (wanted (Data.waitForSelector (data h)))
          ++ map (Drv.waitForFunction page) (wanted (Data.waitForFunction (data h)))
          ++ map (Drv.waitForRequest page) (wanted (Data.waitForRequest (data h)))
          ++ map (Drv.waitForResponse page) (wanted (Data.waitForResponse (data h))))
  /\ (forall h1, Render.openPage drv h = (Ok page, h1) ->
        exists h2, Render.newPage drv h = (Ok page, h2)).
Proof.
  split; [apply optionalWaits_runs|].
  intros h1 Hopen. unfold Render.newPage.
  rewrite (bind_Ok _ _ _ _ _ Hopen).
  destruct (optionalWaits_runs page h1) as (h2 & Hrun & _).
  rewrite (bind_Ok _ _ _ _ _ Hrun). now exists h2.
Qed.

End OptionalWaits.

(** On a page where every optional wait times out, [newPage] still hands
    the page back. *)
Lemma C7_witness :
  (exists h1, Render.openPage never_ready (started never_ready (waiting "http://a")) = (Ok 0, h1))
  /\ (exists h2, Render.newPage never_ready (started never_ready (waiting "http://a")) = (Ok 0, h2)).
Proof.
  assert (Hopen : exists h1,
    Render.openPage never_ready (started never_ready (waiting "http://a")) = (Ok 0, h1))
    by (eexists; vm_compute; reflexivity).
  split; [exact Hopen|].
  destruct Hopen as (h1 & Hopen).
  exact (proj2 (C7_optional_waits_are_swallowed never_ready 0
                  (started never_ready (waiting "http://a"))) h1 Hopen).
Defined.

(** * Element resolution *)

Section ElementHandle.
Context (drv : Driver).

Lemma lookup_when_no_throw (page : Page) (sel : string) (h : Heap RenderObj) :
  (forall tr, exists r, finds drv tr page sel = inr r) ->
  lookup drv page sel h = query drv page sel h.
Proof.
  intros Hsafe. unfold lookup, try_catch, query.
  destruct (Hsafe (trace (this h))) as (r & ->). reflexivity.
Qed.

Lemma first_found_cons (page : Page) (sel : string) (rest : list string) (h : Heap RenderObj) :
  first_found drv page (sel :: rest) h
  = match lookup drv page sel h with
    | (Ok (Some e), h') => (Ok (Some e), h')
    | (Ok None, h') => first_found drv page rest h'
    | (Throw e, h') => (Throw e, h')
    | (Pending, h') => (Pending, h')
    end.
Proof.
  simpl. unfold bind. destruct (lookup drv page sel h) as [[[e|]|e|] h']; reflexivity.
Qed.

(** The two fixed candidates, when their lookups do not raise. *)
Lemma fallback_chain (page : Page) (h : Heap RenderObj) :
  (forall tr, exists r, finds drv tr page "#container" = inr r) ->
  (forall tr, exists r, finds drv tr page "body" = inr r) ->
  Render.or_else (query drv page "#container") (query drv page "body") h
  = first_found drv page ["#container"; "body"] h.
Proof.
  intros Hc Hb. simpl. unfold Render.or_else, bind.
  rewrite (lookup_when_no_throw page "#container" h Hc).
  destruct (query drv page "#container" h) as [[[e|]|err|] h1] eqn:Eq; try reflexivity.
  rewrite (lookup_when_no_throw page "body" h1 Hb).
  destruct (query drv page "body" h1) as [[[e|]|err|] h2]; reflexivity.
Qed.

Lemma fallback_chain_no_throw (page : Page) (h : Heap RenderObj) :
  (forall tr, exists r, finds drv tr page "#container" = inr r) ->
  (forall tr, exists r, finds drv tr page "body" = inr r) ->
  forall e h', Render.or_else (query drv page "#container") (query drv page "body") h
               <> (Throw e, h').
Proof.
  intros Hc Hb e h'. unfold Render.or_else, bind, query.
  destruct (Hc (trace (this h))) as ([c|] & ->); [discriminate|].
  match goal with |- context [finds drv ?tr page "body"] => destruct (Hb tr) as ([b|] & ->) end;
    discriminate.
Qed.

(** C8 (amended). The element is resolved by trying the caller's
    selector first (when one is given), then [#container], then [body],
    in that order, stopping at the first one found; if the lookup of the
    caller's selector throws, it is treated as "not found" and the chain
    goes on with [#container] and [body].  This is stated for pages on
    which the lookups of [#container] and [body] themselves do not
    throw. *)
Theorem C8_elementHandle_chain (page : Page) (name : option string) (h : Heap RenderObj) :
  (forall tr, exists r, finds drv tr page "#container" = inr r) ->
  (forall tr, exists r, finds drv tr page "body" = inr r) ->
  Render.elementHandle drv page name h = resolve_spec drv page name h.
Proof.
  intros Hc Hb. unfold Render.elementHandle, resolve_spec, candidates, truthy_name.
  pose proof (fallback_chain page) as Hfall.
  pose proof (fallback_chain_no_throw page) as Hsafe.
  destruct name as [n|].
  2:{ simpl app. unfold try_catch.
      destruct (Render.or_else _ _ h) as [[r|e|] h1] eqn:E;
        rewrite <- (Hfall h Hc Hb), E; try reflexivity.
      exfalso. exact (Hsafe h Hc Hb e h1 E). }
  destruct (truthy_string n).
  2:{ simpl app. unfold try_catch.
      destruct (Render.or_else _ _ h) as [[r|e|] h1] eqn:E;
        rewrite <- (Hfall h Hc Hb), E; try reflexivity.
      exfalso. exact (Hsafe h Hc Hb e h1 E). }
  simpl app. rewrite first_found_cons.
  unfold lookup, try_catch, Render.or_else at 1, bind.
  destruct (query drv page n h) as [[[e|]|err|] h1] eqn:Eq; cbn [ret].
  - reflexivity.
  - rewrite <- (Hfall h1 Hc Hb).
    destruct (Render.or_else _ _ h1) as [[r|e|] h2] eqn:E; try reflexivity.
    exfalso. exact (Hsafe h1 Hc Hb e h2 E).
  - rewrite <- (Hfall h1 Hc Hb). reflexivity.
  - reflexivity.
Qed.

End ElementHandle.

Ltac frame_step Rr Rt Rtr :=
  lazymatch goal with
  | |- respects _ (ret _) => apply (respects_ret _ Rr Rt)
  | |- respects _ (throw _) => apply (respects_throw _ Rr Rt)
  | |- respects _ pending => apply (respects_pending _ Rr Rt)
  | |- respects _ get_this => apply (respects_get_this _ Rr Rt)
  | |- respects _ get_data => apply (respects_get_data _ Rr Rt)
  | |- respects _ (call _ _) => apply (respects_call _ Rr Rtr)
  | |- respects _ (send _ _) => apply (respects_send _ Rr Rtr)
  | |- respects _ (answered _) => apply (respects_answered _ Rr Rtr)
  | |- respects _ (note _) => apply (respects_note _ Rr Rtr)
  | |- respects _ (query _ _ _) => apply (respects_query _ Rr Rtr)
  | |- respects _ (boundingBox _ _) => apply (respects_boundingBox _ Rr Rtr)
  | |- respects _ (take _ _) => apply (respects_take _ Rr Rtr)
  | |- respects _ (Date_now _) => apply (respects_Date_now _ Rr Rtr)
  | |- respects _ (bind _ _) => apply (respects_bind _ Rr Rt); [|intro]
  | |- respects _ (catch_noop _) => apply (respects_catch_noop _ Rr Rt)
  | |- respects _ (try_catch _ _) => apply (respects_try_catch _ Rr Rt); [|intro]
  | |- respects _ (settle _) => apply (respects_settle _ Rr Rt)
  | |- respects _ (detached _ _) =>
      apply (respects_detached _ Rr Rt); [intros ? ?; try (repeat split; reflexivity)|]
  | |- respects _ (when _ _) => apply (respects_when _ Rr Rt)
  | |- respects _ (for_of _ _) => apply (respects_for_of _ Rr Rt); intro
  | |- respects _ (modify_this _) => apply (respects_modify_this _ Rr Rt); intro
  | |- respects _ (modify_data _) => apply (respects_modify_data _ Rr Rt); intro
  | |- respects _ (match ?x with _ => _ end) => destruct x
  | |- respects _ (if ?x then _ else _) => destruct x
  end.

Ltac frame Rr Rt Rtr := repeat frame_step Rr Rt Rtr.

(** ** The browser-only steps leave the pool alone *)

Lemma same_pool_refl h : same_pool h h.
Proof. repeat split. Qed.

Lemma same_pool_trans a b c : same_pool a b -> same_pool b c -> same_pool a c.
Proof. unfold same_pool. intuition congruence. Qed.

Lemma same_pool_trace f h : same_pool h (on_this (with_trace f) h).
Proof. repeat split. Qed.

Lemma same_pool_data f (h : Heap RenderObj) : same_pool h (on_data f h).
Proof. repeat split. Qed.

Ltac pool_frame :=
  frame same_pool_refl same_pool_trans same_pool_trace; try apply same_pool_data.

Lemma setViewport_same_pool drv page w h d :
  respects same_pool (Render.setViewport drv page w h d).
Proof. unfold Render.setViewport. pool_frame. Qed.

Lemma or_else_same_pool (a b : M (option ElementHandle)) :
  respects same_pool a -> respects same_pool b -> respects same_pool (Render.or_else a b).
Proof. intros Ha Hb. unfold Render.or_else. pool_frame; assumption. Qed.

Lemma elementHandle_same_pool drv page name :
  respects same_pool (Render.elementHandle drv page name).
Proof.
  unfold Render.elementHandle.
  pool_frame; repeat (apply or_else_same_pool); pool_frame.
Qed.

Lemma slices_same_pool drv body w bh ht ixs :
  respects same_pool (Render.slices drv body w bh ht ixs).
Proof.
  induction ixs as [|i ixs IH]; simpl; pool_frame. exact IH.
Qed.

Lemma capture_same_pool drv page : respects same_pool (Render.capture drv page).
Proof.
  unfold Render.capture. pool_frame;
    first [ apply setViewport_same_pool | apply elementHandle_same_pool
          | apply slices_same_pool | idtac ].
Qed.

Lemma optionalWaits_same_pool drv page : respects same_pool (Render.optionalWaits drv page).
Proof. unfold Render.optionalWaits. pool_frame. Qed.

(** ** No method changes the browser id or the capture mode *)

Lemma same_task_refl h : same_task h h.
Proof. repeat split. Qed.

Lemma same_task_trans a b c : same_task a b -> same_task b c -> same_task a c.
Proof. unfold same_task. intuition congruence. Qed.

Lemma same_task_trace f h : same_task h (on_this (with_trace f) h).
Proof. repeat split. Qed.

Create HintDb frames.

Ltac task_frame :=
  frame same_task_refl same_task_trans same_task_trace;
  try solve [ repeat split | auto with frames ].

Section TaskFrames.
Context (drv : Driver).

Lemma browser_newPage_same_task : respects same_task (browser_newPage drv).
Proof.
  intros h. unfold browser_newPage, bind, send, newPage_answered.
  destruct (settles drv _ Drv.newPage); repeat split.
Qed.

Lemma newPage_answered_same_task o : respects same_task (newPage_answered o).
Proof. intros h. unfold newPage_answered. destruct o; repeat split. Qed.

Lemma clearTimeout_same_task t : respects same_task (clearTimeout t).
Proof. unfold clearTimeout. task_frame. Qed.

Lemma setTimeout_same_task k : respects same_task (setTimeout k).
Proof. intros h. repeat split. Qed.

Lemma generateId_same_task : respects same_task (PagePool.generateId drv).
Proof. intros h. repeat split. Qed.

Hint Resolve browser_newPage_same_task newPage_answered_same_task clearTimeout_same_task
  setTimeout_same_task generateId_same_task : frames.

Lemma createNewPage_same_task : respects same_task (PagePool.createNewPage drv).
Proof. unfold PagePool.createNewPage, PagePool.createNewPage_end.
  task_frame. Qed.
Hint Resolve createNewPage_same_task : frames.

Lemma initFirstPage_same_task : respects same_task (PagePool.initFirstPage drv).
Proof. unfold PagePool.initFirstPage. task_frame. Qed.

Lemma idleTimerCallback_same_task k : respects same_task (PagePool.idleTimerCallback drv k).
Proof. unfold PagePool.idleTimerCallback, PagePool.idleTimerCallback_begin, PagePool.idleTimerCallback_end.
  task_frame. Qed.

Lemma startIdleTimer_same_task k : respects same_task (PagePool.startIdleTimer k).
Proof. unfold PagePool.startIdleTimer. task_frame. Qed.
Hint Resolve initFirstPage_same_task idleTimerCallback_same_task startIdleTimer_same_task : frames.

Lemma fire_same_task t : respects same_task (PagePool.fire drv t).
Proof. unfold PagePool.fire, PagePool.fire_begin, PagePool.idleTimerCallback_begin, PagePool.idleTimerCallback_end.
  task_frame. Qed.

Lemma createPage_same_task : respects same_task (PagePool.createPage drv).
Proof. unfold PagePool.createPage, PagePool.take_created.
  task_frame. Qed.

Lemma takeIdle_same_task : respects same_task (PagePool.takeIdle drv).
Proof. unfold PagePool.takeIdle. task_frame. Qed.
Hint Resolve fire_same_task createPage_same_task takeIdle_same_task : frames.

Lemma acquirePage_same_task : respects same_task (PagePool.acquirePage drv).
Proof. unfold PagePool.acquirePage, PagePool.acquirePage_begin, PagePool.createNewPage_end, PagePool.take_created.
  task_frame. Qed.

Lemma releasePage_same_task p : respects same_task (PagePool.releasePage drv p).
Proof. unfold PagePool.releasePage. task_frame. Qed.

Lemma closeAll_same_task : respects same_task (PagePool.closeAll drv).
Proof. unfold PagePool.closeAll. task_frame. Qed.

Lemma removePage_same_task p : respects same_task (PagePool.removePage drv p).
Proof. unfold PagePool.removePage, PagePool.removePage_begin, PagePool.removePage_end.
  task_frame. Qed.
Hint Resolve acquirePage_same_task releasePage_same_task closeAll_same_task
  removePage_same_task : frames.

Lemma setViewport_same_task page w h d : respects same_task (Render.setViewport drv page w h d).
Proof. unfold Render.setViewport. task_frame. Qed.

Lemma or_else_same_task (a b : M (option ElementHandle)) :
  respects same_task a -> respects same_task b -> respects same_task (Render.or_else a b).
Proof. intros Ha Hb. unfold Render.or_else. task_frame. Qed.

Lemma elementHandle_same_task page name : respects same_task (Render.elementHandle drv page name).
Proof.
  unfold Render.elementHandle.
  task_frame; repeat (apply or_else_same_task); task_frame.
Qed.

Lemma slices_same_task body w bh ht ixs : respects same_task (Render.slices drv body w bh ht ixs).
Proof. induction ixs as [|i ixs IH]; simpl; task_frame. Qed.
Hint Resolve setViewport_same_task elementHandle_same_task slices_same_task : frames.

Lemma capture_same_task page : respects same_task (Render.capture drv page).
Proof. unfold Render.capture. task_frame. Qed.

Lemma optionalWaits_same_task page : respects same_task (Render.optionalWaits drv page).
Proof. unfold Render.optionalWaits. task_frame. Qed.

Lemma openPage_same_task : respects same_task (Render.openPage drv).
Proof. unfold Render.openPage. task_frame. Qed.
Hint Resolve capture_same_task optionalWaits_same_task openPage_same_task : frames.

Lemma newPage_same_task : respects same_task (Render.newPage drv).
Proof. unfold Render.newPage. task_frame. Qed.
Hint Resolve newPage_same_task : frames.

Lemma render_same_task echo : respects same_task (Render.render drv echo).
Proof. unfold Render.render. task_frame. Qed.

Lemma init_same_task : respects same_task (Render.init drv).
Proof. unfold Render.init. task_frame. Qed.

End TaskFrames.

(** * The single-image branches of [render] *)

Ltac inv_bind H :=
  let a := fresh "a" in
  let h := fresh "h" in
  let H1 := fresh "Hstep" in
  apply bind_inv_Ok in H; destruct H as (a & h & H1 & H).

Lemma ret_inv {T A} (a b : A) (h h' : Heap T) : ret a h = (Ok b, h') -> a = b /\ h = h'.
Proof. unfold ret. intros H. now inversion H. Qed.

Section SingleImage.
Context (drv : Driver).

(** Without a truthy [multiPage] a capture that resolves resolves to one
    image. *)
Lemma capture_not_paged (page : Page) (h h' : Heap RenderObj) (r : RenderResult) :
  truthy_multiPage (Data.multiPage (data h)) = false ->
  Render.capture drv page h = (Ok r, h') ->
  exists img, r = Single img.
Proof.
  intros Hmp H. unfold Render.capture in H.
  rewrite (bind_Ok get_data _ h (data h) h) in H by reflexivity.
  rewrite Hmp in H. cbn [negb] in H.
  destruct (truthy_bool (Data.fullPage (data h))).
  - inv_bind H. inv_bind H. apply ret_inv in H. destruct H as [<- _]. now eexists.
  - inv_bind H. inv_bind H. inv_bind H. inv_bind H.
    apply ret_inv in H. destruct H as [<- _]. now eexists.
Qed.

(** A [render] that resolves went through [newPage] and [capture]. *)
Lemma render_resolves (echo : string) (h h' : Heap RenderObj) (r : RenderResult) :
  Render.render drv echo h = (Ok r, h') ->
  exists page h1 h2,
    Render.newPage drv (on_this (with_list (Render.list_set echo)) h) = (Ok page, h1)
    /\ Render.capture drv page h1 = (Ok r, h2).
Proof.
  intros H. unfold Render.render in H.
  inv_bind H. unfold modify_this in Hstep. inversion Hstep; subst; clear Hstep.
  inv_bind H. unfold settle in Hstep.
  destruct (Render.newPage drv _) as [[page|e|] h1] eqn:Enew; inversion Hstep; subst; clear Hstep.
  2:{ inv_bind H. discriminate H. }
  inv_bind H. unfold settle in Hstep.
  destruct (Render.capture drv page h0) as [[res|e|] h2] eqn:Ecap; inversion Hstep; subst; clear Hstep.
  2:{ inv_bind H. inv_bind H. discriminate H. }
  inv_bind H. inv_bind H. inv_bind H. inv_bind H.
  apply ret_inv in H. destruct H as [<- _].
  now exists page, h0, h1.
Qed.

Lemma take_cooperative (c : Drv.Call) (h : Heap RenderObj) :
  cooperative drv -> exists img h', take drv c h = (Ok img, h').
Proof.
  intros (_ & _ & _ & Hc). unfold take.
  destruct (Hc (trace (this h)) c) as (img & ->). now eexists _, _.
Qed.

Lemma call_cooperative (c : Drv.Call) (h : Heap RenderObj) :
  cooperative drv -> exists h', call drv c h = (Ok tt, h').
Proof.
  intros (Hs & _). unfold call. rewrite Hs. now eexists.
Qed.

Lemma setViewport_cooperative page w ht d (h : Heap RenderObj) :
  cooperative drv -> exists h', Render.setViewport drv page w ht d h = (Ok tt, h').
Proof.
  intros Hco. unfold Render.setViewport.
  destruct (_ && _); [now eexists | now apply call_cooperative].
Qed.

Lemma query_cooperative page sel (h : Heap RenderObj) :
  cooperative drv -> exists e h', query drv page sel h = (Ok (Some e), h').
Proof.
  intros (_ & Hf & _). unfold query.
  destruct (Hf (trace (this h)) page sel) as (e & ->). now eexists _, _.
Qed.

Lemma or_else_found (a b : M (option ElementHandle)) (h : Heap RenderObj) :
  (exists e h', a h = (Ok (Some e), h')) ->
  exists e h', Render.or_else a b h = (Ok (Some e), h').
Proof.
  intros (e & h' & Ha). unfold Render.or_else. rewrite (bind_Ok _ _ _ _ _ Ha).
  now exists e, h'.
Qed.

Lemma elementHandle_cooperative page name (h : Heap RenderObj) :
  cooperative drv -> exists e h', Render.elementHandle drv page name h = (Ok (Some e), h').
Proof.
  intros Hco. unfold Render.elementHandle, try_catch.
  destruct name as [n|]; [destruct (truthy_string n)|].
  - destruct (or_else_found (query drv page n)
                (Render.or_else (query drv page "#container") (query drv page "body")) h
                (query_cooperative page n h Hco)) as (e & h' & ->).
    now exists e, h'.
  - destruct (or_else_found (query drv page "#container") (query drv page "body") h
                (query_cooperative page "#container" h Hco)) as (e & h' & ->).
    now exists e, h'.
  - destruct (or_else_found (query drv page "#container") (query drv page "body") h
                (query_cooperative page "#container" h Hco)) as (e & h' & ->).
    now exists e, h'.
Qed.

Lemma boundingBox_cooperative e (h : Heap RenderObj) :
  cooperative drv -> exists b h', boundingBox drv (Some e) h = (Ok b, h').
Proof.
  intros (_ & _ & Hm & _). simpl.
  destruct (Hm (trace (this h)) e) as (b & ->). now eexists _, _.
Qed.

Lemma capture_single_cooperative (page : Page) (h : Heap RenderObj) :
  cooperative drv ->
  truthy_multiPage (Data.multiPage (data h)) = false ->
  exists img h', Render.capture drv page h = (Ok (Single img), h').
Proof.
  intros Hco Hmp. unfold Render.capture.
  rewrite (bind_Ok get_data _ h (data h) h) by reflexivity.
  rewrite Hmp. cbn [negb].
  destruct (truthy_bool (Data.fullPage (data h))).
  - destruct (take_cooperative
                (Drv.page_screenshot page
                   (Render.set_captureBeyondViewport true (Render.makeOptions (data h)))) h Hco)
      as (img & h1 & E1).
    rewrite (bind_Ok _ _ _ _ _ E1).
    destruct (setViewport_cooperative page (Render.vp_width (data h)) (Render.vp_height (data h))
                (Render.vp_deviceScaleFactor (data h)) h1 Hco) as (h2 & E2).
    rewrite (bind_Ok _ _ _ _ _ E2). now exists img, h2.
  - destruct (elementHandle_cooperative page (Data.selector (data h)) h Hco) as (e & h1 & E1).
    rewrite (bind_Ok _ _ _ _ _ E1).
    destruct (boundingBox_cooperative e h1 Hco) as (b & h2 & E2).
    rewrite (bind_Ok _ _ _ _ _ E2).
    destruct (setViewport_cooperative page
                (or_number (Render.vp_width (data h)) (option_map box_width b))
                (or_number (Render.vp_height (data h)) (option_map box_height b))
                (Render.vp_deviceScaleFactor (data h)) h2 Hco) as (h3 & E3).
    rewrite (bind_Ok _ _ _ _ _ E3).
    destruct (take_cooperative (Drv.page_screenshot page (Render.makeOptions (data h))) h3 Hco)
      as (img & h4 & E4).
    rewrite (bind_Ok _ _ _ _ _ E4). now exists img, h4.
Qed.

End SingleImage.

Lemma startIdleTimer_total (k : string) (h : Heap RenderObj) :
  exists h', PagePool.startIdleTimer k h = (Ok tt, h').
Proof.
  unfold PagePool.startIdleTimer.
  rewrite (bind_Ok get_this _ h (this h) h) by reflexivity.
  destruct (Map_get k (pool (this h))) as [info|]; [|now eexists].
  destruct (timer info); unfold bind, clearTimeout, modify_this, setTimeout, ret;
    eexists; reflexivity.
Qed.

Lemma releasePage_total (drv : Driver) (p : Page) (h : Heap RenderObj) :
  exists h', PagePool.releasePage drv p h = (Ok tt, h').
Proof.
  unfold PagePool.releasePage.
  rewrite (bind_Ok get_this _ h (this h) h) by reflexivity.
  destruct (first_entry (has_page p) (pool (this h))) as [[k info]|]; [|now eexists].
  unfold bind at 1. unfold Date_now. unfold bind at 1. unfold modify_this.
  apply startIdleTimer_total.
Qed.

Lemma removePage_total (drv : Driver) (p : Page) (h : Heap RenderObj) :
  exists h', PagePool.removePage drv p h = (Ok tt, h').
Proof.
  rewrite removePage_whole.
  rewrite (bind_Ok get_this _ h (this h) h) by reflexivity.
  destruct (first_entry (has_page p) (pool (this h))) as [[k info]|]; [|now eexists].
  destruct (timer info);
    unfold bind, clearTimeout, modify_this, note, catch_noop, call, ret; cbn;
    match goal with
    | |- context [settles drv ?tr ?c] => destruct (settles drv tr c)
    end; eexists; reflexivity.
Qed.

(** ** The steps around a capture take no picture *)

Lemma quiet_refl h : quiet h h.
Proof. split; [reflexivity|]. exists []. now rewrite app_nil_r. Qed.

Lemma quiet_trans a b c : quiet a b -> quiet b c -> quiet a c.
Proof.
  intros (Ho1 & l1 & Ht1 & Hq1) (Ho2 & l2 & Ht2 & Hq2). split; [congruence|].
  exists (l1 ++ l2). split.
  - now rewrite Ht2, Ht1, app_assoc.
  - now rewrite filter_app, Hq1, Hq2.
Qed.

Lemma quiet_added (c : Drv.Call) (h : Heap RenderObj) :
  is_capture c = false -> quiet h (on_this (with_trace (fun t => t ++ [c])) h).
Proof. intros Hc. split; [reflexivity|]. exists [c]. simpl. now rewrite Hc. Qed.

Lemma quiet_silent (f : RenderObj -> RenderObj) (h : Heap RenderObj) :
  (forall r, trace (f r) = trace r) -> quiet h (on_this f h).
Proof. intros Hf. split; [reflexivity|]. exists []. simpl. now rewrite Hf, app_nil_r. Qed.

Lemma quiet_data (f : Data.screenshot -> Data.screenshot) (h : Heap RenderObj) :
  (forall d, Render.makeOptions (f d) = Render.makeOptions d) -> quiet h (on_data f h).
Proof. intros Hf. split; [apply Hf|]. exists []. simpl. now rewrite app_nil_r. Qed.

Lemma clip_calls_app (tr tr' : list Drv.Call) :
  clip_calls (tr ++ tr') = clip_calls tr ++ clip_calls tr'.
Proof.
  induction tr as [|c tr IH]; [reflexivity|].
  simpl. destruct c; rewrite ?IH; reflexivity.
Qed.

Section Quiet.
Context (drv : Driver).

Lemma quiet_call c : is_capture c = false -> respects quiet (call drv c).
Proof. intros Hc h. unfold call. destruct (settles drv _ c); now apply quiet_added. Qed.

Lemma quiet_send c : is_capture c = false -> respects quiet (send drv c).
Proof. intros Hc h. now apply quiet_added. Qed.

Lemma quiet_note c : is_capture c = false -> respects quiet (note c).
Proof. intros Hc h. now apply quiet_added. Qed.

Lemma quiet_query p sel : respects quiet (query drv p sel).
Proof. intros h. unfold query. destruct (finds drv _ p sel); now apply quiet_added. Qed.

Lemma quiet_boundingBox body : respects quiet (boundingBox drv body).
Proof.
  destruct body as [e|]; intros h; simpl; [|apply quiet_refl].
  destruct (measures drv _ e); now apply quiet_added.
Qed.

Lemma quiet_newPage_answered o : respects quiet (newPage_answered o).
Proof.
  intros h. unfold newPage_answered. destruct o; [apply quiet_refl|].
  now apply quiet_silent.
Qed.

End Quiet.

Ltac quiet_step :=
  lazymatch goal with
  | |- respects quiet (call _ _) => apply quiet_call; reflexivity
  | |- respects quiet (send _ _) => apply quiet_send; reflexivity
  | |- respects quiet (note _) => apply quiet_note; reflexivity
  | |- respects quiet (query _ _ _) => apply quiet_query
  | |- respects quiet (boundingBox _ _) => apply quiet_boundingBox
  | |- respects quiet (newPage_answered _) => apply quiet_newPage_answered
  | |- respects quiet (answered _) => intros ?; unfold answered;
        match goal with |- context [match ?o with _ => _ end] => destruct o end; apply quiet_refl
  | |- respects quiet (Date_now _) => intros ?; apply quiet_refl
  | |- respects quiet (PagePool.generateId _) => intros ?; apply quiet_refl
  | |- respects quiet (setTimeout _) => intros ?; apply quiet_silent; reflexivity
  | |- respects quiet (clearTimeout _) => intros ?; apply quiet_silent; reflexivity
  | |- respects quiet (modify_this _) => intros ?; apply quiet_silent; reflexivity
  | |- respects quiet (modify_data _) => intros ?; apply quiet_data; reflexivity
  | |- respects quiet (Render.or_else _ _) => unfold Render.or_else
  | _ => frame_step quiet_refl quiet_trans I
  end.

Ltac quiet_frame := repeat quiet_step.

Section QuietMethods.
Context (drv : Driver).

Lemma setViewport_quiet page w h d : respects quiet (Render.setViewport drv page w h d).
Proof. unfold Render.setViewport. quiet_frame. Qed.

Lemma elementHandle_quiet page name : respects quiet (Render.elementHandle drv page name).
Proof. unfold Render.elementHandle. quiet_frame. Qed.

Lemma newPage_quiet : respects quiet (Render.newPage drv).
Proof.
  unfold Render.newPage, Render.openPage, Render.optionalWaits, PagePool.createPage,
    PagePool.createNewPage, PagePool.acquirePage, PagePool.acquirePage_begin,
    PagePool.createNewPage_end, PagePool.take_created, PagePool.takeIdle.
  quiet_frame.
Qed.

Lemma releasePage_quiet p : respects quiet (PagePool.releasePage drv p).
Proof. unfold PagePool.releasePage, PagePool.startIdleTimer. quiet_frame. Qed.

Lemma take_inv (c : Drv.Call) (h h' : Heap RenderObj) (img : Image) :
  take drv c h = (Ok img, h') ->
  captures drv (trace (this h)) c = inr img /\ trace (this h') = trace (this h) ++ [c]
  /\ data h' = data h.
Proof.
  unfold take. destruct (captures drv (trace (this h)) c) as [e|i]; intros H; inversion H; subst.
  repeat split.
Qed.

Lemma no_capture_no_clip (l : list Drv.Call) : filter is_capture l = [] -> clip_calls l = [].
Proof.
  induction l as [|c l IH]; [reflexivity|].
  destruct c; simpl; intros H; try discriminate; now apply IH.
Qed.

(** What [render] does after a capture that resolved takes no
    picture. *)
Lemma render_after_capture (echo : string) (h h' : Heap RenderObj) (r : RenderResult)
    (page : Page) (h1 h2 : Heap RenderObj) :
  Render.render drv echo h = (Ok r, h') ->
  Render.newPage drv (on_this (with_list (Render.list_set echo)) h) = (Ok page, h1) ->
  Render.capture drv page h1 = (Ok r, h2) ->
  exists l, trace (this h') = trace (this h2) ++ l /\ filter is_capture l = [].
Proof.
  intros H Hnew Hcap. unfold Render.render in H.
  rewrite (bind_Ok _ _ h tt (on_this (with_list (Render.list_set echo)) h)) in H by reflexivity.
  rewrite (bind_Ok (settle _) _ _ (inr page) h1) in H by (unfold settle; now rewrite Hnew).
  cbv beta iota in H.
  rewrite (bind_Ok (settle _) _ _ (inr r) h2) in H by (unfold settle; now rewrite Hcap).
  cbv beta iota in H.
  match type of H with
  | ?m h2 = _ =>
      assert (Hq : respects quiet m) by (quiet_frame; apply releasePage_quiet)
  end.
  exact (proj2 (respects_run quiet _ _ _ _ Hq H)).
Qed.

Lemma single_options_same (d d' : Data.screenshot) :
  Render.makeOptions d' = Render.makeOptions d -> single_options d' = single_options d.
Proof.
  intros E. unfold single_options.
  change (truthy_bool (Data.fullPage d')) with (Options.fullPage (Render.makeOptions d')).
  change (truthy_bool (Data.fullPage d)) with (Options.fullPage (Render.makeOptions d)).
  now rewrite E.
Qed.

(** Without a truthy [multiPage] a capture that resolves has taken one
    picture, of the page, with the options of the call, and resolves to
    that picture. *)
Lemma capture_single_shot (page : Page) (h h' : Heap RenderObj) (r : RenderResult) :
  truthy_multiPage (Data.multiPage (data h)) = false ->
  Render.capture drv page h = (Ok r, h') ->
  exists img before after,
    r = Single img
    /\ trace (this h')
       = trace (this h) ++ before ++ Drv.page_screenshot page (single_options (data h)) :: after
    /\ captures drv (trace (this h) ++ before)
         (Drv.page_screenshot page (single_options (data h))) = inr img
    /\ filter is_capture (before ++ after) = []
    /\ Render.makeOptions (data h') = Render.makeOptions (data h).
Proof.
  intros Hmp H. unfold Render.capture in H.
  rewrite (bind_Ok get_data _ h (data h) h) in H by reflexivity.
  rewrite Hmp in H. cbn [negb] in H. unfold single_options.
  destruct (truthy_bool (Data.fullPage (data h))).
  - inv_bind H. inv_bind H. apply ret_inv in H. destruct H as [<- <-].
    destruct (take_inv _ _ _ _ Hstep) as (Hcap & Htr & Hd).
    pose proof (respects_run quiet _ _ _ _ (setViewport_quiet _ _ _ _) Hstep0)
      as (Ho & l & Hl & Hq).
    exists a, [], l. split; [reflexivity|]. split; [|split; [|split]].
    + rewrite Hl, Htr. now rewrite <- app_assoc.
    + now rewrite app_nil_r.
    + exact Hq.
    + now rewrite Ho, Hd.
  - inv_bind H. inv_bind H. inv_bind H. inv_bind H.
    apply ret_inv in H. destruct H as [<- <-].
    pose proof (respects_run quiet _ _ _ _ (elementHandle_quiet _ _) Hstep)
      as (Ho1 & l1 & Hl1 & Hq1).
    pose proof (respects_run quiet _ _ _ _ (quiet_boundingBox drv _) Hstep0)
      as (Ho2 & l2 & Hl2 & Hq2).
    pose proof (respects_run quiet _ _ _ _ (setViewport_quiet _ _ _ _) Hstep1)
      as (Ho3 & l3 & Hl3 & Hq3).
    destruct (take_inv _ _ _ _ Hstep2) as (Hcap & Htr & Hd).
    exists a2, (l1 ++ l2 ++ l3), []. split; [reflexivity|]. split; [|split; [|split]].
    + rewrite Htr, Hl3, Hl2, Hl1. now rewrite <- !app_assoc.
    + rewrite Hl3, Hl2, Hl1 in Hcap. rewrite <- !app_assoc in Hcap. exact Hcap.
    + rewrite app_nil_r, !filter_app, Hq1, Hq2, Hq3. reflexivity.
    + rewrite Hd. congruence.
Qed.

End QuietMethods.

Section MultiPageZero.
Context (drv : Driver).

(** C10. With [multiPage] set to the number 0, [render] takes the branch
    that returns one image: a [render] that resolves has made one call
    that takes a picture, [page.screenshot] on the page of the task
    with the [options] built from the parameters, it has captured no
    element, and it resolves to the image of that call, never to an
    array; and on a browser where captures succeed it does resolve once
    [newPage] has handed over a page. *)
Theorem C10_multiPage_zero_is_single (echo : string) (h : Heap RenderObj) :
  Data.multiPage (data h) = Some (MPNum 0%Q) ->
  (forall r h', Render.render drv echo h = (Ok r, h') ->
     exists img page before after,
       r = Single img
       /\ calls_since h h'
          = before ++ Drv.page_screenshot page (single_options (data h)) :: after
       /\ captures drv (trace (this h) ++ before)
            (Drv.page_screenshot page (single_options (data h))) = inr img
       /\ filter is_capture (before ++ after) = []
       /\ clip_calls (calls_since h h') = [])
  /\ (cooperative drv ->
      forall page h1,
        Render.newPage drv (on_this (with_list (Render.list_set echo)) h) = (Ok page, h1) ->
        exists img h', Render.render drv echo h = (Ok (Single img), h')).
Proof.
  intros Hzero.
  assert (Hkept : forall page h1,
    Render.newPage drv (on_this (with_list (Render.list_set echo)) h) = (Ok page, h1) ->
    truthy_multiPage (Data.multiPage (data h1)) = false).
  { intros page h1 Hnew.
    pose proof (newPage_same_task drv (on_this (with_list (Render.list_set echo)) h)) as Hs.
    rewrite Hnew in Hs. destruct Hs as (_ & Hmp & _). simpl in Hmp.
    rewrite Hmp, Hzero. reflexivity. }
  split.
  - intros r h' Hrun.
    destruct (render_resolves drv echo h h' r Hrun) as (page & h1 & h2 & Hnew & Hcap).
    destruct (capture_single_shot drv page h1 h2 r (Hkept page h1 Hnew) Hcap)
      as (img & before & after & Hr & Htr & Himg & Hq & Hopt).
    pose proof (respects_run quiet _ _ _ _ (newPage_quiet drv) Hnew) as (Ho1 & l1 & Hl1 & Hq1).
    simpl in Hl1, Ho1.
    pose proof (render_after_capture drv echo h h' r page h1 h2 Hrun Hnew Hcap)
      as (l2 & Hl2 & Hq2).
    rewrite (single_options_same _ _ Ho1) in Htr, Himg.
    assert (Hcalls : calls_since h h'
                     = (l1 ++ before)
                       ++ Drv.page_screenshot page (single_options (data h)) :: (after ++ l2)).
    { apply calls_since_app. rewrite Hl2, Htr, Hl1. now rewrite <- !app_assoc. }
    assert (Hquiet : filter is_capture ((l1 ++ before) ++ after ++ l2) = []).
    { rewrite filter_app in Hq. rewrite !filter_app. rewrite Hq1, Hq2.
      destruct (filter is_capture before); [|discriminate].
      destruct (filter is_capture after); [reflexivity | discriminate]. }
    exists img, page, (l1 ++ before), (after ++ l2).
    split; [exact Hr|]. split; [exact Hcalls|]. split; [|split; [exact Hquiet|]].
    + rewrite Hl1 in Himg. now rewrite app_assoc.
    + rewrite Hcalls. rewrite clip_calls_app. cbn [clip_calls].
      rewrite <- clip_calls_app. apply no_capture_no_clip. exact Hquiet.
  - intros Hco page h1 Hnew.
    destruct (capture_single_cooperative drv page h1 Hco (Hkept page h1 Hnew))
      as (img & h2 & Hcap).
    unfold Render.render.
    erewrite bind_Ok by reflexivity. cbv beta iota.
    erewrite bind_Ok by (unfold settle; rewrite Hnew; reflexivity). cbv beta iota.
    erewrite bind_Ok by (unfold settle; rewrite Hcap; reflexivity). cbv beta iota.
    erewrite bind_Ok by reflexivity. cbv beta iota.
    erewrite bind_Ok by reflexivity. cbv beta iota.
    erewrite bind_Ok by reflexivity. cbv beta iota.
    match goal with
    | |- context [bind (PagePool.releasePage drv page) _ ?hh] =>
        destruct (releasePage_total drv page hh) as (h3 & Hrel)
    end.
    rewrite (bind_Ok _ _ _ _ _ Hrel). now exists img, h3.
Qed.

End MultiPageZero.

Lemma steady_cooperative : cooperative steady.
Proof. repeat split; intros; eexists; reflexivity. Qed.

(** [render] of [{ file: 'http://a', multiPage: 0 }] on a fresh browser:
    the one picture is [page.screenshot] of page 0 as a jpeg of quality
    90, and the image is its result. *)
Lemma C10_witness :
  Data.multiPage (data (started steady (paged "http://a" (Some (MPNum 0%Q))))) = Some (MPNum 0%Q)
  /\ (exists img h',
        Render.render steady "echo" (started steady (paged "http://a" (Some (MPNum 0%Q))))
        = (Ok (Single img), h'))
  /\ (forall r h',
        Render.render steady "echo" (started steady (paged "http://a" (Some (MPNum 0%Q))))
        = (Ok r, h') ->
        exists img page before after,
          r = Single img
          /\ calls_since (started steady (paged "http://a" (Some (MPNum 0%Q)))) h'
             = before
               ++ Drv.page_screenshot page
                    (single_options (paged "http://a" (Some (MPNum 0%Q)))) :: after
          /\ captures steady
               (trace (this (started steady (paged "http://a" (Some (MPNum 0%Q))))) ++ before)
               (Drv.page_screenshot page (single_options (paged "http://a" (Some (MPNum 0%Q)))))
             = inr img
          /\ filter is_capture (before ++ after) = []
          /\ clip_calls (calls_since (started steady (paged "http://a" (Some (MPNum 0%Q)))) h')
             = []).
Proof.
  split; [reflexivity|].
  assert (Hnew : exists h1,
    Render.newPage steady
      (on_this (with_list (Render.list_set "echo"))
         (started steady (paged "http://a" (Some (MPNum 0%Q))))) = (Ok 0, h1))
    by (eexists; vm_compute; reflexivity).
  destruct Hnew as (h1 & Hnew).
  split.
  - exact (proj2 (C10_multiPage_zero_is_single steady "echo"
                    (started steady (paged "http://a" (Some (MPNum 0%Q)))) eq_refl)
             steady_cooperative 0 h1 Hnew).
  - exact (proj1 (C10_multiPage_zero_is_single steady "echo"
                    (started steady (paged "http://a" (Some (MPNum 0%Q)))) eq_refl)).
Defined.

(** The page has no [.card]; looking up [#container] raises; [body]
    exists.  Treating the raise as "not found" would resolve to [body];
    [elementHandle] rejects instead. *)
Lemma C8_counterexample :
  fst (Render.elementHandle detached_container 0 (Some ".card")
         (started steady (plain "http://a"))) = Throw (DriverError 2)
  /\ fst (resolve_spec detached_container 0 (Some ".card")
            (started steady (plain "http://a"))) = Ok (Some 1).
Proof. split; vm_compute; reflexivity. Qed.

(** On [stale_card] the three ways into the chain are taken: the lookup
    of [.card] raises and the chain goes on with [#container] and
    [body]; [.menu] is not found and the chain goes on the same way; and
    with no selector the chain starts at [#container].  Each time the
    element is the one of [body], after the lookups the calls show. *)
Lemma C8_witness :
  (forall tr, exists r, finds stale_card tr 0 "#container" = inr r)
  /\ (forall tr, exists r, finds stale_card tr 0 "body" = inr r)
  /\ (Render.elementHandle stale_card 0 (Some ".card") (started steady (plain "http://a"))
      = resolve_spec stale_card 0 (Some ".card") (started steady (plain "http://a"))
      /\ fst (resolve_spec stale_card 0 (Some ".card") (started steady (plain "http://a")))
         = Ok (Some 1)
      /\ calls_since (started steady (plain "http://a"))
           (snd (Render.elementHandle stale_card 0 (Some ".card")
                   (started steady (plain "http://a"))))
         = [Drv.query 0 ".card"; Drv.query 0 "#container"; Drv.query 0 "body"])
  /\ (Render.elementHandle stale_card 0 (Some ".menu") (started steady (plain "http://a"))
      = resolve_spec stale_card 0 (Some ".menu") (started steady (plain "http://a"))
      /\ fst (resolve_spec stale_card 0 (Some ".menu") (started steady (plain "http://a")))
         = Ok (Some 1)
      /\ calls_since (started steady (plain "http://a"))
           (snd (Render.elementHandle stale_card 0 (Some ".menu")
                   (started steady (plain "http://a"))))
         = [Drv.query 0 ".menu"; Drv.query 0 "#container"; Drv.query 0 "body"])
  /\ (Render.elementHandle stale_card 0 None (started steady (plain "http://a"))
      = resolve_spec stale_card 0 None (started steady (plain "http://a"))
      /\ calls_since (started steady (plain "http://a"))
           (snd (Render.elementHandle stale_card 0 None (started steady (plain "http://a"))))
         = [Drv.query 0 "#container"; Drv.query 0 "body"]).
Proof.
  assert (Hc : forall tr, exists r, finds stale_card tr 0 "#container" = inr r)
    by (intros tr; eexists; reflexivity).
  assert (Hb : forall tr, exists r, finds stale_card tr 0 "body" = inr r)
    by (intros tr; eexists; reflexivity).
  split; [exact Hc|]. split; [exact Hb|].
  split; [|split]; (split; [|try split; vm_compute; reflexivity]).
  - exact (C8_elementHandle_chain stale_card 0 (Some ".card")
             (started steady (plain "http://a")) Hc Hb).
  - exact (C8_elementHandle_chain stale_card 0 (Some ".menu")
             (started steady (plain "http://a")) Hc Hb).
  - exact (C8_elementHandle_chain stale_card 0 None
             (started steady (plain "http://a")) Hc Hb).
Defined.

(** * Clip rectangles of a paginated capture *)

(** The loop of the paginated branch asks for one element capture per
    index, and hands each the caller's parameter object with the clip
    rectangle of that index assigned into it. *)
Lemma slices_calls (drv : Driver) (e : ElementHandle) (w bh ht : Q) (ixs : list nat)
    (h : Heap RenderObj) :
  (forall tr c, exists img, captures drv tr c = inr img) ->
  exists imgs h',
    Render.slices drv (Some e) w bh ht ixs h = (Ok imgs, h')
    /\ List.length imgs = List.length ixs
    /\ trace (this h')
       = trace (this h)
         ++ map (fun i => Drv.element_screenshot e
                            (Data.with_clip (Some (Render.clipAt i w bh ht)) (data h))) ixs.
Proof.
  intros Hcap. revert h. induction ixs as [|i ixs IH]; intros h.
  - exists [], h. simpl. now rewrite app_nil_r.
  - cbn [Render.slices].
    erewrite bind_Ok by reflexivity. cbv beta iota.
    erewrite bind_Ok by reflexivity. cbv beta iota.
    unfold take at 1.
    set (h1 := on_data (Data.with_clip (Some (Render.clipAt i w bh ht))) h).
    destruct (Hcap (trace (this h1)) (Drv.element_screenshot e (data h1))) as (img & Himg).
    set (h2 := on_this (with_trace (fun t => t ++ [Drv.element_screenshot e (data h1)])) h1).
    destruct (IH h2) as (imgs & h' & Hrun & Hlen & Htrace).
    exists (img :: imgs), h'. split; [|split].
    + unfold bind at 1. rewrite Himg. fold h2.
      rewrite (bind_Ok _ _ _ _ _ Hrun). reflexivity.
    + simpl. now rewrite Hlen.
    + rewrite Htrace. subst h2 h1. simpl. now rewrite <- app_assoc.
Qed.

Lemma clip_calls_slices (e : ElementHandle) (d : Data.screenshot) (cs : list Clip) :
  clip_calls (map (fun c => Drv.element_screenshot e (Data.with_clip (Some c) d)) cs)
  = map Some cs.
Proof. induction cs as [|c cs IH]; [reflexivity|]. simpl. now rewrite IH. Qed.

(** On a browser where every call succeeds, a capture with a truthy
    [multiPage] and no [fullPage] resolves to an array with one image
    per clip rectangle of [Render.clips], taken in that order. *)
Lemma capture_paginated (drv : Driver) (page : Page) (h : Heap RenderObj) :
  cooperative drv ->
  truthy_bool (Data.fullPage (data h)) = false ->
  truthy_multiPage (Data.multiPage (data h)) = true ->
  exists (box : option BoundingBox) imgs h',
    let boxWidth := match box with Some b => box_width b | None => 1200%Q end in
    let boxHeight := match box with Some b => box_height b | None => 2000%Q end in
    let cs := Render.clips boxWidth boxHeight
                (Render.sliceHeight (Data.multiPage (data h)) boxHeight) in
    Render.capture drv page h = (Ok (Multi imgs), h')
    /\ List.length imgs = List.length cs
    /\ exists before, trace (this h') = before ++ skipn (List.length before) (trace (this h'))
         /\ clip_calls (skipn (List.length before) (trace (this h'))) = map Some cs.
Proof.
  intros Hco Hfull Hmp. unfold Render.capture.
  rewrite (bind_Ok get_data _ h (data h) h) by reflexivity.
  rewrite Hfull, Hmp. cbn [negb].
  destruct (elementHandle_cooperative drv page (Data.selector (data h)) h Hco) as (e & h1 & E1).
  rewrite (bind_Ok _ _ _ _ _ E1).
  destruct (boundingBox_cooperative drv e h1 Hco) as (box & h2 & E2).
  rewrite (bind_Ok _ _ _ _ _ E2).
  destruct (setViewport_cooperative drv page
              (or_number (Render.vp_width (data h)) (option_map box_width box))
              (or_number (Render.vp_height (data h)) (option_map box_height box))
              (Render.vp_deviceScaleFactor (data h)) h2 Hco) as (h3 & E3).
  rewrite (bind_Ok _ _ _ _ _ E3). cbv zeta.
  set (boxWidth := match box with Some b => box_width b | None => 1200%Q end).
  set (boxHeight := match box with Some b => box_height b | None => 2000%Q end).
  set (height := Render.sliceHeight (Data.multiPage (data h)) boxHeight).
  destruct (slices_calls drv e boxWidth boxHeight height
              (Render.indices (Render.sliceCount boxHeight height)) h3
              (proj2 (proj2 (proj2 Hco)))) as (imgs & h' & Hrun & Hlen & Htrace).
  rewrite (bind_Ok _ _ _ _ _ Hrun).
  exists box, imgs, h'. split; [reflexivity|]. split.
  - rewrite Hlen. unfold Render.clips. now rewrite length_map.
  - exists (trace (this h3)). rewrite Htrace.
    rewrite skipn_app, skipn_all, Nat.sub_diag. simpl. split; [reflexivity|].
    unfold Render.clips. rewrite <- (clip_calls_slices e (data h3)). now rewrite map_map.
Qed.

(** The heights 4500 and 2000 are whole numbers of pixels: every number
    the loop computes from them is exact. *)
Lemma whole_pixels_exact : Render.exact_clips 4500 2000.
Proof.
  assert (Hcount : Render.sliceCount 4500 2000 = 3%Z) by (vm_compute; reflexivity).
  intros i Hi. rewrite Hcount in Hi.
  destruct i as [|[|[|i]]]; [| | |lia];
    repeat split; unfold representable; vm_compute; reflexivity.
Qed.

Lemma quotient_exact : representable (4500 / 2000).
Proof. unfold representable. vm_compute. reflexivity. Qed.

(** C2 (amended). For a box height of 4500 and a slice height of 2000
    the capture makes three element captures whose clip rectangles are
    {y: 0, height: 2000}, {y: 1900, height: 2100} and {y: 3900, height:
    600}.  In general the slice count is the ceiling of the quotient
    boxHeight / sliceHeight as the division rounds it to double
    precision: it is the ceiling of the exact quotient when the quotient
    is representable (2.25 here), and it is one less for the box height
    3000.3 and the slice height 1000.1, whose quotient rounds to 3.  The
    slice with index i > 0 starts 100px above i * sliceHeight and is
    100px taller than min(sliceHeight, boxHeight - i * sliceHeight),
    these being exact. *)
Theorem C2_clip_rectangles :
  clip_calls (trace (this (snd (Render.render steady "echo"
                (started steady (paged "http://a" (Some (MPNum 2000%Q)))))))) =
    [ Some {| clip_x := 0%Q; clip_y := 0%Q; clip_width := 800%Q; clip_height := 2000%Q |};
      Some {| clip_x := 0%Q; clip_y := 1900%Q; clip_width := 800%Q; clip_height := 2100%Q |};
      Some {| clip_x := 0%Q; clip_y := 3900%Q; clip_width := 800%Q; clip_height := 600%Q |} ]
  /\ (forall boxWidth boxHeight height : Q,
        let count := Render.sliceCount boxHeight height in
        (inject_Z (count - 1) < binary64 (boxHeight / height))%Q
        /\ (binary64 (boxHeight / height) <= inject_Z count)%Q
        /\ List.length (Render.clips boxWidth boxHeight height) = Z.to_nat count
        /\ ((0 < height)%Q -> representable (boxHeight / height) ->
            (inject_Z (count - 1) * height < boxHeight)%Q
            /\ (boxHeight <= inject_Z count * height)%Q)
        /\ (Render.exact_clips boxHeight height ->
            forall i c,
              nth_error (Render.clips boxWidth boxHeight height) i = Some c ->
              0 < i ->
              clip_y c = (inject_Z (Z.of_nat i) * height - 100)%Q
              /\ clip_height c
                 = (Qmin height (boxHeight - inject_Z (Z.of_nat i) * height) + 100)%Q))
  /\ (let boxHeight := binary64 (30003 # 10) in
      let height := binary64 (10001 # 10) in
      Render.sliceCount boxHeight height = 3%Z
      /\ (3 * height < boxHeight)%Q
      /\ Qceiling (boxHeight / height) = 4%Z).
Proof.
  split; [vm_compute; reflexivity|]. split.
  - intros boxWidth boxHeight height count.
    destruct (sliceCount_rounded boxHeight height) as [Hlo Hhi].
    split; [exact Hlo|]. split; [exact Hhi|]. split; [apply clips_length|]. split.
    + intros Hpos Hexact. exact (sliceCount_ceiling boxHeight height Hpos Hexact).
    + intros _ i c Hnth Hi. apply clips_nth in Hnth. subst c.
      unfold Render.clipAt. destruct i as [|i]; [lia|]. split; reflexivity.
  - cbv zeta. split; [vm_compute; reflexivity|]. split; vm_compute; reflexivity.
Qed.

(** For 4500 and 2000 the quotient and the arithmetic of the loop are
    exact: the count is between the bounds, and the last slice is
    {y: 3900, height: 600}. *)
Lemma C2_witness :
  (0 < 2000)%Q /\ representable (4500 / 2000) /\ Render.exact_clips 4500 2000
  /\ (inject_Z (Render.sliceCount 4500 2000 - 1) * 2000 < 4500)%Q
  /\ (4500 <= inject_Z (Render.sliceCount 4500 2000) * 2000)%Q
  /\ (forall c, nth_error (Render.clips 800 4500 2000) 2 = Some c ->
        clip_y c = (inject_Z (Z.of_nat 2) * 2000 - 100)%Q
        /\ clip_height c = (Qmin 2000 (4500 - inject_Z (Z.of_nat 2) * 2000) + 100)%Q).
Proof.
  assert (Hpos : (0 < 2000)%Q) by reflexivity.
  split; [exact Hpos|]. split; [exact quotient_exact|]. split; [exact whole_pixels_exact|].
  destruct (proj1 (proj2 C2_clip_rectangles) 800%Q 4500%Q 2000%Q)
    as (_ & _ & _ & Hbounds & Hclips).
  destruct (Hbounds Hpos quotient_exact) as [Hlo Hhi].
  split; [exact Hlo|]. split; [exact Hhi|].
  intros c Hc. exact (Hclips whole_pixels_exact 2 c Hc (Nat.lt_0_succ 1)).
Defined.

(** The third clip rectangle of the 4500 / 2000 capture is 600 high, not
    700. *)
Lemma C2_counterexample :
  exists c,
    nth_error (clip_calls (trace (this (snd (Render.render steady "echo"
                 (started steady (paged "http://a" (Some (MPNum 2000%Q))))))))) 2 = Some (Some c)
    /\ clip_y c = 3900%Q
    /\ ~ Qeq (clip_height c) 700%Q.
Proof.
  eexists. split; [vm_compute; reflexivity|]. split; [reflexivity|].
  vm_compute. discriminate.
Qed.

(** * Encoding options *)

Lemma makeOptions_png (d : Data.screenshot) :
  Data.type d = Some png -> Options.quality (Render.makeOptions d) = None.
Proof. intros H. unfold Render.makeOptions. simpl. now rewrite H. Qed.

Lemma makeOptions_defaults (d : Data.screenshot) :
  Data.type d = None -> Data.quality d = None -> Data.encoding d = None ->
  Options.type (Render.makeOptions d) = jpeg
  /\ Options.quality (Render.makeOptions d) = Some 90%Q
  /\ Options.encoding (Render.makeOptions d) = binary.
Proof. intros Ht Hq He. unfold Render.makeOptions. simpl. now rewrite Ht, Hq, He. Qed.

(** C6 (failing input). [{ type: 'png', quality: 90, multiPage: true }]:
    the element captures of the paginated branch are handed the
    parameter object itself, with quality 90 still in it, and for
    [{ multiPage: true }] they are handed neither a type nor a quality
    nor an encoding, while the single-image branch on the same
    parameters is handed [options] with the quality dropped. *)
Theorem C6_paginated_capture_bypasses_options :
  (exists e d,
     In (Drv.element_screenshot e d)
        (trace (this (snd (Render.render steady "echo"
                  (started steady (png90 "http://a" (Some (MPBool true))))))))
     /\ Data.type d = Some png /\ Data.quality d = Some 90%Q)
  /\ (exists e d,
     In (Drv.element_screenshot e d)
        (trace (this (snd (Render.render steady "echo"
                  (started steady (paged "http://a" (Some (MPBool true))))))))
     /\ Data.type d = None /\ Data.quality d = None /\ Data.encoding d = None)
  /\ (exists p o,
     In (Drv.page_screenshot p o)
        (trace (this (snd (Render.render steady "echo"
                  (started steady (png90 "http://a" None))))))
     /\ Options.type o = png /\ Options.quality o = None).
Proof.
  split; [|split].
  - eexists _, _. split; [|split].
    + vm_compute. do 8 right. left. reflexivity.
    + reflexivity.
    + reflexivity.
  - eexists _, _. split; [|split; [|split]].
    + vm_compute. do 8 right. left. reflexivity.
    + reflexivity.
    + reflexivity.
    + reflexivity.
  - eexists _, _. split; [|split].
    + vm_compute. do 8 right. left. reflexivity.
    + reflexivity.
    + reflexivity.
Qed.

(** * Dispatch and retry *)

Section Dispatch.
Context (drvs : nat -> Driver) (randomUUID : nat -> string).

(** Every [task] draws one UUID: the counter counts the dispatches. *)
Lemma task_dispatches_once (h : Heap Puppeteer.t) :
  Puppeteer.uuids (this (snd (Puppeteer.task drvs randomUUID h)))
  = S (Puppeteer.uuids (this h)).
Proof.
  unfold Puppeteer.task. destruct (Puppeteer.list_ (this h)) as [|browser rest]; [reflexivity|].
  destruct (Puppeteer.on_browser _ _ h) as [[image browser'] d]. reflexivity.
Qed.

(** A rejected first dispatch is the outcome of [screenshot]. *)
Lemma screenshot_rejects_with_first (h h' : Heap Puppeteer.t) (e : Err) :
  Puppeteer.task drvs randomUUID h = (Throw e, h') ->
  Puppeteer.screenshot drvs randomUUID h = (Throw e, h').
Proof. intros H. unfold Puppeteer.screenshot. now rewrite (bind_Throw _ _ _ _ _ H). Qed.

(** A first dispatch that resolves to an array or a [Buffer] is the
    outcome of [screenshot]. *)
Lemma screenshot_returns_first (h h' : Heap Puppeteer.t) (r : RenderResult) :
  Puppeteer.task drvs randomUUID h = (Ok r, h') ->
  Puppeteer.Array_isArray r || Puppeteer.Buffer_isBuffer r = true ->
  Puppeteer.screenshot drvs randomUUID h = (Ok r, h').
Proof.
  intros H Hr. unfold Puppeteer.screenshot. rewrite (bind_Ok _ _ _ _ _ H). now rewrite Hr.
Qed.

(** The second dispatch is made when the first resolves to something
    else, and then its outcome is the outcome of [screenshot]. *)
Lemma screenshot_retries_on_other (h h' : Heap Puppeteer.t) (r : RenderResult) :
  Puppeteer.task drvs randomUUID h = (Ok r, h') ->
  Puppeteer.Array_isArray r || Puppeteer.Buffer_isBuffer r = false ->
  Puppeteer.screenshot drvs randomUUID h
  = Puppeteer.task drvs randomUUID
      (on_this (Puppeteer.with_console
                  (fun c => c ++ ["[chrome] first screenshot failed, retrying~"])) h').
Proof.
  intros H Hr. unfold Puppeteer.screenshot. rewrite (bind_Ok _ _ _ _ _ H). rewrite Hr.
  erewrite bind_Ok by reflexivity. reflexivity.
Qed.

(** One call of [screenshot] dispatches once or twice. *)
Lemma screenshot_dispatches_at_most_twice (h : Heap Puppeteer.t) :
  let n := Puppeteer.uuids (this (snd (Puppeteer.screenshot drvs randomUUID h))) in
  S (Puppeteer.uuids (this h)) <= n <= S (S (Puppeteer.uuids (this h))).
Proof.
  cbv zeta. pose proof (task_dispatches_once h) as H1.
  destruct (Puppeteer.task drvs randomUUID h) as [[r|e|] h1] eqn:E1; simpl in H1.
  - destruct (Puppeteer.Array_isArray r || Puppeteer.Buffer_isBuffer r) eqn:Hr.
    + rewrite (screenshot_returns_first h h1 r E1 Hr). simpl. lia.
    + rewrite (screenshot_retries_on_other h h1 r E1 Hr).
      rewrite task_dispatches_once. simpl. lia.
  - rewrite (screenshot_rejects_with_first h h1 e E1). simpl. lia.
  - unfold Puppeteer.screenshot. rewrite (bind_Pending _ _ _ _ E1). simpl. lia.
Qed.

End Dispatch.

(** C1 (failing input). One browser whose first navigation is rejected
    and whose later ones succeed: [screenshot] rejects with the error of
    the first dispatch after a single dispatch, although dispatching the
    same task again from the state it leaves resolves to an image. *)
Theorem C1_rejection_is_not_retried :
  let h := ready flaky (plain "http://a") in
  let out := Puppeteer.screenshot (fun _ => flaky) uuid h in
  fst out = Throw (DriverError 1)
  /\ Puppeteer.uuids (this (snd out)) = S (Puppeteer.uuids (this h))
  /\ fst (Puppeteer.task (fun _ => flaky) uuid (snd out)) = Ok (Single (Buffer [137; 80; 78; 71])).
Proof. vm_compute. repeat split. Qed.

(** The retry is taken by a capture that succeeded with base64 text. *)
Lemma base64_capture_is_dispatched_twice :
  let h := ready textual (plain "http://a") in
  let out := Puppeteer.screenshot (fun _ => textual) uuid h in
  fst out = Ok (Single (Base64 "iVBORw0KGgo="))
  /\ Puppeteer.uuids (this (snd out)) = S (S (Puppeteer.uuids (this h))).
Proof. vm_compute. repeat split. Qed.

(** * Crash replacement *)

Lemma findIndex_splice (x : nat) (l : list RenderObj) :
  match Puppeteer.findIndex x l with
  | Some i => Puppeteer.splice i l
  | None => l
  end = remove_first x l.
Proof.
  induction l as [|b l IH]; [reflexivity|]. simpl.
  destruct (Nat.eqb (id b) x); [reflexivity|].
  destruct (Puppeteer.findIndex x l) as [i|]; simpl in *.
  - rewrite <- IH. reflexivity.
  - now rewrite <- IH.
Qed.

Lemma findIndex_None (x : nat) (l : list RenderObj) :
  Puppeteer.findIndex x l = None <-> ~ In x (ids l).
Proof.
  induction l as [|b l IH]; simpl.
  - split; [intros _ []|reflexivity].
  - destruct (Nat.eqb_spec (id b) x) as [E|N].
    + split; [discriminate|]. intros H. exfalso. apply H. now left.
    + destruct (Puppeteer.findIndex x l); simpl.
      * split; [discriminate|]. intros H. exfalso.
        assert (Hx : ~ In x (ids l)) by (intros Hin; apply H; now right).
        apply IH in Hx. discriminate.
      * split; [|reflexivity]. intros _ [E|Hin]; [now apply N|].
        now apply (proj1 IH).
Qed.

Lemma remove_first_absent (x : nat) (l : list RenderObj) :
  ~ In x (ids l) -> remove_first x l = l.
Proof.
  induction l as [|b l IH]; [reflexivity|]. simpl. intros H.
  destruct (Nat.eqb_spec (id b) x) as [E|N]; [exfalso; apply H; now left|].
  rewrite IH; [reflexivity|]. intros Hin. apply H. now right.
Qed.

Lemma remove_first_length (x : nat) (l : list RenderObj) :
  In x (ids l) -> S (List.length (remove_first x l)) = List.length l.
Proof.
  induction l as [|b l IH]; simpl; [intros []|].
  destruct (Nat.eqb_spec (id b) x) as [E|N]; [reflexivity|].
  intros [E|Hin]; [contradiction|]. simpl. now rewrite IH.
Qed.

Lemma remove_first_incl (x y : nat) (l : list RenderObj) :
  In y (ids (remove_first x l)) -> In y (ids l).
Proof.
  induction l as [|b l IH]; simpl; [tauto|].
  destruct (Nat.eqb (id b) x); simpl; [now right|].
  intros [E|Hin]; [now left | right; now apply IH].
Qed.

Lemma remove_first_NoDup (x : nat) (l : list RenderObj) :
  NoDup (ids l) -> NoDup (ids (remove_first x l)) /\ ~ In x (ids (remove_first x l)).
Proof.
  induction l as [|b l IH]; simpl; intros Hnd.
  - split; [constructor | tauto].
  - inversion Hnd as [|? ? Hnotin Hnd']; subst.
    destruct (Nat.eqb_spec (id b) x) as [E|N].
    + split; [exact Hnd' | now rewrite <- E].
    + destruct (IH Hnd') as [IH1 IH2]. simpl. split.
      * constructor; [|exact IH1]. intros Hin. apply Hnotin.
        now apply remove_first_incl in Hin.
      * intros [E|Hin]; [now apply N | now apply IH2].
Qed.

Lemma remove_first_Forall (P : RenderObj -> Prop) (x : nat) (l : list RenderObj) :
  Forall P l -> Forall P (remove_first x l).
Proof.
  induction 1 as [|b l Hb Hl IH]; simpl; [constructor|].
  destruct (Nat.eqb (id b) x); [exact Hl | now constructor].
Qed.

Section Rotation.
Context (drvs : nat -> Driver) (randomUUID : nat -> string).

Lemma init_resolves (drv : Driver) (h : Heap RenderObj) :
  settles drv (trace (this h)) Drv.launch = None ->
  fst (Render.init drv h) = Ok tt /\ id (this (snd (Render.init drv h))) = id (this h).
Proof.
  intros Hl. split; [|apply (init_same_task drv h)].
  unfold Render.init, bind, call. rewrite Hl. apply detached_Ok.
Qed.

(** [launch] when the new browser starts. *)
Lemma launch_resolves (h : Heap Puppeteer.t) :
  settles (drvs (Puppeteer.index (this h))) [] Drv.launch = None ->
  exists b d,
    Puppeteer.launch drvs h
    = (Ok tt, {| this := Puppeteer.with_list_ (fun l => l ++ [b])
                           (Puppeteer.with_index (S (Puppeteer.index (this h))) (this h));
                 data := d |})
    /\ id b = Puppeteer.index (this h).
Proof.
  intros Hl. unfold Puppeteer.launch, Puppeteer.on_browser.
  set (h0 := {| this := Render.new (Puppeteer.index (this h)); data := data h |}).
  destruct (init_resolves (drvs (Puppeteer.index (this h))) h0 Hl) as [Hok Hid].
  destruct (Render.init (drvs (Puppeteer.index (this h))) h0) as [r hb].
  simpl in Hok, Hid. subst r. now exists (this hb), (data hb).
Qed.

(** [launch] never puts anything but the new browser into the rotation. *)
Lemma launch_rotation (h : Heap Puppeteer.t) :
  let P := this h in
  let P' := this (snd (Puppeteer.launch drvs h)) in
  Puppeteer.index P' = S (Puppeteer.index P)
  /\ (Puppeteer.list_ P' = Puppeteer.list_ P
      \/ exists b, id b = Puppeteer.index P /\ Puppeteer.list_ P' = Puppeteer.list_ P ++ [b]).
Proof.
  cbv zeta. unfold Puppeteer.launch, Puppeteer.on_browser.
  set (h0 := {| this := Render.new (Puppeteer.index (this h)); data := data h |}).
  pose proof (init_same_task (drvs (Puppeteer.index (this h))) h0) as (Hid & _).
  destruct (Render.init (drvs (Puppeteer.index (this h))) h0) as [[[]|e|] hb]; simpl in *.
  - split; [reflexivity|]. right. now exists (this hb).
  - split; [reflexivity|]. now left.
  - split; [reflexivity|]. now left.
Qed.

Lemma rotation_ok_grow (P : Puppeteer.t) (l : list RenderObj) (n : nat) :
  rotation_ok P ->
  (l = Puppeteer.list_ P
   \/ exists b, id b = Puppeteer.index P /\ l = Puppeteer.list_ P ++ [b]) ->
  n = S (Puppeteer.index P) ->
  Forall (fun b => id b < n) l /\ NoDup (ids l).
Proof.
  intros [Hbelow Hnd] Hl ->. unfold ids_below in Hbelow.
  destruct Hl as [-> | (b & Hb & ->)].
  - split; [|exact Hnd]. eapply Forall_impl; [|exact Hbelow]. simpl. intros; lia.
  - split.
    + apply Forall_app. split.
      * eapply Forall_impl; [|exact Hbelow]. simpl. intros; lia.
      * constructor; [lia | constructor].
    + unfold ids. rewrite map_app. simpl.
      apply NoDup_app; [exact Hnd | repeat constructor; simpl; tauto |].
      intros y Hy [<-|[]]. rewrite Hb in Hy. unfold ids in Hy. apply in_map_iff in Hy.
      destruct Hy as (c & Hc & Hin). rewrite Forall_forall in Hbelow.
      specialize (Hbelow c Hin). lia.
Qed.

Lemma launch_rotation_ok (h : Heap Puppeteer.t) :
  rotation_ok (this h) -> rotation_ok (this (snd (Puppeteer.launch drvs h))).
Proof.
  intros Hok. destruct (launch_rotation h) as [Hidx Hl].
  unfold rotation_ok, ids_below. rewrite Hidx.
  apply (rotation_ok_grow (this h)); [exact Hok | | reflexivity].
  destruct Hl as [-> | (b & Hb & ->)]; [now left | right; now exists b].
Qed.

Lemma spliced_rotation_ok (x : nat) (P : Puppeteer.t) :
  rotation_ok P -> rotation_ok (Puppeteer.with_list_ (fun _ => remove_first x (Puppeteer.list_ P)) P).
Proof.
  intros [Hbelow Hnd]. split.
  - unfold ids_below. simpl. now apply remove_first_Forall.
  - simpl. now apply remove_first_NoDup.
Qed.

(** The listener, in one step: the entry is spliced out, then [launch];
    a rejection of the launch goes on record. *)
Lemma browserCrash_unfold (x : nat) (h : Heap Puppeteer.t) :
  Puppeteer.browserCrash drvs x h
  = detached (fun e => Puppeteer.with_unhandled (fun l => l ++ [e])) (Puppeteer.launch drvs)
      (on_this (Puppeteer.with_list_ (fun _ => remove_first x (Puppeteer.list_ (this h)))) h).
Proof.
  unfold Puppeteer.browserCrash.
  rewrite (bind_Ok get_this _ h (this h) h) by reflexivity.
  pose proof (findIndex_splice x (Puppeteer.list_ (this h))) as Hs.
  destruct (Puppeteer.findIndex x (Puppeteer.list_ (this h))) as [i|].
  - erewrite bind_Ok by reflexivity.
    unfold on_this, Puppeteer.with_list_. simpl. now rewrite Hs.
  - erewrite bind_Ok by reflexivity.
    unfold on_this, Puppeteer.with_list_. simpl. rewrite <- Hs.
    destruct h as [[i l u c r] d]. reflexivity.
Qed.

Lemma browserCrash_rotation (x : nat) (h : Heap Puppeteer.t) :
  let h1 := on_this (Puppeteer.with_list_ (fun _ => remove_first x (Puppeteer.list_ (this h)))) h in
  Puppeteer.list_ (this (snd (Puppeteer.browserCrash drvs x h)))
  = Puppeteer.list_ (this (snd (Puppeteer.launch drvs h1)))
  /\ Puppeteer.index (this (snd (Puppeteer.browserCrash drvs x h)))
     = Puppeteer.index (this (snd (Puppeteer.launch drvs h1))).
Proof.
  cbv zeta. rewrite browserCrash_unfold. unfold detached.
  now destruct (Puppeteer.launch drvs _) as [[a|e|] h2].
Qed.

Lemma browserCrash_rotation_ok (x : nat) (h : Heap Puppeteer.t) :
  rotation_ok (this h) -> rotation_ok (this (snd (Puppeteer.browserCrash drvs x h))).
Proof.
  intros Hok. destruct (browserCrash_rotation x h) as [Hl Hi].
  pose proof (launch_rotation_ok
                (on_this (Puppeteer.with_list_
                            (fun _ => remove_first x (Puppeteer.list_ (this h)))) h)
                (spliced_rotation_ok x (this h) Hok)) as [Hb Hnd].
  unfold rotation_ok, ids_below in *. rewrite Hl, Hi. now split.
Qed.

Lemma task_index (h : Heap Puppeteer.t) :
  Puppeteer.index (this (snd (Puppeteer.task drvs randomUUID h))) = Puppeteer.index (this h).
Proof.
  unfold Puppeteer.task. destruct (Puppeteer.list_ (this h)) as [|browser rest]; [reflexivity|].
  destruct (Puppeteer.on_browser _ _ h) as [[image browser'] d]. reflexivity.
Qed.

Lemma screenshot_index (h : Heap Puppeteer.t) :
  Puppeteer.index (this (snd (Puppeteer.screenshot drvs randomUUID h)))
  = Puppeteer.index (this h).
Proof.
  pose proof (task_index h) as H1.
  destruct (Puppeteer.task drvs randomUUID h) as [[r|e|] h1] eqn:E1; simpl in H1.
  - destruct (Puppeteer.Array_isArray r || Puppeteer.Buffer_isBuffer r) eqn:Hr.
    + now rewrite (screenshot_returns_first _ _ h h1 r E1 Hr).
    + rewrite (screenshot_retries_on_other _ _ h h1 r E1 Hr). now rewrite task_index.
  - now rewrite (screenshot_rejects_with_first _ _ h h1 e E1).
  - unfold Puppeteer.screenshot. now rewrite (bind_Pending _ _ _ _ E1).
Qed.

Lemma launch_times_index (n : nat) (h : Heap Puppeteer.t) :
  Puppeteer.index (this h) <= Puppeteer.index (this (snd (Puppeteer.launch_times drvs n h))).
Proof.
  revert h. induction n as [|n IH]; intros h; [simpl; lia|].
  simpl. unfold bind. destruct (launch_rotation h) as [Hidx _].
  destruct (Puppeteer.launch drvs h) as [[[]|e|] h1]; simpl in *; try lia.
  specialize (IH h1). lia.
Qed.

(** The next id never goes back. *)
Lemma index_monotone (op : PuppeteerOp) (h : Heap Puppeteer.t) :
  Puppeteer.index (this h)
  <= Puppeteer.index (this (run_puppeteer drvs randomUUID op h)).
Proof.
  destruct op; simpl.
  - apply launch_times_index.
  - destruct (launch_rotation h) as [-> _]. lia.
  - rewrite (proj2 (browserCrash_rotation x h)).
    match goal with
    | |- context [Puppeteer.launch drvs ?hh] => destruct (launch_rotation hh) as [-> _]
    end. simpl. lia.
  - rewrite task_index. lia.
  - rewrite screenshot_index. lia.
Qed.

Lemma path_index (h0 h : Heap Puppeteer.t) :
  rotation_path drvs randomUUID h0 h ->
  Puppeteer.index (this h0) <= Puppeteer.index (this h).
Proof.
  induction 1 as [h | h0 h op _ IH | h0 h d _ IH]; [lia | | exact IH].
  pose proof (index_monotone op h). lia.
Qed.

(** C5 (amended). A crash notification for id X removes the first
    rotation entry with id X if there is one and then launches a
    replacement in either case.  When the replacement browser starts,
    the rotation gains exactly one instance at its end, whose id is the
    next sequential id, the id of no instance in this or in any earlier
    rotation, and the next id moves on by one.  If X was in the
    rotation, X is gone and the length is unchanged; if X was not in the
    rotation, nothing is removed and the rotation is one longer. *)
Theorem C5_crash_replacement (x : nat) (h : Heap Puppeteer.t) :
  rotation_ok (this h) ->
  settles (drvs (Puppeteer.index (this h))) [] Drv.launch = None ->
  let P := this h in
  let P' := this (snd (Puppeteer.browserCrash drvs x h)) in
  exists b,
    Puppeteer.list_ P' = remove_first x (Puppeteer.list_ P) ++ [b]
    /\ id b = Puppeteer.index P
    /\ (forall h0, rotation_ok (this h0) -> rotation_path drvs randomUUID h0 h ->
          ~ In (id b) (ids (Puppeteer.list_ (this h0))))
    /\ Puppeteer.index P' = S (Puppeteer.index P)
    /\ rotation_ok P'
    /\ (In x (ids (Puppeteer.list_ P)) ->
        ~ In x (ids (Puppeteer.list_ P'))
        /\ List.length (Puppeteer.list_ P') = List.length (Puppeteer.list_ P))
    /\ (~ In x (ids (Puppeteer.list_ P)) ->
        Puppeteer.list_ P' = Puppeteer.list_ P ++ [b]
        /\ List.length (Puppeteer.list_ P') = S (List.length (Puppeteer.list_ P))).
Proof.
  intros Hok Hstart P P'.
  assert (Hok' : rotation_ok P') by now apply browserCrash_rotation_ok.
  subst P'. rewrite browserCrash_unfold in *.
  set (h1 := on_this (Puppeteer.with_list_ (fun _ => remove_first x (Puppeteer.list_ (this h)))) h)
    in *.
  destruct (launch_resolves h1 Hstart) as (b & d & Hrun & Hb).
  unfold detached in *. rewrite Hrun in *. simpl in *. fold P in Hb |- *.
  assert (Hnever : forall h0, rotation_ok (this h0) -> rotation_path drvs randomUUID h0 h ->
                     ~ In (id b) (ids (Puppeteer.list_ (this h0)))).
  { intros h0 [Hbelow0 _] Hpath Hin. rewrite Hb in Hin. unfold ids in Hin.
    apply in_map_iff in Hin. destruct Hin as (c & Hc & Hin). unfold ids_below in Hbelow0.
    rewrite Forall_forall in Hbelow0. specialize (Hbelow0 c Hin).
    pose proof (path_index h0 h Hpath) as Hle. fold P in Hle. lia. }
  assert (Hfresh : ~ In (id b) (ids (Puppeteer.list_ P)))
    by exact (Hnever h Hok (path_here _ _ h)).
  destruct Hok as [Hbelow Hnd].
  exists b. split; [reflexivity|]. split; [exact Hb|]. split; [exact Hnever|].
  split; [reflexivity|]. split; [exact Hok'|]. split.
  - intros Hx. split.
    + intros Hin. unfold ids in Hin. rewrite map_app in Hin. apply in_app_or in Hin.
      destruct Hin as [Hin | [E | []]].
      * exact (proj2 (remove_first_NoDup x _ Hnd) Hin).
      * apply Hfresh. rewrite E. exact Hx.
    + rewrite length_app. simpl.
      pose proof (remove_first_length x (Puppeteer.list_ P) Hx) as Hlen. lia.
  - intros Hx. split.
    + now rewrite remove_first_absent.
    + rewrite remove_first_absent by exact Hx. rewrite length_app. simpl. lia.
Qed.

End Rotation.

Section RotationInvariant.
Context (drvs : nat -> Driver) (randomUUID : nat -> string).

Lemma task_rotation_ok (h : Heap Puppeteer.t) :
  rotation_ok (this h) -> rotation_ok (this (snd (Puppeteer.task drvs randomUUID h))).
Proof.
  intros [Hbelow Hnd]. unfold Puppeteer.task, Puppeteer.on_browser.
  unfold ids_below in Hbelow.
  destruct (Puppeteer.list_ (this h)) as [|browser rest] eqn:El.
  - split; [unfold ids_below; simpl; rewrite El; constructor | simpl; rewrite El; constructor].
  - pose proof (render_same_task (drvs (id browser)) (randomUUID (Puppeteer.uuids (this h)))
                  {| this := browser; data := data h |}) as (Hid & _).
    destruct (Render.render _ _ _) as [image hb]. simpl in Hid |- *.
    inversion Hbelow as [|? ? Hb Hrest]; subst.
    simpl in Hnd. inversion Hnd as [|? ? Hnotin Hnd']; subst.
    split.
    + unfold ids_below. simpl. apply Forall_app. split; [exact Hrest|].
      constructor; [rewrite Hid; exact Hb | constructor].
    + simpl. unfold ids. rewrite map_app. simpl. rewrite Hid.
      apply NoDup_app; [exact Hnd' | repeat constructor; simpl; tauto |].
      intros y Hy [<-|[]]. contradiction.
Qed.

Lemma console_rotation_ok (f : list string -> list string) (P : Puppeteer.t) :
  rotation_ok P -> rotation_ok (Puppeteer.with_console f P).
Proof. intros H. exact H. Qed.

Lemma screenshot_rotation_ok (h : Heap Puppeteer.t) :
  rotation_ok (this h) -> rotation_ok (this (snd (Puppeteer.screenshot drvs randomUUID h))).
Proof.
  intros Hok. pose proof (task_rotation_ok h Hok) as H1.
  destruct (Puppeteer.task drvs randomUUID h) as [[r|e|] h1] eqn:E1; simpl in H1.
  - destruct (Puppeteer.Array_isArray r || Puppeteer.Buffer_isBuffer r) eqn:Hr.
    + now rewrite (screenshot_returns_first _ _ h h1 r E1 Hr).
    + rewrite (screenshot_retries_on_other _ _ h h1 r E1 Hr).
      apply task_rotation_ok. exact H1.
  - now rewrite (screenshot_rejects_with_first _ _ h h1 e E1).
  - unfold Puppeteer.screenshot. now rewrite (bind_Pending _ _ _ _ E1).
Qed.

Lemma launch_times_rotation_ok (n : nat) (h : Heap Puppeteer.t) :
  rotation_ok (this h) -> rotation_ok (this (snd (Puppeteer.launch_times drvs n h))).
Proof.
  revert h. induction n as [|n IH]; intros h Hok; [exact Hok|].
  simpl. unfold bind. pose proof (launch_rotation_ok drvs h Hok) as H1.
  destruct (Puppeteer.launch drvs h) as [[[]|e|] h1]; simpl in *; auto.
Qed.

(** Ids are handed out in sequence and never twice: in every state of a
    [Puppeteer] the ids in the rotation are distinct and below the next
    id. *)
Lemma rotation_reach_ok (h : Heap Puppeteer.t) :
  rotation_reach drvs randomUUID h -> rotation_ok (this h).
Proof.
  induction 1 as [d | h op _ IH | h d _ IH].
  - split; [constructor | constructor].
  - destruct op; simpl.
    + apply launch_times_rotation_ok. exact IH.
    + apply launch_rotation_ok. exact IH.
    + apply browserCrash_rotation_ok. exact IH.
    + apply task_rotation_ok. exact IH.
    + apply screenshot_rotation_ok. exact IH.
  - exact IH.
Qed.

End RotationInvariant.

Lemma ready_reach (drv : Driver) (d : Data.screenshot) :
  rotation_reach (fun _ => drv) uuid (ready drv d).
Proof.
  exact (rotation_step (fun _ => drv) uuid _ (op_init None) (rotation_new _ _ d)).
Qed.

(** Browser 0 crashes and is replaced by browser 1; a second
    notification for the id 0, which is already gone, adds browser 2. *)
Lemma C5_counterexample :
  let h1 := snd (Puppeteer.browserCrash (fun _ => steady) 0 (ready steady (plain "http://a"))) in
  let h2 := snd (Puppeteer.browserCrash (fun _ => steady) 0 h1) in
  ids (Puppeteer.list_ (this h1)) = [1]
  /\ ids (Puppeteer.list_ (this h2)) = [1; 2].
Proof. vm_compute. split; reflexivity. Qed.

Lemma C5_witness :
  rotation_ok (this (ready steady (plain "http://a")))
  /\ settles steady [] Drv.launch = None
  /\ exists b,
       Puppeteer.list_ (this (snd (Puppeteer.browserCrash (fun _ => steady) 0
                                      (ready steady (plain "http://a")))))
       = remove_first 0 (Puppeteer.list_ (this (ready steady (plain "http://a")))) ++ [b]
       /\ id b = 1.
Proof.
  assert (Hok : rotation_ok (this (ready steady (plain "http://a"))))
    by (apply (rotation_reach_ok (fun _ => steady) uuid); apply ready_reach).
  split; [exact Hok|]. split; [reflexivity|].
  destruct (C5_crash_replacement (fun _ => steady) uuid 0 (ready steady (plain "http://a"))
              Hok eq_refl) as (b & Hl & Hb & _).
  exists b. split; [exact Hl | exact Hb].
Defined.

(** * The map of page slots *)

Section MapFacts.
Implicit Types (m : list (string * PageInfo)) (k id : string) (v x : PageInfo).

Lemma Map_set_keys id v m :
  map fst (Map_set id v m) = map fst m \/ (~ In id (map fst m) /\ map fst (Map_set id v m) = map fst m ++ [id]).
Proof.
  induction m as [|[k x] m IH]; simpl.
  - right. split; [tauto | reflexivity].
  - destruct (String.eqb_spec k id) as [E|N]; simpl.
    + now left.
    + destruct IH as [IH | [Hnot IH]]; [left | right].
      * now rewrite IH.
      * split; [|now rewrite IH]. intros [E|Hin]; [now apply N | now apply Hnot].
Qed.

Lemma Map_set_NoDup id v m : NoDup (map fst m) -> NoDup (map fst (Map_set id v m)).
Proof.
  intros Hnd. destruct (Map_set_keys id v m) as [-> | [Hnot ->]]; [exact Hnd|].
  apply NoDup_app; [exact Hnd | repeat constructor; simpl; tauto |].
  intros y Hy [<-|[]]. contradiction.
Qed.

Lemma Map_set_length id v m :
  List.length (Map_set id v m) <= S (List.length m).
Proof.
  induction m as [|[k x] m IH]; simpl; [lia|].
  destruct (String.eqb k id); simpl; lia.
Qed.

Lemma Map_set_In id v m k x :
  In (k, x) (Map_set id v m) -> (k = id /\ x = v) \/ In (k, x) m.
Proof.
  induction m as [|[k' x'] m IH]; simpl.
  - intros [E|[]]. left. now inversion E.
  - destruct (String.eqb_spec k' id) as [E|N]; simpl.
    + intros [E'|Hin]; [left | right; now right]. inversion E'; subst. now split.
    + intros [E'|Hin]; [right; now left|]. destruct (IH Hin) as [?|?]; [now left | right; now right].
Qed.

Lemma Map_get_set id v m : Map_get id (Map_set id v m) = Some v.
Proof.
  induction m as [|[k x] m IH]; simpl.
  - now rewrite String.eqb_refl.
  - destruct (String.eqb k id) eqn:E; simpl; rewrite E; [reflexivity | exact IH].
Qed.

Lemma Map_update_set id f v m : Map_update id f (Map_set id v m) = Map_set id (f v) m.
Proof.
  induction m as [|[k x] m IH]; simpl.
  - now rewrite String.eqb_refl.
  - destruct (String.eqb k id) eqn:E; simpl; rewrite E; [reflexivity | now rewrite IH].
Qed.

Lemma Map_get_In id v m : Map_get id m = Some v -> In (id, v) m.
Proof.
  induction m as [|[k x] m IH]; simpl; [discriminate|].
  destruct (String.eqb_spec k id) as [E|N].
  - intros H. inversion H; subst. now left.
  - intros H. right. now apply IH.
Qed.

Lemma In_Map_get k x m : NoDup (map fst m) -> In (k, x) m -> Map_get k m = Some x.
Proof.
  induction m as [|[k' x'] m IH]; simpl; [tauto|].
  intros Hnd [E|Hin].
  - inversion E; subst. now rewrite String.eqb_refl.
  - inversion Hnd as [|? ? Hnot Hnd']; subst.
    destruct (String.eqb_spec k' k) as [E|N].
    + subst. exfalso. apply Hnot. change k with (fst (k, x)). now apply in_map.
    + now apply IH.
Qed.

Lemma Map_delete_keys id m :
  NoDup (map fst m) -> NoDup (map fst (Map_delete id m))
                       /\ forall k x, In (k, x) (Map_delete id m) <-> (In (k, x) m /\ k <> id).
Proof.
  induction m as [|[k' x'] m IH]; simpl; intros Hnd.
  - split; [constructor|]. intros; tauto.
  - inversion Hnd as [|? ? Hnot Hnd']; subst.
    destruct (String.eqb_spec k' id) as [E|N].
    + subst. split; [exact Hnd'|]. intros k x. split.
      * intros Hin. split; [now right|]. intros ->. apply Hnot.
        change id with (fst (id, x)). now apply in_map.
      * intros [[E|Hin] Hne]; [inversion E; subst; contradiction | exact Hin].
    + destruct (IH Hnd') as [IH1 IH2]. split.
      * simpl. constructor; [|exact IH1]. intros Hin. apply Hnot.
        apply in_map_iff in Hin. destruct Hin as ([k x] & Hk & Hin). simpl in Hk.
        apply IH2 in Hin. destruct Hin as [Hin _]. rewrite <- Hk.
        change k with (fst (k, x)). now apply in_map.
      * intros k x. simpl. rewrite IH2. split.
        -- intros [E|[Hin Hne]]; [inversion E; subst; split; [now left | exact N] | split; [now right | exact Hne]].
        -- intros [[E|Hin] Hne]; [now left | right; now split].
Qed.

Lemma Map_delete_length id m : List.length (Map_delete id m) <= List.length m.
Proof.
  induction m as [|[k x] m IH]; simpl; [lia|].
  destruct (String.eqb k id); simpl; lia.
Qed.

Lemma Map_update_keys id f m : map fst (Map_update id f m) = map fst m.
Proof.
  induction m as [|[k x] m IH]; simpl; [reflexivity|].
  destruct (String.eqb k id); simpl; [reflexivity | now rewrite IH].
Qed.

Lemma Map_update_length id f m : List.length (Map_update id f m) = List.length m.
Proof. rewrite <- (length_map fst), Map_update_keys. apply length_map. Qed.

Lemma update_first_keys p f m : map fst (update_first p f m) = map fst m.
Proof.
  induction m as [|[k x] m IH]; simpl; [reflexivity|].
  destruct (p x); simpl; [reflexivity | now rewrite IH].
Qed.

Lemma update_first_length p f m : List.length (update_first p f m) = List.length m.
Proof. rewrite <- (length_map fst), update_first_keys. apply length_map. Qed.

Lemma first_entry_In p m k v : first_entry p m = Some (k, v) -> In (k, v) m /\ p v = true.
Proof. unfold first_entry. intros H. apply find_some in H. exact H. Qed.

Lemma first_entry_None p m : first_entry p m = None -> update_first p (fun i => i) m = m.
Proof.
  unfold first_entry. induction m as [|[k x] m IH]; simpl; [reflexivity|].
  destruct (p x); [discriminate|]. intros H. now rewrite IH.
Qed.

(** With unique keys, the entry a loop stopped at is replaced and every
    other entry is kept. *)
Lemma update_first_In p f m k0 v0 :
  NoDup (map fst m) -> first_entry p m = Some (k0, v0) ->
  forall k x, In (k, x) (update_first p f m)
              <-> (k = k0 /\ x = f v0) \/ (k <> k0 /\ In (k, x) m).
Proof.
  unfold first_entry. induction m as [|[k' x'] m IH]; simpl; [discriminate|].
  intros Hnd Hfirst k x. inversion Hnd as [|? ? Hnot Hnd']; subst.
  destruct (p x') eqn:Ep; simpl.
  - inversion Hfirst; subst. split.
    + intros [E|Hin]; [inversion E; subst; now left|]. right. split; [|now right].
      intros ->. apply Hnot. change k0 with (fst (k0, x)). now apply in_map.
    + intros [[-> ->]|[Hne [E|Hin]]]; [now left | inversion E; subst; contradiction | now right].
  - assert (Hk : k' <> k0).
    { intros ->. apply find_some in Hfirst. destruct Hfirst as [Hin _].
      apply Hnot. change k0 with (fst (k0, v0)). now apply in_map. }
    rewrite (IH Hnd' Hfirst k x). split.
    + intros [E|[H|[Hne Hin]]].
      * inversion E; subst. right. split; [exact Hk | now left].
      * now left.
      * right. split; [exact Hne | now right].
    + intros [H|[Hne [E|Hin]]]; [right; now left | now left | right; right; now split].
Qed.

(** With unique keys, assigning through [Map_get] after the loop hits
    the entry the loop stopped at. *)
Lemma Map_update_update_first p f g m k0 v0 :
  NoDup (map fst m) -> first_entry p m = Some (k0, v0) ->
  Map_update k0 g (update_first p f m) = update_first p (fun i => g (f i)) m
  /\ Map_get k0 (update_first p f m) = Some (f v0).
Proof.
  unfold first_entry. induction m as [|[k' x'] m IH]; simpl; [discriminate|].
  intros Hnd Hfirst. inversion Hnd as [|? ? Hnot Hnd']; subst.
  destruct (p x') eqn:Ep; simpl.
  - inversion Hfirst; subst. now rewrite String.eqb_refl.
  - assert (Hk : k' <> k0).
    { intros ->. apply find_some in Hfirst. destruct Hfirst as [Hin _].
      apply Hnot. change k0 with (fst (k0, v0)). now apply in_map. }
    apply String.eqb_neq in Hk. rewrite Hk.
    destruct (IH Hnd' Hfirst) as [IH1 IH2]. now rewrite IH1, IH2.
Qed.

End MapFacts.

(** * What each pool operation does to slots and timeouts *)

Section PoolEffects.
Context (drv : Driver).

Lemma createNewPage_spec (h : Heap RenderObj) :
  let out := PagePool.createNewPage drv h in
  (exists e, fst out = Throw e /\ core (this (snd out)) = core (this h))
  \/ (exists k v,
        fst out = Ok k /\ timer v = None /\ status v = idle /\ page v = nextPage (this h)
        /\ core (this (snd out)) = (Map_set k v (pool (this h)), timers (this h), nextTimer (this h))).
Proof.
  cbv zeta. unfold PagePool.createNewPage, PagePool.createNewPage_end, bind, send, newPage_answered.
  destruct (settles drv (trace (this h)) Drv.newPage) as [e|].
  - left. exists e. split; reflexivity.
  - right. cbn.
    exists (random drv (trace (this h) ++ [Drv.newPage]) (S (nextPage (this h)))),
      {| page := nextPage (this h); status := idle;
         lastUsed := clock drv (trace (this h) ++ [Drv.newPage]); timer := None |}.
    repeat split.
Qed.

Lemma createPage_spec (h : Heap RenderObj) :
  let out := PagePool.createPage drv h in
  (exists e, fst out = Throw e /\ core (this (snd out)) = core (this h))
  \/ (exists k v,
        fst out = Ok (nextPage (this h)) /\ timer v = None /\ status v = busy
        /\ page v = nextPage (this h)
        /\ core (this (snd out)) = (Map_set k v (pool (this h)), timers (this h), nextTimer (this h))).
Proof.
  cbv zeta. rewrite createPage_whole.
  destruct (createNewPage_spec h) as [(e & He & Hc) | (k & v & Hk & Ht & Hs & Hp & Hc)];
    destruct (PagePool.createNewPage drv h) as [r h1] eqn:E; simpl in *; subst r.
  - left. exists e. rewrite (bind_Throw _ _ _ _ _ E). now split.
  - right. rewrite (bind_Ok _ _ _ _ _ E).
    rewrite (bind_Ok get_this _ h1 (this h1) h1) by reflexivity.
    unfold core in Hc. inversion Hc as [[Hpool Htimers Hnext]].
    rewrite Hpool, Map_get_set.
    erewrite bind_Ok by reflexivity. cbn.
    exists k, (set_status busy v). rewrite Hp. repeat split; try assumption.
    unfold core. simpl. now rewrite Hpool, Map_update_set, Htimers, Hnext.
Qed.

Lemma takeIdle_spec (h : Heap RenderObj) :
  let out := PagePool.takeIdle drv h in
  match first_entry is_idle (pool (this h)) with
  | None => out = (Ok None, h)
  | Some (k0, v0) =>
      fst out = Ok (Some (page v0))
      /\ core (this (snd out))
         = (update_first is_idle
              (fun i => set_lastUsed (clock drv (trace (this h))) (set_status busy i))
              (pool (this h)),
            cleared (timer v0) (timers (this h)), nextTimer (this h))
  end.
Proof.
  cbv zeta. unfold PagePool.takeIdle.
  rewrite (bind_Ok get_this _ h (this h) h) by reflexivity.
  destruct (first_entry is_idle (pool (this h))) as [[k0 v0]|]; [|reflexivity].
  unfold bind, Date_now, modify_this, clearTimeout, ret.
  destruct (timer v0); split; reflexivity.
Qed.

Lemma startIdleTimer_spec (k0 : string) (v : PageInfo) (h : Heap RenderObj) :
  Map_get k0 (pool (this h)) = Some v ->
  core (this (snd (PagePool.startIdleTimer k0 h)))
  = (Map_update k0 (set_timer (Some (nextTimer (this h)))) (pool (this h)),
     cleared (timer v) (timers (this h)) ++ [(nextTimer (this h), k0)],
     S (nextTimer (this h))).
Proof.
  intros Hget. unfold PagePool.startIdleTimer.
  rewrite (bind_Ok get_this _ h (this h) h) by reflexivity.
  rewrite Hget. unfold bind, clearTimeout, modify_this, setTimeout.
  destruct (timer v); reflexivity.
Qed.

Lemma releasePage_spec (p : Page) (h : Heap RenderObj) :
  let out := PagePool.releasePage drv p h in
  match first_entry (has_page p) (pool (this h)) with
  | None => out = (Ok tt, h)
  | Some (k0, v0) =>
      NoDup (map fst (pool (this h))) ->
      core (this (snd out))
      = (update_first (has_page p)
           (fun i => set_timer (Some (nextTimer (this h)))
                       (set_lastUsed (clock drv (trace (this h))) (set_status idle i)))
           (pool (this h)),
         cleared (timer v0) (timers (this h)) ++ [(nextTimer (this h), k0)],
         S (nextTimer (this h)))
  end.
Proof.
  cbv zeta. unfold PagePool.releasePage.
  rewrite (bind_Ok get_this _ h (this h) h) by reflexivity.
  destruct (first_entry (has_page p) (pool (this h))) as [[k0 v0]|] eqn:Efirst; [|reflexivity].
  intros Hnd.
  erewrite bind_Ok by reflexivity. cbv beta.
  erewrite bind_Ok by reflexivity. cbv beta.
  destruct (Map_update_update_first (has_page p)
              (fun i => set_lastUsed (clock drv (trace (this h))) (set_status idle i))
              (set_timer (Some (nextTimer (this h)))) (pool (this h)) k0 v0 Hnd Efirst)
    as [Hupd Hget].
  match goal with
  | |- core (this (snd (PagePool.startIdleTimer k0 ?hh))) = _ =>
      rewrite (startIdleTimer_spec k0 _ hh Hget)
  end.
  simpl. now rewrite Hupd.
Qed.

Lemma removePage_spec (p : Page) (h : Heap RenderObj) :
  let out := PagePool.removePage drv p h in
  match first_entry (has_page p) (pool (this h)) with
  | None => out = (Ok tt, h)
  | Some (k0, v0) =>
      core (this (snd out))
      = (Map_delete k0 (pool (this h)), cleared (timer v0) (timers (this h)), nextTimer (this h))
  end.
Proof.
  cbv zeta. rewrite removePage_whole.
  rewrite (bind_Ok get_this _ h (this h) h) by reflexivity.
  destruct (first_entry (has_page p) (pool (this h))) as [[k0 v0]|]; [|reflexivity].
  destruct (timer v0);
    unfold bind, clearTimeout, modify_this, note, catch_noop, call, ret; cbn;
    match goal with
    | |- context [settles drv ?tr ?c] => destruct (settles drv tr c)
    end; reflexivity.
Qed.

Lemma idleTimerCallback_spec (k : string) (h : Heap RenderObj) :
  core (this (snd (PagePool.idleTimerCallback drv k h)))
  = (match Map_get k (pool (this h)) with
     | Some info => if is_idle info then Map_delete k (pool (this h)) else pool (this h)
     | None => pool (this h)
     end, timers (this h), nextTimer (this h)).
Proof.
  rewrite idleTimerCallback_whole.
  rewrite (bind_Ok get_this _ h (this h) h) by reflexivity.
  destruct (Map_get k (pool (this h))) as [info|]; [|reflexivity].
  destruct (is_idle info); [|reflexivity].
  unfold bind, catch_noop, call, modify_this.
  destruct (settles drv (trace (this h)) (Drv.close (page info))); reflexivity.
Qed.

Lemma fire_spec (t : TimerId) (h : Heap RenderObj) :
  let out := PagePool.fire drv t h in
  match find (fun e => Nat.eqb (fst e) t) (timers (this h)) with
  | None => out = (Ok tt, h)
  | Some (_, k) =>
      core (this (snd out))
      = (match Map_get k (pool (this h)) with
         | Some info => if is_idle info then Map_delete k (pool (this h)) else pool (this h)
         | None => pool (this h)
         end, cleared (Some t) (timers (this h)), nextTimer (this h))
  end.
Proof.
  cbv zeta. rewrite fire_whole.
  rewrite (bind_Ok get_this _ h (this h) h) by reflexivity.
  destruct (find (fun e => Nat.eqb (fst e) t) (timers (this h))) as [[t' k]|]; [|reflexivity].
  erewrite bind_Ok by reflexivity. cbv beta.
  rewrite idleTimerCallback_spec. reflexivity.
Qed.

End PoolEffects.

(** * The slot invariant *)

Lemma pool_inv_core (r : RenderObj) slots ts next :
  core r = (slots, ts, next) ->
  runtime_ok slots ts next -> slots_ok slots ts -> pool_inv r.
Proof.
  unfold core, pool_inv. intros H. inversion H; subst. now split.
Qed.

Lemma pool_inv_same_core (r r' : RenderObj) : core r' = core r -> pool_inv r -> pool_inv r'.
Proof. intros H [Hr Hs]. now apply (pool_inv_core r' _ _ _ H). Qed.

Section Timeouts.
Implicit Types (ts : list (TimerId * string)) (t : TimerId) (o : option TimerId).

Lemma cleared_In o ts t k :
  In (t, k) (cleared o ts) <-> In (t, k) ts /\ o <> Some t.
Proof.
  destruct o as [t0|]; simpl.
  - rewrite filter_In. simpl. split.
    + intros [Hin Hne]. split; [exact Hin|]. intros E. inversion E; subst.
      now rewrite Nat.eqb_refl in Hne.
    + intros [Hin Hne]. split; [exact Hin|].
      destruct (Nat.eqb_spec t t0) as [->|]; [now contradiction Hne | reflexivity].
  - split; [intros H; split; [exact H | discriminate] | tauto].
Qed.

Lemma cleared_handles o ts t :
  In t (map fst (cleared o ts)) <-> In t (map fst ts) /\ o <> Some t.
Proof.
  rewrite !in_map_iff. split.
  - intros ([t' k] & E & Hin). simpl in E. subst t'. apply cleared_In in Hin.
    destruct Hin as [Hin Hne]. split; [now exists (t, k) | exact Hne].
  - intros [([t' k] & E & Hin) Hne]. simpl in E. subst t'.
    exists (t, k). split; [reflexivity|]. apply cleared_In. now split.
Qed.

Lemma cleared_NoDup o ts : NoDup (map fst ts) -> NoDup (map fst (cleared o ts)).
Proof.
  destruct o as [t0|]; simpl; [|tauto].
  induction ts as [|[t k] ts IH]; simpl; intros Hnd; [constructor|].
  inversion Hnd as [|? ? Hnot Hnd']; subst.
  destruct (negb (Nat.eqb t t0)); simpl; [|now apply IH].
  constructor; [|now apply IH].
  intros Hin. apply Hnot. apply in_map_iff in Hin. destruct Hin as ([t' k'] & E & Hin).
  simpl in E. subst t'. apply filter_In in Hin. destruct Hin as [Hin _].
  change t with (fst (t, k')). now apply in_map.
Qed.

Lemma armed_cleared o ts info : armed (cleared o ts) info -> armed ts info.
Proof.
  intros (t & Ht & Hin). exists t. split; [exact Ht|]. apply cleared_handles in Hin. tauto.
Qed.

(** Clearing a timeout leaves alone every idle slot that does not hold
    it while it is pending, and every busy slot. *)
Lemma slot_ok_cleared o ts info :
  (status info = idle ->
   forall t, o = Some t -> timer info = Some t -> ~ In t (map fst ts)) ->
  slot_ok ts info -> slot_ok (cleared o ts) info.
Proof.
  intros Hother. unfold slot_ok. destruct (status info).
  - intros [(t & Ht & Hin) | Hnone]; [left | now right].
    exists t. split; [exact Ht|]. apply cleared_handles. split; [exact Hin|].
    intros ->. exact (Hother eq_refl t eq_refl Ht Hin).
  - intros Hna Ha. apply Hna. now apply armed_cleared in Ha.
Qed.

(** Setting a timeout with a new handle leaves alone every slot that
    does not hold that handle. *)
Lemma slot_ok_added ts info t k :
  timer info <> Some t -> slot_ok ts info -> slot_ok (ts ++ [(t, k)]) info.
Proof.
  intros Hne. unfold slot_ok, armed. rewrite map_app. simpl.
  destruct (status info).
  - intros [(t' & Ht & Hin) | Hnone]; [left | now right].
    exists t'. split; [exact Ht|]. apply in_or_app. now left.
  - intros Hna (t' & Ht & Hin). apply in_app_or in Hin.
    destruct Hin as [Hin | [E | []]].
    + apply Hna. now exists t'.
    + subst t'. contradiction.
Qed.

(** A slot whose timeout has just been cleared is not armed. *)
Lemma not_armed_cleared ts info : ~ armed (cleared (timer info) ts) info.
Proof.
  intros (t & Ht & Hin). apply cleared_handles in Hin. destruct Hin as [_ Hne]. now apply Hne.
Qed.

End Timeouts.

Section SlotInvariant.
Implicit Types (slots : list (string * PageInfo)) (ts : list (TimerId * string)).

(** Two slots under different keys do not hold the same pending
    timeout. *)
Lemma other_slot_misses slots ts next k0 v0 k x t :
  runtime_ok slots ts next ->
  In (k0, v0) slots -> In (k, x) slots -> k <> k0 ->
  timer v0 = Some t -> timer x = Some t -> ~ In t (map fst ts).
Proof.
  intros Hr H0 Hx Hne Ht0 Htx Hin. apply in_map_iff in Hin.
  destruct Hin as ([t' k'] & E & Hin). simpl in E. subst t'.
  pose proof (held_closes _ _ _ Hr k0 v0 t k' H0 Ht0 Hin) as E0.
  pose proof (held_closes _ _ _ Hr k x t k' Hx Htx Hin) as Ex.
  congruence.
Qed.

Lemma inv_set slots ts next k v :
  runtime_ok slots ts next -> slots_ok slots ts -> timer v = None ->
  runtime_ok (Map_set k v slots) ts next /\ slots_ok (Map_set k v slots) ts.
Proof.
  intros Hr Hs Hv. split.
  - constructor.
    + apply Map_set_NoDup. exact (keys_unique _ _ _ Hr).
    + exact (handles_unique _ _ _ Hr).
    + exact (handles_old _ _ _ Hr).
    + intros id info t Hin Ht. apply Map_set_In in Hin.
      destruct Hin as [[_ ->] | Hin]; [congruence|].
      exact (held_old _ _ _ Hr id info t Hin Ht).
    + intros id info t id' Hin Ht Hpend. apply Map_set_In in Hin.
      destruct Hin as [[_ ->] | Hin]; [congruence|].
      exact (held_closes _ _ _ Hr id info t id' Hin Ht Hpend).
  - intros id info Hin. apply Map_set_In in Hin.
    destruct Hin as [[_ ->] | Hin]; [|exact (Hs id info Hin)].
    unfold slot_ok. destruct (status v); [now right|].
    intros (t & Ht & _). congruence.
Qed.

Lemma inv_take slots ts next k0 v0 (f : PageInfo -> PageInfo) :
  (forall i, timer (f i) = timer i) -> (forall i, status (f i) = busy) ->
  runtime_ok slots ts next -> slots_ok slots ts ->
  first_entry is_idle slots = Some (k0, v0) ->
  runtime_ok (update_first is_idle f slots) (cleared (timer v0) ts) next
  /\ slots_ok (update_first is_idle f slots) (cleared (timer v0) ts).
Proof.
  intros Hft Hfs Hr Hs Hfirst.
  pose proof (update_first_In is_idle f slots k0 v0 (keys_unique _ _ _ Hr) Hfirst) as Hin'.
  destruct (first_entry_In _ _ _ _ Hfirst) as [H0 _].
  split.
  - constructor.
    + rewrite update_first_keys. exact (keys_unique _ _ _ Hr).
    + apply cleared_NoDup. exact (handles_unique _ _ _ Hr).
    + intros t id Hin. apply cleared_In in Hin. exact (handles_old _ _ _ Hr t id (proj1 Hin)).
    + intros id info t Hin Ht. apply Hin' in Hin. destruct Hin as [[-> ->] | [_ Hin]].
      * rewrite Hft in Ht. exact (held_old _ _ _ Hr k0 v0 t H0 Ht).
      * exact (held_old _ _ _ Hr id info t Hin Ht).
    + intros id info t id' Hin Ht Hpend. apply cleared_In in Hpend. destruct Hpend as [Hpend _].
      apply Hin' in Hin. destruct Hin as [[-> ->] | [_ Hin]].
      * rewrite Hft in Ht. exact (held_closes _ _ _ Hr k0 v0 t id' H0 Ht Hpend).
      * exact (held_closes _ _ _ Hr id info t id' Hin Ht Hpend).
  - intros id info Hin. apply Hin' in Hin. destruct Hin as [[-> ->] | [Hne Hin]].
    + unfold slot_ok. rewrite Hfs. intros (t & Ht & Hpend).
      rewrite Hft in Ht. apply (not_armed_cleared ts v0). now exists t.
    + apply slot_ok_cleared; [|exact (Hs id info Hin)].
      intros _ t Ht0 Htx. exact (other_slot_misses _ _ _ _ _ _ _ _ Hr H0 Hin Hne Ht0 Htx).
Qed.

Lemma inv_release slots ts next p k0 v0 (g : PageInfo -> PageInfo) :
  (forall i, timer (g i) = Some next) -> (forall i, status (g i) = idle) ->
  runtime_ok slots ts next -> slots_ok slots ts ->
  first_entry (has_page p) slots = Some (k0, v0) ->
  runtime_ok (update_first (has_page p) g slots) (cleared (timer v0) ts ++ [(next, k0)]) (S next)
  /\ slots_ok (update_first (has_page p) g slots) (cleared (timer v0) ts ++ [(next, k0)]).
Proof.
  intros Hgt Hgs Hr Hs Hfirst.
  pose proof (update_first_In (has_page p) g slots k0 v0 (keys_unique _ _ _ Hr) Hfirst) as Hin'.
  destruct (first_entry_In _ _ _ _ Hfirst) as [H0 _].
  assert (Hnew : ~ In next (map fst (cleared (timer v0) ts))).
  { intros Hin. apply cleared_handles in Hin. destruct Hin as [Hin _].
    apply in_map_iff in Hin. destruct Hin as ([t k] & E & Hin). simpl in E. subst t.
    pose proof (handles_old _ _ _ Hr next k Hin). lia. }
  split.
  - constructor.
    + rewrite update_first_keys. exact (keys_unique _ _ _ Hr).
    + rewrite map_app. simpl. apply NoDup_app.
      * apply cleared_NoDup. exact (handles_unique _ _ _ Hr).
      * repeat constructor. simpl. tauto.
      * intros y Hy [<-|[]]. contradiction.
    + intros t id Hin. apply in_app_or in Hin. destruct Hin as [Hin | [E | []]].
      * apply cleared_In in Hin. pose proof (handles_old _ _ _ Hr t id (proj1 Hin)). lia.
      * inversion E; subst. lia.
    + intros id info t Hin Ht. apply Hin' in Hin. destruct Hin as [[-> ->] | [_ Hin]].
      * rewrite Hgt in Ht. inversion Ht; subst. lia.
      * pose proof (held_old _ _ _ Hr id info t Hin Ht). lia.
    + intros id info t id' Hin Ht Hpend. apply Hin' in Hin.
      apply in_app_or in Hpend.
      destruct Hin as [[-> ->] | [_ Hin]]; destruct Hpend as [Hpend | [E | []]].
      * rewrite Hgt in Ht. inversion Ht; subst. exfalso. apply Hnew.
        change t with (fst (t, id')). now apply in_map.
      * now inversion E.
      * apply cleared_In in Hpend. exact (held_closes _ _ _ Hr id info t id' Hin Ht (proj1 Hpend)).
      * inversion E; subst. pose proof (held_old _ _ _ Hr id info t Hin Ht). lia.
  - intros id info Hin. apply Hin' in Hin. destruct Hin as [[-> ->] | [Hne Hin]].
    + unfold slot_ok. rewrite Hgs. left. exists next. split; [apply Hgt|].
      rewrite map_app. apply in_or_app. right. now left.
    + apply slot_ok_added.
      * intros Ht. pose proof (held_old _ _ _ Hr id info next Hin Ht). lia.
      * apply slot_ok_cleared; [|exact (Hs id info Hin)].
        intros _ t Ht0 Htx. exact (other_slot_misses _ _ _ _ _ _ _ _ Hr H0 Hin Hne Ht0 Htx).
Qed.

Lemma runtime_ok_shrink slots slots' ts o next :
  runtime_ok slots ts next ->
  NoDup (map fst slots') -> (forall k x, In (k, x) slots' -> In (k, x) slots) ->
  runtime_ok slots' (cleared o ts) next.
Proof.
  intros Hr Hnd Hsub. constructor.
  - exact Hnd.
  - apply cleared_NoDup. exact (handles_unique _ _ _ Hr).
  - intros t id Hin. apply cleared_In in Hin. exact (handles_old _ _ _ Hr t id (proj1 Hin)).
  - intros id info t Hin Ht. exact (held_old _ _ _ Hr id info t (Hsub _ _ Hin) Ht).
  - intros id info t id' Hin Ht Hpend. apply cleared_In in Hpend.
    exact (held_closes _ _ _ Hr id info t id' (Hsub _ _ Hin) Ht (proj1 Hpend)).
Qed.

Lemma inv_remove slots ts next k0 v0 :
  runtime_ok slots ts next -> slots_ok slots ts -> In (k0, v0) slots ->
  runtime_ok (Map_delete k0 slots) (cleared (timer v0) ts) next
  /\ slots_ok (Map_delete k0 slots) (cleared (timer v0) ts).
Proof.
  intros Hr Hs H0.
  destruct (Map_delete_keys k0 slots (keys_unique _ _ _ Hr)) as [Hnd Hin'].
  split.
  - apply (runtime_ok_shrink slots); [exact Hr | exact Hnd|].
    intros k x Hin. apply Hin' in Hin. tauto.
  - intros id info Hin. apply Hin' in Hin. destruct Hin as [Hin Hne].
    apply slot_ok_cleared; [|exact (Hs id info Hin)].
    intros _ t Ht0 Htx. exact (other_slot_misses _ _ _ _ _ _ _ _ Hr H0 Hin Hne Ht0 Htx).
Qed.

Lemma inv_fire slots ts next t k :
  runtime_ok slots ts next -> slots_ok slots ts -> In (t, k) ts ->
  let slots' := match Map_get k slots with
                | Some info => if is_idle info then Map_delete k slots else slots
                | None => slots
                end in
  runtime_ok slots' (cleared (Some t) ts) next /\ slots_ok slots' (cleared (Some t) ts).
Proof.
  intros Hr Hs Hpend slots'.
  destruct (Map_delete_keys k slots (keys_unique _ _ _ Hr)) as [Hnd Hin'].
  assert (Hsub : forall id x, In (id, x) slots' -> In (id, x) slots).
  { subst slots'. intros id x. destruct (Map_get k slots) as [info|]; [|tauto].
    destruct (is_idle info); [|tauto]. intros Hin. apply Hin' in Hin. tauto. }
  assert (Hnd' : NoDup (map fst slots')).
  { subst slots'. destruct (Map_get k slots) as [info|]; [|exact (keys_unique _ _ _ Hr)].
    destruct (is_idle info); [exact Hnd | exact (keys_unique _ _ _ Hr)]. }
  split; [now apply (runtime_ok_shrink slots)|].
  intros id x Hin. pose proof (Hsub _ _ Hin) as Hold.
  apply slot_ok_cleared; [|exact (Hs id x Hold)].
  intros Hidle t' E Htx _. inversion E; subst t'.
  pose proof (held_closes _ _ _ Hr id x t k Hold Htx Hpend) as ->.
  pose proof (In_Map_get _ _ _ (keys_unique _ _ _ Hr) Hold) as Hget.
  subst slots'. rewrite Hget in Hin. unfold is_idle in Hin. rewrite Hidle in Hin.
  apply Hin' in Hin. now destruct Hin as [_ Hne].
Qed.

End SlotInvariant.

Section PoolOperations.
Context (drv : Driver).

Lemma acquirePage_cases (h : Heap RenderObj) :
  match first_entry is_idle (pool (this h)) with
  | Some (k0, v0) =>
      PagePool.acquirePage drv h = (Ok (page v0), snd (PagePool.takeIdle drv h))
  | None =>
      if Nat.ltb (List.length (pool (this h))) PagePool.maxSize
      then PagePool.acquirePage drv h = PagePool.createPage drv h
      else PagePool.acquirePage drv h = (Pending, h)
  end.
Proof.
  pose proof (takeIdle_spec drv h) as Hspec. cbv zeta in Hspec.
  rewrite acquirePage_whole.
  destruct (first_entry is_idle (pool (this h))) as [[k0 v0]|].
  - destruct Hspec as [Hfst _].
    destruct (PagePool.takeIdle drv h) as [r h1] eqn:E. simpl in Hfst. subst r.
    rewrite (bind_Ok _ _ _ _ _ E). reflexivity.
  - rewrite (bind_Ok _ _ _ _ _ Hspec).
    rewrite (bind_Ok get_this _ h (this h) h) by reflexivity.
    destruct (Nat.ltb (List.length (pool (this h))) PagePool.maxSize); reflexivity.
Qed.

Lemma createNewPage_inv (h : Heap RenderObj) :
  pool_inv (this h) -> pool_inv (this (snd (PagePool.createNewPage drv h))).
Proof.
  intros [Hr Hs].
  destruct (createNewPage_spec drv h) as [(e & _ & Hc) | (k & v & _ & Hv & _ & _ & Hc)].
  - apply (pool_inv_same_core (this h)); [exact Hc | now split].
  - destruct (inv_set _ _ _ k v Hr Hs Hv) as [Hr' Hs'].
    exact (pool_inv_core _ _ _ _ Hc Hr' Hs').
Qed.

Lemma createPage_inv (h : Heap RenderObj) :
  pool_inv (this h) -> pool_inv (this (snd (PagePool.createPage drv h))).
Proof.
  intros [Hr Hs].
  destruct (createPage_spec drv h) as [(e & _ & Hc) | (k & v & _ & Hv & _ & _ & Hc)].
  - apply (pool_inv_same_core (this h)); [exact Hc | now split].
  - destruct (inv_set _ _ _ k v Hr Hs Hv) as [Hr' Hs'].
    exact (pool_inv_core _ _ _ _ Hc Hr' Hs').
Qed.

Lemma takeIdle_inv (h : Heap RenderObj) :
  pool_inv (this h) -> pool_inv (this (snd (PagePool.takeIdle drv h))).
Proof.
  intros [Hr Hs]. pose proof (takeIdle_spec drv h) as Hspec. cbv zeta in Hspec.
  destruct (first_entry is_idle (pool (this h))) as [[k0 v0]|] eqn:Efirst.
  - destruct Hspec as [_ Hc].
    destruct (inv_take _ _ _ k0 v0
                (fun i => set_lastUsed (clock drv (trace (this h))) (set_status busy i))
                (fun _ => eq_refl) (fun _ => eq_refl) Hr Hs Efirst) as [Hr' Hs'].
    exact (pool_inv_core _ _ _ _ Hc Hr' Hs').
  - rewrite Hspec. now split.
Qed.

Lemma acquirePage_inv (h : Heap RenderObj) :
  pool_inv (this h) -> pool_inv (this (snd (PagePool.acquirePage drv h))).
Proof.
  intros Hinv. pose proof (acquirePage_cases h) as Hc.
  destruct (first_entry is_idle (pool (this h))) as [[k0 v0]|].
  - rewrite Hc. simpl. now apply takeIdle_inv.
  - destruct (Nat.ltb (List.length (pool (this h))) PagePool.maxSize); rewrite Hc.
    + now apply createPage_inv.
    + exact Hinv.
Qed.

Lemma releasePage_inv (p : Page) (h : Heap RenderObj) :
  pool_inv (this h) -> pool_inv (this (snd (PagePool.releasePage drv p h))).
Proof.
  intros [Hr Hs]. pose proof (releasePage_spec drv p h) as Hspec. cbv zeta in Hspec.
  destruct (first_entry (has_page p) (pool (this h))) as [[k0 v0]|] eqn:Efirst.
  - specialize (Hspec (keys_unique _ _ _ Hr)).
    destruct (inv_release _ _ _ p k0 v0
                (fun i => set_timer (Some (nextTimer (this h)))
                            (set_lastUsed (clock drv (trace (this h))) (set_status idle i)))
                (fun _ => eq_refl) (fun _ => eq_refl) Hr Hs Efirst) as [Hr' Hs'].
    exact (pool_inv_core _ _ _ _ Hspec Hr' Hs').
  - rewrite Hspec. now split.
Qed.

Lemma removePage_inv (p : Page) (h : Heap RenderObj) :
  pool_inv (this h) -> pool_inv (this (snd (PagePool.removePage drv p h))).
Proof.
  intros [Hr Hs]. pose proof (removePage_spec drv p h) as Hspec. cbv zeta in Hspec.
  destruct (first_entry (has_page p) (pool (this h))) as [[k0 v0]|] eqn:Efirst.
  - destruct (first_entry_In _ _ _ _ Efirst) as [H0 _].
    destruct (inv_remove _ _ _ k0 v0 Hr Hs H0) as [Hr' Hs'].
    exact (pool_inv_core _ _ _ _ Hspec Hr' Hs').
  - rewrite Hspec. now split.
Qed.

Lemma fire_inv (t : TimerId) (h : Heap RenderObj) :
  pool_inv (this h) -> pool_inv (this (snd (PagePool.fire drv t h))).
Proof.
  intros [Hr Hs]. pose proof (fire_spec drv t h) as Hspec. cbv zeta in Hspec.
  destruct (find (fun e => Nat.eqb (fst e) t) (timers (this h))) as [[t' k]|] eqn:Efind.
  - apply find_some in Efind. destruct Efind as [Hin Heq]. simpl in Heq.
    apply Nat.eqb_eq in Heq. subst t'.
    destruct (inv_fire _ _ _ t k Hr Hs Hin) as [Hr' Hs'].
    exact (pool_inv_core _ _ _ _ Hspec Hr' Hs').
  - rewrite Hspec. now split.
Qed.

(** The loop of [closeAll] settles, keeps the map, and only takes
    timeouts away. *)
Lemma closeAll_loop (l : list (string * PageInfo)) (h : Heap RenderObj) :
  exists h',
    for_of l (fun e =>
      match timer (snd e) with
      | Some t => clearTimeout t
      | None => ret tt
      end ;;
      catch_noop (call drv (Drv.close (page (snd e))))) h = (Ok tt, h')
    /\ nextTimer (this h') = nextTimer (this h)
    /\ (forall e, In e (timers (this h')) -> In e (timers (this h)))
    /\ (NoDup (map fst (timers (this h))) -> NoDup (map fst (timers (this h')))).
Proof.
  revert h. induction l as [|[k info] l IH]; intros h.
  - exists h. repeat split; auto.
  - cbn [for_of snd].
    assert (Hbody : exists h2, nextTimer (this h2) = nextTimer (this h)
                         /\ timers (this h2) = cleared (timer info) (timers (this h))
                         /\ (match timer info with
                             | Some t => clearTimeout t
                             | None => ret tt
                             end ;; catch_noop (call drv (Drv.close (page info)))) h
                            = (Ok tt, h2)).
    { unfold bind, catch_noop, call, clearTimeout, modify_this, ret.
      destruct (timer info) as [t|]; cbn;
        match goal with
        | |- context [settles drv ?tr ?c] => destruct (settles drv tr c)
        end; eexists; refine (conj _ (conj _ eq_refl)); reflexivity. }
    destruct Hbody as (h2 & Hn & Ht & Hbody).
    destruct (IH h2) as (h' & Hrun & Hnext & Hsub & Hnd).
    exists h'. rewrite (bind_Ok _ _ _ _ _ Hbody). split; [exact Hrun|].
    split; [congruence|]. split.
    + intros e He. apply Hsub in He. rewrite Ht in He.
      destruct e as [t k']. now apply cleared_In in He.
    + intros H0. apply Hnd. rewrite Ht. now apply cleared_NoDup.
Qed.

Lemma closeAll_inv (h : Heap RenderObj) :
  pool_inv (this h) -> pool_inv (this (snd (PagePool.closeAll drv h))).
Proof.
  intros [Hr Hs]. unfold PagePool.closeAll.
  rewrite (bind_Ok get_this _ h (this h) h) by reflexivity.
  destruct (closeAll_loop (pool (this h)) h) as (h' & Hrun & Hnext & Hsub & Hnd).
  rewrite (bind_Ok _ _ _ _ _ Hrun). unfold modify_this. simpl. split.
  - simpl. constructor; simpl.
    + constructor.
    + apply Hnd. exact (handles_unique _ _ _ Hr).
    + intros t k Hin. rewrite Hnext. exact (handles_old _ _ _ Hr t k (Hsub _ Hin)).
    + intros ? ? ? [].
    + intros ? ? ? ? [].
  - intros ? ? [].
Qed.

Lemma initFirstPage_inv (h : Heap RenderObj) :
  pool_inv (this h) -> pool_inv (this (snd (PagePool.initFirstPage drv h))).
Proof.
  intros Hinv. pose proof (createNewPage_inv h Hinv) as H1.
  unfold PagePool.initFirstPage, bind.
  destruct (PagePool.createNewPage drv h) as [[k|e|] h1]; exact H1.
Qed.

Lemma init_inv (n : nat) (d : Data.screenshot) :
  pool_inv (this (snd (Render.init drv {| this := Render.new n; data := d |}))).
Proof.
  unfold Render.init, bind, call.
  destruct (settles drv _ Drv.launch); simpl.
  - split; [constructor; simpl; try constructor; intros; contradiction | intros ? ? []].
  - undetach.
    apply (initFirstPage_inv
             (on_this (with_trace (fun t => t ++ [Drv.launch]))
                {| this := Render.new n; data := d |})).
    split; [constructor; simpl; try constructor; intros; contradiction | intros ? ? []].
Qed.

Lemma run_op_inv (op : PoolOp) (h : Heap RenderObj) :
  pool_inv (this h) -> pool_inv (this (run_op drv op h)).
Proof.
  destruct op; simpl.
  - apply acquirePage_inv.
  - apply takeIdle_inv.
  - apply createPage_inv.
  - apply releasePage_inv.
  - apply removePage_inv.
  - apply fire_inv.
  - apply closeAll_inv.
Qed.

Lemma pool_reach_inv (n : nat) (h : Heap RenderObj) :
  pool_reach drv n h -> pool_inv (this h).
Proof.
  induction 1 as [i d | n h op _ IH].
  - apply init_inv.
  - now apply run_op_inv.
Qed.

End PoolOperations.

(** * Capacity *)

Lemma core_pool (r : RenderObj) slots ts next : core r = (slots, ts, next) -> pool r = slots.
Proof. unfold core. intros H. now inversion H. Qed.

Section Capacity.
Context (drv : Driver).

Lemma createPage_length (h : Heap RenderObj) :
  List.length (pool (this (snd (PagePool.createPage drv h)))) <= S (List.length (pool (this h))).
Proof.
  destruct (createPage_spec drv h) as [(e & _ & Hc) | (k & v & _ & _ & _ & _ & Hc)];
    apply core_pool in Hc; rewrite Hc; [lia | apply Map_set_length].
Qed.

Lemma takeIdle_length (h : Heap RenderObj) :
  List.length (pool (this (snd (PagePool.takeIdle drv h)))) = List.length (pool (this h)).
Proof.
  pose proof (takeIdle_spec drv h) as Hspec. cbv zeta in Hspec.
  destruct (first_entry is_idle (pool (this h))) as [[k0 v0]|].
  - destruct Hspec as [_ Hc]. apply core_pool in Hc. rewrite Hc. apply update_first_length.
  - now rewrite Hspec.
Qed.

(** [acquirePage] adds a slot only below the capacity. *)
Lemma acquirePage_length (h : Heap RenderObj) :
  List.length (pool (this (snd (PagePool.acquirePage drv h))))
  <= Nat.max (List.length (pool (this h))) PagePool.maxSize.
Proof.
  pose proof (acquirePage_cases drv h) as Hc.
  destruct (first_entry is_idle (pool (this h))) as [[k0 v0]|].
  - rewrite Hc. simpl. rewrite takeIdle_length. lia.
  - destruct (Nat.ltb_spec (List.length (pool (this h))) PagePool.maxSize); rewrite Hc.
    + pose proof (createPage_length h). lia.
    + simpl. lia.
Qed.

Lemma releasePage_length (p : Page) (h : Heap RenderObj) :
  pool_inv (this h) ->
  List.length (pool (this (snd (PagePool.releasePage drv p h)))) = List.length (pool (this h)).
Proof.
  intros [Hr _]. pose proof (releasePage_spec drv p h) as Hspec. cbv zeta in Hspec.
  destruct (first_entry (has_page p) (pool (this h))) as [[k0 v0]|].
  - specialize (Hspec (keys_unique _ _ _ Hr)). apply core_pool in Hspec. rewrite Hspec.
    apply update_first_length.
  - now rewrite Hspec.
Qed.

Lemma removePage_length (p : Page) (h : Heap RenderObj) :
  List.length (pool (this (snd (PagePool.removePage drv p h)))) <= List.length (pool (this h)).
Proof.
  pose proof (removePage_spec drv p h) as Hspec. cbv zeta in Hspec.
  destruct (first_entry (has_page p) (pool (this h))) as [[k0 v0]|].
  - apply core_pool in Hspec. rewrite Hspec. apply Map_delete_length.
  - rewrite Hspec. simpl. lia.
Qed.

Lemma fire_length (t : TimerId) (h : Heap RenderObj) :
  List.length (pool (this (snd (PagePool.fire drv t h)))) <= List.length (pool (this h)).
Proof.
  pose proof (fire_spec drv t h) as Hspec. cbv zeta in Hspec.
  destruct (find (fun e => Nat.eqb (fst e) t) (timers (this h))) as [[t' k]|].
  - apply core_pool in Hspec. rewrite Hspec.
    destruct (Map_get k (pool (this h))) as [info|]; [|lia].
    destruct (is_idle info); [apply Map_delete_length | lia].
  - rewrite Hspec. simpl. lia.
Qed.

Lemma closeAll_empties (h : Heap RenderObj) :
  pool (this (snd (PagePool.closeAll drv h))) = [].
Proof.
  unfold PagePool.closeAll.
  rewrite (bind_Ok get_this _ h (this h) h) by reflexivity.
  destruct (closeAll_loop drv (pool (this h)) h) as (h' & Hrun & _).
  rewrite (bind_Ok _ _ _ _ _ Hrun). reflexivity.
Qed.

Lemma init_length (n : nat) (d : Data.screenshot) :
  List.length (pool (this (snd (Render.init drv {| this := Render.new n; data := d |})))) <= 1.
Proof.
  unfold Render.init, bind, call, detached.
  destruct (settles drv _ Drv.launch); simpl; [lia|].
  unfold PagePool.initFirstPage, bind.
  match goal with
  | |- context [PagePool.createNewPage drv ?hh] =>
      destruct (createNewPage_spec drv hh) as [(e & _ & Hc) | (k & v & _ & _ & _ & _ & Hc)];
      apply core_pool in Hc;
      destruct (PagePool.createNewPage drv hh) as [[k'|e'|] h1]; simpl in *; rewrite Hc; simpl; lia
  end.
Qed.

(** When no two calls overlap, the number of slots is at most the
    capacity (the constant 10) plus the number of [createPage] calls
    made. *)
Lemma slots_bounded_between_calls (n : nat) (h : Heap RenderObj) :
  pool_reach drv n h ->
  List.length (pool (this h)) <= PagePool.maxSize + n.
Proof.
  induction 1 as [i d | n h op Hreach IH].
  - pose proof (init_length i d). unfold PagePool.maxSize. lia.
  - pose proof (pool_reach_inv drv n h Hreach) as Hinv.
    destruct op; cbn [run_op is_createPage].
    + pose proof (acquirePage_length h). unfold PagePool.maxSize in *. lia.
    + unfold PagePool.poll. rewrite takeIdle_length. lia.
    + pose proof (createPage_length h). lia.
    + rewrite (releasePage_length p h Hinv). lia.
    + pose proof (removePage_length p h). lia.
    + pose proof (fire_length t h). lia.
    + rewrite closeAll_empties. simpl. lia.
Qed.

Lemma pool_reach_iter (op : PoolOp) (k n : nat) (h : Heap RenderObj) :
  pool_reach drv n h ->
  pool_reach drv (k * is_createPage op + n) (Nat.iter k (run_op drv op) h).
Proof.
  intros Hreach. induction k as [|k IH]; [exact Hreach|].
  simpl. rewrite <- Nat.add_assoc. now apply reach_step.
Qed.

End Capacity.

Lemma crowded_reach : pool_reach steady 1 crowded.
Proof.
  apply (reach_step steady 0 _ createPage).
  apply (pool_reach_iter steady acquirePage 10 0).
  apply reach_init.
Qed.

(** [createPage] makes no size test: it adds a slot to a full pool. *)
Lemma createPage_ignores_capacity :
  pool_reach steady 1 crowded
  /\ List.length (pool (this crowded)) = 11
  /\ PagePool.maxSize = 10.
Proof. split; [exact crowded_reach|]. split; [vm_compute; reflexivity | reflexivity]. Qed.

Lemma rested_reach : pool_reach steady 0 rested.
Proof.
  apply (reach_step steady 0 _ (releasePage 0)).
  apply (reach_step steady 0 _ acquirePage).
  apply reach_init.
Qed.

(** * Calls of a pool that overlap *)

Section WaitingCalls.
Import Overlap.
Context {A : Type}.




End WaitingCalls.

(** ** What each part of a method does to slots and timeouts *)

Section OverlapEffects.
Context (drv : Driver).



Lemma idleTimerCallback_end_spec (k : string) (o : option Err) (h : Heap RenderObj) :
  let out := PagePool.idleTimerCallback_end k o h in
  fst out = Ok tt
  /\ trace (this (snd out)) = trace (this h)
  /\ core (this (snd out)) = (Map_delete k (pool (this h)), timers (this h), nextTimer (this h)).
Proof.
  cbv zeta. unfold PagePool.idleTimerCallback_end, bind, catch_noop, answered, modify_this.
  destruct o; repeat split.
Qed.


Lemma idleTimerCallback_begin_spec (k : string) (h : Heap RenderObj) :
  let out := PagePool.idleTimerCallback_begin drv k h in
  core (this (snd out)) = core (this h)
  /\ match Map_get k (pool (this h)) with
     | Some info =>
         if is_idle info
         then fst out = Ok (Some (settles drv (trace (this h)) (Drv.close (page info))))
              /\ trace (this (snd out)) = trace (this h) ++ [Drv.close (page info)]
         else out = (Ok None, h)
     | None => out = (Ok None, h)
     end.
Proof.
  cbv zeta. unfold PagePool.idleTimerCallback_begin.
  rewrite (bind_Ok get_this _ h (this h) h) by reflexivity.
  destruct (Map_get k (pool (this h))) as [info|]; [|split; reflexivity].
  destruct (is_idle info); repeat split.
Qed.

Lemma fire_begin_spec (t : TimerId) (h : Heap RenderObj) :
  let out := PagePool.fire_begin drv t h in
  match find (fun e => Nat.eqb (fst e) t) (timers (this h)) with
  | None => out = (Ok None, h)
  | Some (_, k) =>
      core (this (snd out)) = (pool (this h), cleared (Some t) (timers (this h)), nextTimer (this h))
      /\ match Map_get k (pool (this h)) with
         | Some info =>
             if is_idle info
             then fst out = Ok (Some (k, settles drv (trace (this h)) (Drv.close (page info))))
                  /\ trace (this (snd out)) = trace (this h) ++ [Drv.close (page info)]
             else fst out = Ok None
         | None => fst out = Ok None
         end
  end.
Proof.
  cbv zeta. unfold PagePool.fire_begin.
  rewrite (bind_Ok get_this _ h (this h) h) by reflexivity.
  destruct (find (fun e => Nat.eqb (fst e) t) (timers (this h))) as [[t' k]|]; [|reflexivity].
  rewrite (bind_Ok (clearTimeout t) _ h tt (snd (clearTimeout t h))) by reflexivity.
  unfold bind.
  pose proof (idleTimerCallback_begin_spec k (snd (clearTimeout t h))) as Hb. cbv zeta in Hb.
  destruct (PagePool.idleTimerCallback_begin drv k (snd (clearTimeout t h))) as [r h1].
  destruct Hb as [Hcore Hres]. cbn [fst snd] in *.
  change (pool (this (snd (clearTimeout t h)))) with (pool (this h)) in Hres.
  change (trace (this (snd (clearTimeout t h)))) with (trace (this h)) in Hres.
  destruct (Map_get k (pool (this h))) as [info|].
  - destruct (is_idle info).
    + destruct Hres as [Hr Ht]. subst r. simpl.
      split; [exact Hcore|]. split; [reflexivity | exact Ht].
    + inversion Hres; subst. simpl. split; reflexivity.
  - inversion Hres; subst. simpl. split; reflexivity.
Qed.



End OverlapEffects.

(** ** The invariant of the overlapping calls *)

Section OverlapInvariant.
Import Overlap.
Implicit Types (slots : list (string * PageInfo)) (ts : list (TimerId * string))
  (ws : list Waiting).



















Context (drv : Driver).










Lemma reach_run (es : list Event) (s : State) :
  reach drv s -> permitted_all drv es s = true -> reach drv (run drv es s).
Proof.
  revert s. induction es as [|e es IH]; intros s Hreach Hperm; [exact Hreach|].
  simpl in Hperm. apply andb_true_iff in Hperm. destruct Hperm as [He Hes].
  simpl. apply IH; [|exact Hes]. now apply reach_step.
Qed.

End OverlapInvariant.

Section OverlapClaims.
Context (drv : Driver).



Lemma takeIdle_trace (h : Heap RenderObj) :
  trace (this (snd (PagePool.takeIdle drv h))) = trace (this h).
Proof.
  unfold PagePool.takeIdle, bind, get_this, Date_now, modify_this, clearTimeout, ret.
  destruct (first_entry is_idle (pool (this h))) as [[k v]|]; [|reflexivity].
  destruct (timer v); reflexivity.
Qed.

Lemma acquirePage_begin_idle (h : Heap RenderObj) k v :
  first_entry is_idle (pool (this h)) = Some (k, v) ->
  PagePool.acquirePage_begin drv h = (Ok (PagePool.handed (page v)), snd (PagePool.takeIdle drv h)).
Proof.
  intros Hfirst. pose proof (takeIdle_spec drv h) as Hspec. cbv zeta in Hspec.
  rewrite Hfirst in Hspec. destruct Hspec as [Hfst _].
  unfold PagePool.acquirePage_begin.
  destruct (PagePool.takeIdle drv h) as [r h1] eqn:E. simpl in Hfst. subst r.
  now rewrite (bind_Ok _ _ _ _ _ E).
Qed.

Lemma Map_get_delete (k : string) (m : list (string * PageInfo)) :
  NoDup (map fst m) -> Map_get k (Map_delete k m) = None.
Proof.
  intros Hnd. destruct (Map_get k (Map_delete k m)) as [x|] eqn:E; [|reflexivity].
  apply Map_get_In in E. apply (Map_delete_keys k m Hnd) in E. now destruct E.
Qed.

(** X6. While the callback of an idle timeout waits for [page.close()],
    an [acquirePage] is handed the page that is being closed; when the
    callback goes on it deletes the slot, Busy as it is, and the one
    call the browser got is the close of that page. *)
Theorem X6_page_taken_during_eviction_is_lost (h : Heap RenderObj) (t : TimerId)
    (k : string) (v : PageInfo) :
  NoDup (map fst (pool (this h))) ->
  find (fun e => Nat.eqb (fst e) t) (timers (this h)) = Some (t, k) ->
  first_entry is_idle (pool (this h)) = Some (k, v) ->
  exists o h1 h2 h3 v',
    PagePool.fire_begin drv t h = (Ok (Some (k, o)), h1)
    /\ PagePool.acquirePage_begin drv h1 = (Ok (PagePool.handed (page v)), h2)
    /\ Map_get k (pool (this h2)) = Some v' /\ status v' = busy /\ page v' = page v
    /\ PagePool.idleTimerCallback_end k o h2 = (Ok tt, h3)
    /\ Map_get k (pool (this h3)) = None
    /\ calls_since h h3 = [Drv.close (page v)].
Proof.
  intros Hnd Hfind Hfirst.
  destruct (first_entry_In _ _ _ _ Hfirst) as [Hin Hidle].
  pose proof (In_Map_get k v _ Hnd Hin) as Hget.
  pose proof (fire_begin_spec drv t h) as H1. cbv zeta in H1.
  rewrite Hfind, Hget, Hidle in H1.
  destruct (PagePool.fire_begin drv t h) as [r1 h1]. cbn [fst snd] in H1.
  destruct H1 as (Hcore1 & -> & Htrace1).
  unfold core in Hcore1. inversion Hcore1 as [[Hpool1 Htimers1 Hnext1]].
  assert (Hfirst1 : first_entry is_idle (pool (this h1)) = Some (k, v)) by now rewrite Hpool1.
  pose proof (acquirePage_begin_idle h1 k v Hfirst1) as H2.
  pose proof (takeIdle_spec drv h1) as Ht2. cbv zeta in Ht2. rewrite Hfirst1 in Ht2.
  destruct Ht2 as [_ Hcore2].
  pose proof (takeIdle_trace h1) as Htrace2.
  set (h2 := snd (PagePool.takeIdle drv h1)) in *.
  unfold core in Hcore2. inversion Hcore2 as [[Hpool2 Htimers2 Hnext2]].
  assert (Hnd1 : NoDup (map fst (pool (this h1)))) by now rewrite Hpool1.
  destruct (Map_update_update_first is_idle
              (fun i => set_lastUsed (clock drv (trace (this h1))) (set_status busy i))
              (fun i => i) (pool (this h1)) k v Hnd1 Hfirst1) as [_ Hget2].
  destruct (idleTimerCallback_end_spec k (settles drv (trace (this h)) (Drv.close (page v))) h2)
    as (Hfst3 & Htrace3 & Hcore3).
  destruct (PagePool.idleTimerCallback_end k _ h2) as [r3 h3] eqn:E3. cbn [fst snd] in *.
  subst r3. unfold core in Hcore3. inversion Hcore3 as [[Hpool3 Htimers3 Hnext3]].
  exists (settles drv (trace (this h)) (Drv.close (page v))), h1, h2, h3,
    (set_lastUsed (clock drv (trace (this h1))) (set_status busy v)).
  split; [reflexivity|]. split; [exact H2|].
  split; [rewrite Hpool2; exact Hget2|]. split; [reflexivity|]. split; [reflexivity|].
  split; [exact E3|]. split.
  - rewrite Hpool3. apply Map_get_delete. rewrite Hpool2, update_first_keys. exact Hnd1.
  - apply calls_since_app. now rewrite Htrace3, Htrace2, Htrace1.
Qed.

End OverlapClaims.



(** C4. Eleven tasks call [acquirePage] on the pool of a new browser,
    ten of them before any of their pages has arrived: each of the ten
    finds fewer than [maxSize] slots, each creates one, and when all
    calls have returned the pool holds eleven Busy slots.  No
    [createPage] is called. *)
Theorem C4_overlapping_acquirePage_exceeds_capacity :
  let s := Overlap.run lively stampede (Overlap.born lively 0 (plain "http://a")) in
  Overlap.reach lively s
  /\ Forall (fun e => e = Overlap.acquirePage_called \/ exists i, e = Overlap.goes_on i) stampede
  /\ snd s = []
  /\ List.length (pool (this (fst s))) = 11
  /\ Forall (fun e => status (snd e) = busy) (pool (this (fst s)))
  /\ PagePool.maxSize = 10.
Proof.
  cbv zeta. split.
  - apply reach_run; [apply Overlap.reach_born | reflexivity].
  - split.
    + unfold stampede. repeat (constructor; [first [now left | right; eexists; reflexivity]|]).
      constructor.
    + split; [vm_compute; reflexivity|]. split; [vm_compute; reflexivity|].
      split; [|reflexivity]. vm_compute. repeat constructor.
Qed.

Lemma rested_idle :
  NoDup (map fst (pool (this rested)))
  /\ find (fun e => Nat.eqb (fst e) 0) (timers (this rested)) = Some (0, "C")
  /\ first_entry is_idle (pool (this rested))
     = Some ("C", {| page := 0; status := idle; lastUsed := 2; timer := Some 0 |}).
Proof.
  split; [vm_compute; repeat constructor; simpl; tauto|]. split; vm_compute; reflexivity.
Qed.

(** On [rested]: the page is handed out and its slot deleted. *)
Lemma X6_witness :
  NoDup (map fst (pool (this rested)))
  /\ find (fun e => Nat.eqb (fst e) 0) (timers (this rested)) = Some (0, "C")
  /\ first_entry is_idle (pool (this rested))
     = Some ("C", {| page := 0; status := idle; lastUsed := 2; timer := Some 0 |})
  /\ exists o h1 h2 h3 v',
       PagePool.fire_begin steady 0 rested = (Ok (Some ("C", o)), h1)
       /\ PagePool.acquirePage_begin steady h1 = (Ok (PagePool.handed 0), h2)
       /\ Map_get "C" (pool (this h2)) = Some v' /\ status v' = busy /\ page v' = 0
       /\ PagePool.idleTimerCallback_end "C" o h2 = (Ok tt, h3)
       /\ Map_get "C" (pool (this h3)) = None
       /\ calls_since rested h3 = [Drv.close 0].
Proof.
  destruct rested_idle as (Hnd & Hfind & Hfirst).
  split; [exact Hnd|]. split; [exact Hfind|]. split; [exact Hfirst|].
  exact (X6_page_taken_during_eviction_is_lost steady rested 0 "C" _ Hnd Hfind Hfirst).
Defined.


(** * Pages created for request interception *)

Lemma first_entry_exists (p : PageInfo -> bool) (m : list (string * PageInfo)) k v :
  In (k, v) m -> p v = true -> exists k0 v0, first_entry p m = Some (k0, v0).
Proof.
  intros Hin Hp. unfold first_entry.
  destruct (find (fun e => p (snd e)) m) as [[k0 v0]|] eqn:E; [now exists k0, v0|].
  exfalso. pose proof (find_none _ _ E (k, v) Hin) as Hnone. simpl in Hnone. congruence.
Qed.

Lemma update_first_hit (p : PageInfo -> bool) (f : PageInfo -> PageInfo)
    (m : list (string * PageInfo)) k0 v0 :
  first_entry p m = Some (k0, v0) -> In (k0, f v0) (update_first p f m).
Proof.
  unfold first_entry. induction m as [|[k x] m IH]; simpl; [discriminate|].
  destruct (p x); simpl.
  - intros E. inversion E; subst. now left.
  - intros E. right. now apply IH.
Qed.

Lemma Map_update_keeps (id : string) (f : PageInfo -> PageInfo)
    (m : list (string * PageInfo)) k x :
  In (k, x) m -> In (k, x) (Map_update id f m) \/ In (k, f x) (Map_update id f m).
Proof.
  induction m as [|[k' x'] m IH]; simpl; [tauto|].
  destruct (String.eqb k' id); simpl.
  - intros [E|Hin]; [inversion E; subst; right; now left | left; now right].
  - intros [E|Hin]; [left; now left|]. destruct (IH Hin); [left | right]; now right.
Qed.

Section Interception.
Context (drv : Driver).

(** A released page is in the pool as an idle slot. *)
Lemma releasePage_idles (p : Page) (h : Heap RenderObj) k v :
  In (k, v) (pool (this h)) -> page v = p ->
  exists k' v', In (k', v') (pool (this (snd (PagePool.releasePage drv p h))))
                /\ page v' = p /\ status v' = idle.
Proof.
  intros Hin Hp.
  assert (Hhas : has_page p v = true) by (unfold has_page; rewrite Hp; apply Nat.eqb_refl).
  destruct (first_entry_exists (has_page p) _ k v Hin Hhas) as (k0 & v0 & Efirst).
  destruct (first_entry_In _ _ _ _ Efirst) as [_ Hp0].
  unfold has_page in Hp0. apply Nat.eqb_eq in Hp0.
  unfold PagePool.releasePage.
  rewrite (bind_Ok get_this _ h (this h) h) by reflexivity.
  rewrite Efirst.
  erewrite bind_Ok by reflexivity. cbv beta.
  erewrite bind_Ok by reflexivity. cbv beta.
  set (f := fun i => set_lastUsed (clock drv (trace (this h))) (set_status idle i)).
  set (h1 := on_this (with_pool (update_first (has_page p) f)) h).
  assert (Hhit : In (k0, f v0) (pool (this h1)))
    by (simpl; now apply update_first_hit).
  unfold PagePool.startIdleTimer.
  rewrite (bind_Ok get_this _ h1 (this h1) h1) by reflexivity.
  destruct (Map_get k0 (pool (this h1))) as [pageInfo|].
  - destruct (timer pageInfo); unfold bind, clearTimeout, modify_this, setTimeout; cbn;
      destruct (Map_update_keeps k0 (set_timer (Some (nextTimer (this h))))
                  (update_first (has_page p) f (pool (this h))) k0 (f v0) Hhit) as [H|H];
      eexists _, _; (split; [exact H|]); split; simpl; auto.
  - exists k0, (f v0). split; [exact Hhit|]. split; [exact Hp0 | reflexivity].
Qed.

(** With request interception set, the page of the task is the one
    [createPage] makes. *)
Lemma openPage_intercepting (callback : nat) (h h1 : Heap RenderObj) (p : Page) :
  Data.setRequestInterception (data h) = Some callback ->
  Render.openPage drv h = (Ok p, h1) ->
  exists h0, PagePool.createPage drv h = (Ok p, h0) /\ same_pool h0 h1.
Proof.
  intros Hcb H. unfold Render.openPage in H.
  rewrite (bind_Ok get_data _ h (data h) h) in H by reflexivity.
  rewrite (bind_Ok get_this _ h (this h) h) in H by reflexivity.
  rewrite Hcb in H.
  inv_bind H. rename a into p', h0 into hb.
  inv_bind Hstep. rename a into p0, h0 into h0'.
  assert (Hblock : same_pool h0' hb /\ p' = p0).
  { inv_bind Hstep. inv_bind Hstep. inv_bind Hstep. apply ret_inv in Hstep.
    destruct Hstep as [<- <-]. split; [|reflexivity].
    eapply same_pool_trans; [|eapply same_pool_trans].
    - eapply respects_run; [|exact Hstep1]. pool_frame.
    - eapply respects_run; [|exact Hstep2]. pool_frame.
    - eapply respects_run; [|exact Hstep3]. pool_frame. }
  destruct Hblock as [Hblock ->].
  inv_bind H. inv_bind H. inv_bind H. apply ret_inv in H. destruct H as [<- <-].
  exists h0'. split; [exact Hstep0|].
  eapply same_pool_trans; [exact Hblock|].
  eapply same_pool_trans; [|eapply same_pool_trans].
  - eapply respects_run; [|exact Hstep1]. pool_frame.
  - eapply respects_run; [|exact Hstep2]. pool_frame.
  - eapply respects_run; [|exact Hstep3]. pool_frame.
Qed.

End Interception.

Section DedicatedPages.
Context (drv : Driver).

Lemma same_pool_list f (h : Heap RenderObj) : same_pool h (on_this (with_list f) h).
Proof. repeat split. Qed.

(** A [render] that resolves ends by releasing the page it was given. *)
Lemma render_released (echo : string) (h h' : Heap RenderObj) (r : RenderResult) :
  Render.render drv echo h = (Ok r, h') ->
  exists p h1 h2 h3,
    Render.newPage drv (on_this (with_list (Render.list_set echo)) h) = (Ok p, h1)
    /\ Render.capture drv p h1 = (Ok r, h2)
    /\ same_pool h2 h3
    /\ PagePool.releasePage drv p h3 = (Ok tt, h').
Proof.
  intros H. unfold Render.render in H.
  inv_bind H. unfold modify_this in Hstep. inversion Hstep; subst; clear Hstep.
  inv_bind H. unfold settle in Hstep.
  destruct (Render.newPage drv _) as [[p|e|] h1] eqn:Enew; inversion Hstep; subst; clear Hstep.
  2:{ inv_bind H. discriminate H. }
  inv_bind H. unfold settle in Hstep.
  destruct (Render.capture drv p h0) as [[res|e|] h2] eqn:Ecap; inversion Hstep; subst; clear Hstep.
  2:{ inv_bind H. inv_bind H. discriminate H. }
  inv_bind H. unfold modify_this in Hstep. inversion Hstep; subst; clear Hstep.
  inv_bind H. unfold get_this in Hstep. inversion Hstep; subst; clear Hstep.
  inv_bind H. unfold note, modify_this in Hstep. inversion Hstep; subst; clear Hstep.
  inv_bind H. apply ret_inv in H. destruct H as [<- <-]. destruct a.
  eexists p, h0, h1, _. split; [reflexivity|]. split; [exact Ecap|].
  split; [|exact Hstep].
  eapply same_pool_trans; [apply same_pool_list | apply same_pool_trace].
Qed.

(** For a task that installs request interception, [newPage] takes a
    new page through [createPage], whatever the pool holds, and that
    page is a Busy slot of the pool while the task runs.  When the task
    succeeds, [render] releases the page like any other: it is then an
    Idle slot of the pool, and a later [acquirePage] hands out the first
    Idle slot, this one included. *)
Lemma interception_page_is_released (echo : string) (callback : nat)
    (h h' : Heap RenderObj) (r : RenderResult) :
  Data.setRequestInterception (data h) = Some callback ->
  Render.render drv echo h = (Ok r, h') ->
  exists p h1,
    Render.newPage drv (on_this (with_list (Render.list_set echo)) h) = (Ok p, h1)
    /\ p = nextPage (this h)
    /\ (exists k v, In (k, v) (pool (this h1)) /\ page v = p /\ status v = busy)
    /\ (exists k v, In (k, v) (pool (this h')) /\ page v = p /\ status v = idle)
    /\ (forall k v, first_entry is_idle (pool (this h')) = Some (k, v) ->
          fst (PagePool.acquirePage drv h') = Ok (page v)).
Proof.
  intros Hcb Hrun.
  destruct (render_released echo h h' r Hrun) as (p & h1 & h2 & h3 & Hnew & Hcap & H23 & Hrel).
  exists p, h1. split; [exact Hnew|].
  set (he := on_this (with_list (Render.list_set echo)) h) in *.
  assert (Hopen : exists ho, Render.openPage drv he = (Ok p, ho) /\ same_pool ho h1).
  { unfold Render.newPage in Hnew. inv_bind Hnew. inv_bind Hnew.
    apply ret_inv in Hnew. destruct Hnew as [<- <-]. exists h0. split; [exact Hstep|].
    eapply respects_run; [apply optionalWaits_same_pool | exact Hstep0]. }
  destruct Hopen as (ho & Hopen & Ho1).
  destruct (openPage_intercepting drv callback he ho p Hcb Hopen) as (hc & Hcreate & Hco).
  destruct (createPage_spec drv he) as [(e & He & _) | (k & v & Hp & _ & Hbusy & Hpage & Hcore)];
    rewrite Hcreate in *; simpl in *; [discriminate|].
  inversion Hp; subst p. apply core_pool in Hcore.
  assert (Hin_c : In (k, v) (pool (this hc))).
  { rewrite Hcore. apply Map_get_In. apply Map_get_set. }
  assert (Hpool1 : pool (this h1) = pool (this hc)).
  { destruct Hco as [Hco _]. destruct Ho1 as [Ho1 _]. congruence. }
  assert (Hpool3 : pool (this h3) = pool (this hc)).
  { pose proof (respects_run _ _ _ _ _ (capture_same_pool drv (nextPage (this h))) Hcap) as [Hc2 _].
    destruct H23 as [H23 _]. congruence. }
  split; [reflexivity|]. split; [|split].
  - exists k, v. rewrite Hpool1. now repeat split.
  - rewrite <- Hpool3 in Hin_c.
    destruct (releasePage_idles drv (nextPage (this h)) h3 k v Hin_c Hpage) as (k' & v' & Hin' & Hp' & Hs').
    rewrite Hrel in Hin'. simpl in Hin'. now exists k', v'.
  - intros k1 v1 Hfirst. pose proof (acquirePage_cases drv h') as Hcases.
    rewrite Hfirst in Hcases. now rewrite Hcases.
Qed.

End DedicatedPages.

(** C3. One task holds page 0 of a browser.  A task with request
    interception is given a page of its own, page 1, which [createPage]
    makes for it: interception is switched on and the listener of the
    task is put on the page.  The task succeeds, and [render] releases
    page 1 into the pool as it is: nothing switches interception off or
    takes the listener away.  The next ordinary task is handed page 1
    and navigates it with the listener of the earlier task attached. *)
Theorem C3_interception_page_is_handed_on :
  let h1 := snd (PagePool.acquirePage steady (started steady (intercepting "http://a" 7))) in
  let out := Render.render steady "A" h1 in
  let next := Render.render steady "B" {| this := this (snd out); data := plain "http://b" |} in
  fst out = Ok (Single (Buffer [137; 80; 78; 71]))
  /\ calls_since h1 (snd out)
     = [Drv.newPage; Drv.setRequestInterception 1 true; Drv.on_request 1 7;
        Drv.emit "newPage" 0; Drv.goto 1 "http://a" None; Drv.waitForSelector 1 "body";
        Drv.query 1 "#container"; Drv.boundingBox 0; Drv.setViewport 1 800 4500 1;
        Drv.page_screenshot 1 (Render.makeOptions (intercepting "http://a" 7));
        Drv.emit "screenshot" 0]
  /\ map (fun e => (page (snd e), status (snd e))) (pool (this (snd out)))
     = [(0, busy); (1, idle)]
  /\ fst next = Ok (Single (Buffer [137; 80; 78; 71]))
  /\ calls_since (snd out) (snd next)
     = [Drv.emit "newPage" 0; Drv.goto 1 "http://b" None; Drv.waitForSelector 1 "body";
        Drv.query 1 "#container"; Drv.boundingBox 0; Drv.setViewport 1 800 4500 1;
        Drv.page_screenshot 1 (Render.makeOptions (plain "http://b"));
        Drv.emit "screenshot" 0].
Proof. vm_compute. repeat split. Qed.

(** * Page handles *)

Section PageFacts.

Lemma NoDup_map_eq {A B} (f : A -> B) (l : list A) (a b : A) :
  NoDup (map f l) -> In a l -> In b l -> f a = f b -> a = b.
Proof.
  induction l as [|x l IH]; simpl; [tauto|].
  intros Hnd Ha Hb E. inversion Hnd as [|? ? Hx Hl]; subst.
  destruct Ha as [->|Ha], Hb as [->|Hb]; auto.
  - exfalso. apply Hx. rewrite E. now apply in_map.
  - exfalso. apply Hx. rewrite <- E. now apply in_map.
Qed.

Lemma pages_In (m : list (string * PageInfo)) (p : Page) :
  In p (pages m) <-> holds p m.
Proof.
  unfold pages, holds. rewrite in_map_iff. split.
  - intros ([k v] & E & Hin). now exists k, v.
  - intros (k & v & Hin & E). now exists (k, v).
Qed.

Lemma pages_Map_set k v m :
  ~ In (page v) (pages m) -> NoDup (pages m) ->
  NoDup (pages (Map_set k v m))
  /\ forall p, In p (pages (Map_set k v m)) -> p = page v \/ In p (pages m).
Proof.
  induction m as [|[k' x] m IH]; simpl.
  - intros _ _. split; [repeat constructor; simpl; tauto | intros p [<-|[]]; now left].
  - intros Hfresh Hnd. inversion Hnd as [|? ? Hx Hm]; subst.
    destruct (String.eqb k' k); simpl.
    + split.
      * constructor; [tauto | exact Hm].
      * intros p [<-|Hp]; [now left | right; now right].
    + destruct IH as [IHnd IHin]; [tauto | exact Hm |].
      split.
      * constructor; [|exact IHnd]. intros Hin. destruct (IHin _ Hin) as [E|Hin']; [|tauto].
        apply Hfresh. left. now symmetry.
      * intros p [<-|Hp]; [right; now left|].
        destruct (IHin _ Hp); [now left | right; now right].
Qed.

Lemma pages_update_first q f m :
  (forall i, page (f i) = page i) -> pages (update_first q f m) = pages m.
Proof.
  intros Hf. induction m as [|[k x] m IH]; simpl; [reflexivity|].
  destruct (q x); simpl; [now rewrite Hf | now rewrite IH].
Qed.

Lemma pages_Map_update k f m :
  (forall i, page (f i) = page i) -> pages (Map_update k f m) = pages m.
Proof.
  intros Hf. induction m as [|[k' x] m IH]; simpl; [reflexivity|].
  destruct (String.eqb k' k); simpl; [now rewrite Hf | now rewrite IH].
Qed.

Lemma pages_Map_delete k m :
  NoDup (pages m) ->
  NoDup (pages (Map_delete k m)) /\ forall p, In p (pages (Map_delete k m)) -> In p (pages m).
Proof.
  induction m as [|[k' x] m IH]; simpl; [intros; split; [constructor | tauto]|].
  intros Hnd. inversion Hnd as [|? ? Hx Hm]; subst.
  destruct (String.eqb k' k); simpl.
  - split; [exact Hm | intros p Hp; now right].
  - destruct (IH Hm) as [IHnd IHin]. split.
    + constructor; [|exact IHnd]. intros Hin. apply Hx. now apply IHin.
    + intros p [<-|Hp]; [now left | right; now apply IHin].
Qed.

Lemma Map_set_hit k v m : In (k, v) (Map_set k v m).
Proof. apply Map_get_In. apply Map_get_set. Qed.

Lemma Map_delete_present k m :
  In k (map fst m) -> S (List.length (Map_delete k m)) = List.length m.
Proof.
  induction m as [|[k' x] m IH]; simpl; [tauto|].
  destruct (String.eqb k' k) eqn:E; simpl; [reflexivity|].
  intros [->|Hin]; [rewrite String.eqb_refl in E; discriminate|].
  now rewrite IH.
Qed.

End PageFacts.

(** ** Methods that open no page *)

Lemma same_next_refl h : same_next h h.
Proof. reflexivity. Qed.

Lemma same_next_trans a b c : same_next a b -> same_next b c -> same_next a c.
Proof. unfold same_next. congruence. Qed.

Lemma same_next_trace f h : same_next h (on_this (with_trace f) h).
Proof. reflexivity. Qed.

Ltac next_frame :=
  frame same_next_refl same_next_trans same_next_trace;
  try solve [ reflexivity | auto with frames ].

Section NextPage.
Context (drv : Driver).

Lemma clearTimeout_same_next t : respects same_next (clearTimeout t).
Proof. intros h. reflexivity. Qed.

Lemma setTimeout_same_next k : respects same_next (setTimeout k).
Proof. intros h. reflexivity. Qed.
Hint Resolve clearTimeout_same_next setTimeout_same_next : frames.

Lemma idleTimerCallback_same_next k : respects same_next (PagePool.idleTimerCallback drv k).
Proof. unfold PagePool.idleTimerCallback, PagePool.idleTimerCallback_begin, PagePool.idleTimerCallback_end.
  next_frame. Qed.

Lemma startIdleTimer_same_next k : respects same_next (PagePool.startIdleTimer k).
Proof. unfold PagePool.startIdleTimer. next_frame. Qed.
Hint Resolve idleTimerCallback_same_next startIdleTimer_same_next : frames.

Lemma fire_same_next t : respects same_next (PagePool.fire drv t).
Proof. unfold PagePool.fire, PagePool.fire_begin, PagePool.idleTimerCallback_begin, PagePool.idleTimerCallback_end.
  next_frame. Qed.

Lemma takeIdle_same_next : respects same_next (PagePool.takeIdle drv).
Proof. unfold PagePool.takeIdle. next_frame. Qed.

Lemma releasePage_same_next p : respects same_next (PagePool.releasePage drv p).
Proof. unfold PagePool.releasePage. next_frame. Qed.

Lemma removePage_same_next p : respects same_next (PagePool.removePage drv p).
Proof. unfold PagePool.removePage, PagePool.removePage_begin, PagePool.removePage_end.
  next_frame. Qed.

Lemma closeAll_same_next : respects same_next (PagePool.closeAll drv).
Proof. unfold PagePool.closeAll. next_frame. Qed.

End NextPage.

(** ** Every slot holds a handle of its own *)

Section PageHandles.
Context (drv : Driver).

Lemma createNewPage_pages (h : Heap RenderObj) :
  let out := PagePool.createNewPage drv h in
  trace (this (snd out)) = trace (this h) ++ [Drv.newPage]
  /\ ((exists e, fst out = Throw e /\ pool (this (snd out)) = pool (this h)
                 /\ nextPage (this (snd out)) = nextPage (this h))
      \/ (exists k v,
            fst out = Ok k /\ page v = nextPage (this h) /\ status v = idle
            /\ pool (this (snd out)) = Map_set k v (pool (this h))
            /\ nextPage (this (snd out)) = S (nextPage (this h)))).
Proof.
  cbv zeta. unfold PagePool.createNewPage, PagePool.createNewPage_end, bind, send, newPage_answered.
  destruct (settles drv (trace (this h)) Drv.newPage) as [e|]; (split; [reflexivity|]).
  - left. exists e. repeat split.
  - right. cbn.
    exists (random drv (trace (this h) ++ [Drv.newPage]) (S (nextPage (this h)))),
      {| page := nextPage (this h); status := idle;
         lastUsed := clock drv (trace (this h) ++ [Drv.newPage]); timer := None |}.
    repeat split.
Qed.

Lemma createPage_pages (h : Heap RenderObj) :
  let out := PagePool.createPage drv h in
  trace (this (snd out)) = trace (this h) ++ [Drv.newPage]
  /\ ((exists e, fst out = Throw e /\ pool (this (snd out)) = pool (this h)
                 /\ nextPage (this (snd out)) = nextPage (this h))
      \/ (exists k v,
            fst out = Ok (nextPage (this h)) /\ page v = nextPage (this h) /\ status v = busy
            /\ pool (this (snd out)) = Map_set k v (pool (this h))
            /\ nextPage (this (snd out)) = S (nextPage (this h)))).
Proof.
  cbv zeta. rewrite createPage_whole.
  destruct (createNewPage_pages h) as [Htr [(e & He & Hp & Hn) | (k & v & Hk & Hpg & Hs & Hp & Hn)]];
    destruct (PagePool.createNewPage drv h) as [r h1] eqn:E; simpl in *; subst r.
  - rewrite (bind_Throw _ _ _ _ _ E). split; [exact Htr|]. left. exists e. now repeat split.
  - rewrite (bind_Ok _ _ _ _ _ E).
    rewrite (bind_Ok get_this _ h1 (this h1) h1) by reflexivity.
    rewrite Hp, Map_get_set.
    erewrite bind_Ok by reflexivity. cbn.
    split; [exact Htr|]. right.
    exists k, (set_status busy v). rewrite Hpg. repeat split; try assumption.
    now rewrite Hp, Map_update_set.
Qed.

Lemma pages_ok_set (r r' : RenderObj) k v :
  pages_ok r -> page v = nextPage r ->
  pool r' = Map_set k v (pool r) -> nextPage r' = S (nextPage r) -> pages_ok r'.
Proof.
  intros [Hnd Hlt] Hpage Hpool Hnext. unfold pages_ok. rewrite Hpool, Hnext.
  rewrite Forall_forall in Hlt.
  assert (Hfresh : ~ In (page v) (pages (pool r))).
  { intros Hin. apply Hlt in Hin. lia. }
  destruct (pages_Map_set k v (pool r) Hfresh Hnd) as [Hnd' Hin'].
  split; [exact Hnd'|]. apply Forall_forall. intros p Hp.
  destruct (Hin' p Hp) as [->|Hold]; [lia|]. apply Hlt in Hold. lia.
Qed.

Lemma pages_ok_same (r r' : RenderObj) :
  pages (pool r') = pages (pool r) -> nextPage r' = nextPage r -> pages_ok r -> pages_ok r'.
Proof. unfold pages_ok. intros -> ->. tauto. Qed.

Lemma pages_ok_delete (r r' : RenderObj) k :
  pool r' = Map_delete k (pool r) -> nextPage r' = nextPage r -> pages_ok r -> pages_ok r'.
Proof.
  unfold pages_ok. intros -> -> [Hnd Hlt].
  destruct (pages_Map_delete k (pool r) Hnd) as [Hnd' Hin]. split; [exact Hnd'|].
  rewrite Forall_forall in *. intros p Hp. apply Hlt. now apply Hin.
Qed.

Lemma createNewPage_pages_ok (h : Heap RenderObj) :
  pages_ok (this h) -> pages_ok (this (snd (PagePool.createNewPage drv h))).
Proof.
  intros Hok.
  destruct (createNewPage_pages h) as [_ [(e & _ & Hp & Hn) | (k & v & _ & Hpg & _ & Hp & Hn)]].
  - eapply pages_ok_same; [now rewrite Hp | exact Hn | exact Hok].
  - eapply pages_ok_set; eassumption.
Qed.

Lemma createPage_pages_ok (h : Heap RenderObj) :
  pages_ok (this h) -> pages_ok (this (snd (PagePool.createPage drv h))).
Proof.
  intros Hok.
  destruct (createPage_pages h) as [_ [(e & _ & Hp & Hn) | (k & v & _ & Hpg & _ & Hp & Hn)]].
  - eapply pages_ok_same; [now rewrite Hp | exact Hn | exact Hok].
  - eapply pages_ok_set; eassumption.
Qed.

Lemma takeIdle_pages (h : Heap RenderObj) :
  pages (pool (this (snd (PagePool.takeIdle drv h)))) = pages (pool (this h))
  /\ trace (this (snd (PagePool.takeIdle drv h))) = trace (this h).
Proof.
  unfold PagePool.takeIdle.
  rewrite (bind_Ok get_this _ h (this h) h) by reflexivity.
  destruct (first_entry is_idle (pool (this h))) as [[k0 v0]|]; [|split; reflexivity].
  unfold bind, Date_now, modify_this, clearTimeout, ret.
  destruct (timer v0); cbn; (split; [|reflexivity]); now apply pages_update_first.
Qed.

Lemma takeIdle_pages_ok (h : Heap RenderObj) :
  pages_ok (this h) -> pages_ok (this (snd (PagePool.takeIdle drv h))).
Proof.
  apply pages_ok_same; [apply takeIdle_pages | apply takeIdle_same_next].
Qed.

Lemma acquirePage_pages_ok (h : Heap RenderObj) :
  pages_ok (this h) -> pages_ok (this (snd (PagePool.acquirePage drv h))).
Proof.
  intros Hok. pose proof (acquirePage_cases drv h) as Hc.
  destruct (first_entry is_idle (pool (this h))) as [[k0 v0]|].
  - rewrite Hc. simpl. now apply takeIdle_pages_ok.
  - destruct (Nat.ltb _ _); rewrite Hc; [now apply createPage_pages_ok | exact Hok].
Qed.

Lemma startIdleTimer_pages (k : string) (h : Heap RenderObj) :
  pages (pool (this (snd (PagePool.startIdleTimer k h)))) = pages (pool (this h))
  /\ trace (this (snd (PagePool.startIdleTimer k h))) = trace (this h).
Proof.
  unfold PagePool.startIdleTimer.
  rewrite (bind_Ok get_this _ h (this h) h) by reflexivity.
  destruct (Map_get k (pool (this h))) as [v|]; [|split; reflexivity].
  unfold bind, clearTimeout, modify_this, setTimeout.
  destruct (timer v); cbn; (split; [|reflexivity]); now apply pages_Map_update.
Qed.

Lemma releasePage_pages (p : Page) (h : Heap RenderObj) :
  pages (pool (this (snd (PagePool.releasePage drv p h)))) = pages (pool (this h))
  /\ trace (this (snd (PagePool.releasePage drv p h))) = trace (this h).
Proof.
  unfold PagePool.releasePage.
  rewrite (bind_Ok get_this _ h (this h) h) by reflexivity.
  destruct (first_entry (has_page p) (pool (this h))) as [[k0 v0]|]; [|split; reflexivity].
  erewrite bind_Ok by reflexivity. cbv beta.
  erewrite bind_Ok by reflexivity. cbv beta.
  match goal with
  | |- context [PagePool.startIdleTimer k0 ?hh] =>
      destruct (startIdleTimer_pages k0 hh) as [Hp Ht]; rewrite Hp, Ht
  end.
  split; [|reflexivity]. cbn. now apply pages_update_first.
Qed.

Lemma releasePage_pages_ok (p : Page) (h : Heap RenderObj) :
  pages_ok (this h) -> pages_ok (this (snd (PagePool.releasePage drv p h))).
Proof.
  apply pages_ok_same; [apply releasePage_pages | apply releasePage_same_next].
Qed.

Lemma removePage_pages_ok (p : Page) (h : Heap RenderObj) :
  pages_ok (this h) -> pages_ok (this (snd (PagePool.removePage drv p h))).
Proof.
  intros Hok. pose proof (removePage_spec drv p h) as Hs. cbv zeta in Hs.
  destruct (first_entry (has_page p) (pool (this h))) as [[k0 v0]|].
  - apply core_pool in Hs.
    eapply pages_ok_delete; [exact Hs | apply removePage_same_next | exact Hok].
  - now rewrite Hs.
Qed.

Lemma fire_pages_ok (t : TimerId) (h : Heap RenderObj) :
  pages_ok (this h) -> pages_ok (this (snd (PagePool.fire drv t h))).
Proof.
  intros Hok. pose proof (fire_spec drv t h) as Hs. cbv zeta in Hs.
  destruct (find (fun e => Nat.eqb (fst e) t) (timers (this h))) as [[t' k]|].
  - apply core_pool in Hs.
    destruct (Map_get k (pool (this h))) as [info|];
      [destruct (is_idle info)|].
    + eapply pages_ok_delete; [exact Hs | apply fire_same_next | exact Hok].
    + eapply pages_ok_same; [now rewrite Hs | apply fire_same_next | exact Hok].
    + eapply pages_ok_same; [now rewrite Hs | apply fire_same_next | exact Hok].
  - now rewrite Hs.
Qed.

Lemma closeAll_pages_ok (h : Heap RenderObj) :
  pages_ok (this (snd (PagePool.closeAll drv h))).
Proof.
  unfold pages_ok. rewrite closeAll_empties. split; constructor.
Qed.

Lemma initFirstPage_pages_ok (h : Heap RenderObj) :
  pages_ok (this h) -> pages_ok (this (snd (PagePool.initFirstPage drv h))).
Proof.
  intros Hok. apply createNewPage_pages_ok in Hok.
  unfold PagePool.initFirstPage, bind.
  destruct (PagePool.createNewPage drv h) as [[k|e|] h1]; exact Hok.
Qed.

Lemma init_pages_ok (n : nat) (d : Data.screenshot) :
  pages_ok (this (snd (Render.init drv {| this := Render.new n; data := d |}))).
Proof.
  unfold Render.init, bind, call.
  destruct (settles drv _ Drv.launch); cbn [snd].
  - split; constructor.
  - undetach.
    apply (initFirstPage_pages_ok
             (on_this (with_trace (fun t => t ++ [Drv.launch]))
                {| this := Render.new n; data := d |})).
    split; constructor.
Qed.

Lemma run_op_pages_ok (op : PoolOp) (h : Heap RenderObj) :
  pages_ok (this h) -> pages_ok (this (run_op drv op h)).
Proof.
  destruct op; simpl.
  - apply acquirePage_pages_ok.
  - apply takeIdle_pages_ok.
  - apply createPage_pages_ok.
  - apply releasePage_pages_ok.
  - apply removePage_pages_ok.
  - apply fire_pages_ok.
  - intros _. apply closeAll_pages_ok.
Qed.

Lemma pool_reach_pages (n : nat) (h : Heap RenderObj) :
  pool_reach drv n h -> pages_ok (this h).
Proof.
  induction 1 as [i d | n h op _ IH]; [apply init_pages_ok | now apply run_op_pages_ok].
Qed.

(** X1. In every state a pool reaches, no page handle is in two slots,
    and every handle in a slot is one [browser.newPage()] resolved
    with. *)
Theorem X1_slots_hold_distinct_pages (n : nat) (h : Heap RenderObj) :
  pool_reach drv n h ->
  NoDup (pages (pool (this h)))
  /\ (forall k v k' v',
        In (k, v) (pool (this h)) -> In (k', v') (pool (this h)) ->
        page v = page v' -> k = k' /\ v = v')
  /\ (forall k v, In (k, v) (pool (this h)) -> page v < nextPage (this h)).
Proof.
  intros Hreach. destruct (pool_reach_pages n h Hreach) as [Hnd Hlt].
  split; [exact Hnd|]. split.
  - intros k v k' v' Hin Hin' E.
    assert (Heq : (k, v) = (k', v'))
      by (apply (NoDup_map_eq (fun e => page (snd e)) (pool (this h))); assumption).
    now inversion Heq.
  - intros k v Hin. rewrite Forall_forall in Hlt. apply Hlt.
    apply pages_In. now exists k, v.
Qed.

End PageHandles.

(** ** A page in use is not handed out *)

Section Exclusive.
Context (drv : Driver).

Lemma takeIdle_hands_idle (h h' : Heap RenderObj) (p : Page) :
  PagePool.takeIdle drv h = (Ok (Some p), h') ->
  exists k0 v0,
    first_entry is_idle (pool (this h)) = Some (k0, v0) /\ page v0 = p
    /\ In (k0, set_lastUsed (clock drv (trace (this h))) (set_status busy v0)) (pool (this h')).
Proof.
  intros E. pose proof (takeIdle_spec drv h) as Hs. cbv zeta in Hs. rewrite E in Hs.
  destruct (first_entry is_idle (pool (this h))) as [[k0 v0]|] eqn:Efirst; [|discriminate].
  destruct Hs as [Hfst Hcore]. simpl in Hfst, Hcore. apply core_pool in Hcore.
  exists k0, v0. split; [reflexivity|]. split; [congruence|].
  rewrite Hcore.
  now apply (update_first_hit is_idle
               (fun i => set_lastUsed (clock drv (trace (this h))) (set_status busy i))).
Qed.




End Exclusive.


(** * Reuse, waiting and eviction *)

Section Timers.

Lemma find_cleared (t : TimerId) (ts : list (TimerId * string)) :
  find (fun e => Nat.eqb (fst e) t) (cleared (Some t) ts) = None.
Proof.
  simpl. induction ts as [|[t' k] ts IH]; simpl; [reflexivity|].
  destruct (Nat.eqb t' t) eqn:E; simpl; [exact IH | now rewrite E].
Qed.

Lemma find_added (t : TimerId) (k : string) (ts : list (TimerId * string)) :
  (forall t' k', In (t', k') ts -> t' < t) ->
  find (fun e => Nat.eqb (fst e) t) (ts ++ [(t, k)]) = Some (t, k).
Proof.
  induction ts as [|[t' k'] ts IH]; simpl; intros Hold.
  - now rewrite Nat.eqb_refl.
  - destruct (Nat.eqb t' t) eqn:E.
    + apply Nat.eqb_eq in E. specialize (Hold t' k' (or_introl eq_refl)). lia.
    + apply IH. intros t1 k1 Hin. apply (Hold t1 k1). now right.
Qed.

Lemma first_idle_after_update (q : PageInfo -> bool) (g : PageInfo -> PageInfo)
    (m : list (string * PageInfo)) k0 v0 :
  first_entry is_idle m = None -> first_entry q m = Some (k0, v0) ->
  is_idle (g v0) = true ->
  first_entry is_idle (update_first q g m) = Some (k0, g v0).
Proof.
  unfold first_entry. induction m as [|[k x] m IH]; simpl; [discriminate|].
  destruct (is_idle x) eqn:Ex; [discriminate|]. intros Hnone.
  destruct (q x); simpl.
  - intros E Hg. inversion E; subst. now rewrite Hg.
  - intros E Hg. rewrite Ex. now apply IH.
Qed.

End Timers.

Section Reuse.
Context (drv : Driver).

Lemma fire_cases (t : TimerId) (h : Heap RenderObj) :
  let h' := snd (PagePool.fire drv t h) in
  match find (fun e => Nat.eqb (fst e) t) (timers (this h)) with
  | None => PagePool.fire drv t h = (Ok tt, h)
  | Some (_, k) =>
      match Map_get k (pool (this h)) with
      | Some info =>
          if is_idle info
          then pool (this h') = Map_delete k (pool (this h))
               /\ trace (this h') = trace (this h) ++ [Drv.close (page info)]
          else pool (this h') = pool (this h) /\ trace (this h') = trace (this h)
      | None => pool (this h') = pool (this h) /\ trace (this h') = trace (this h)
      end
  end.
Proof.
  cbv zeta. rewrite fire_whole.
  rewrite (bind_Ok get_this _ h (this h) h) by reflexivity.
  destruct (find (fun e => Nat.eqb (fst e) t) (timers (this h))) as [[t' k]|]; [|reflexivity].
  erewrite bind_Ok by reflexivity. cbv beta.
  rewrite idleTimerCallback_whole.
  erewrite bind_Ok by reflexivity. cbv beta. cbn [this on_this with_timers pool].
  destruct (Map_get k (pool (this h))) as [info|]; [|split; reflexivity].
  destruct (is_idle info); [|split; reflexivity].
  unfold bind, catch_noop, call, modify_this. cbn [this on_this with_timers trace].
  destruct (settles drv (trace (this h)) (Drv.close (page info))); split; reflexivity.
Qed.

(** X3. While a slot is Idle, [acquirePage] opens no tab: it resolves
    with the page of the first Idle slot without a call to the browser,
    the map keeps its keys, the slot is Busy afterwards, and the
    timeout the slot held is no longer pending, so that it cannot close
    the page under the caller. *)
Theorem X3_acquirePage_reuses_idle_page (h : Heap RenderObj) k v :
  first_entry is_idle (pool (this h)) = Some (k, v) ->
  exists h',
    PagePool.acquirePage drv h = (Ok (page v), h')
    /\ trace (this h') = trace (this h)
    /\ nextPage (this h') = nextPage (this h)
    /\ map fst (pool (this h')) = map fst (pool (this h))
    /\ In (k, set_lastUsed (clock drv (trace (this h))) (set_status busy v)) (pool (this h'))
    /\ forall t, timer v = Some t -> PagePool.fire drv t h' = (Ok tt, h').
Proof.
  intros Efirst. exists (snd (PagePool.takeIdle drv h)).
  pose proof (acquirePage_cases drv h) as Hc. rewrite Efirst in Hc.
  pose proof (takeIdle_spec drv h) as Hs. cbv zeta in Hs. rewrite Efirst in Hs.
  destruct Hs as [_ Hcore]. unfold core in Hcore. inversion Hcore as [[Hpool Htimers Hnext]].
  split; [exact Hc|]. split; [apply takeIdle_pages|].
  split; [apply takeIdle_same_next|].
  split; [rewrite Hpool; apply update_first_keys|].
  split.
  - rewrite Hpool.
    now apply (update_first_hit is_idle
                 (fun i => set_lastUsed (clock drv (trace (this h))) (set_status busy i))).
  - intros t Ht. pose proof (fire_cases t (snd (PagePool.takeIdle drv h))) as Hf.
    cbv zeta in Hf. rewrite Htimers, Ht, find_cleared in Hf. exact Hf.
Qed.

(** X4. With every slot Busy and the map at its capacity, [acquirePage]
    does not settle and changes nothing, and a tick of its polling
    callback finds no page; once a page is released, the next tick
    resolves with that page. *)
Theorem X4_acquirePage_waits_for_release (n : nat) (h : Heap RenderObj) (p : Page) :
  pool_reach drv n h ->
  first_entry is_idle (pool (this h)) = None ->
  PagePool.maxSize <= List.length (pool (this h)) ->
  holds p (pool (this h)) ->
  PagePool.acquirePage drv h = (Pending, h)
  /\ PagePool.poll drv h = (Ok None, h)
  /\ fst (PagePool.poll drv (snd (PagePool.releasePage drv p h))) = Ok (Some p).
Proof.
  intros Hreach Hnone Hfull (k & v & Hin & Hpage).
  split; [|split].
  - pose proof (acquirePage_cases drv h) as Hc. rewrite Hnone in Hc.
    destruct (Nat.ltb (List.length (pool (this h))) PagePool.maxSize) eqn:E; [|exact Hc].
    apply Nat.ltb_lt in E. lia.
  - pose proof (takeIdle_spec drv h) as Hs. cbv zeta in Hs. now rewrite Hnone in Hs.
  - assert (Hhas : has_page p v = true) by (unfold has_page; rewrite Hpage; apply Nat.eqb_refl).
    destruct (first_entry_exists (has_page p) _ k v Hin Hhas) as (k0 & v0 & Efirst).
    destruct (first_entry_In _ _ _ _ Efirst) as [_ Hp0].
    unfold has_page in Hp0. apply Nat.eqb_eq in Hp0.
    destruct (pool_reach_inv drv n h Hreach) as [Hrt _].
    pose proof (releasePage_spec drv p h) as Hs. cbv zeta in Hs. rewrite Efirst in Hs.
    specialize (Hs (keys_unique _ _ _ Hrt)). apply core_pool in Hs.
    pose proof (takeIdle_spec drv (snd (PagePool.releasePage drv p h))) as Ht. cbv zeta in Ht.
    rewrite Hs in Ht.
    rewrite (first_idle_after_update (has_page p)
               (fun i => set_timer (Some (nextTimer (this h)))
                           (set_lastUsed (clock drv (trace (this h))) (set_status idle i)))
               _ k0 v0 Hnone Efirst eq_refl) in Ht.
    destruct Ht as [Ht _]. unfold PagePool.poll. rewrite Ht. simpl. now rewrite Hp0.
Qed.

End Reuse.

Section Eviction.
Context (drv : Driver).

Lemma removePage_cases (p : Page) (h : Heap RenderObj) :
  let out := PagePool.removePage drv p h in
  match first_entry (has_page p) (pool (this h)) with
  | None => out = (Ok tt, h)
  | Some (k0, v0) =>
      fst out = Ok tt
      /\ pool (this (snd out)) = Map_delete k0 (pool (this h))
      /\ trace (this (snd out))
         = trace (this h) ++ [Drv.removeAllListeners p; Drv.close (page v0)]
  end.
Proof.
  cbv zeta. rewrite removePage_whole.
  rewrite (bind_Ok get_this _ h (this h) h) by reflexivity.
  destruct (first_entry (has_page p) (pool (this h))) as [[k0 v0]|]; [|reflexivity].
  destruct (timer v0);
    unfold bind, clearTimeout, modify_this, note, catch_noop, call, ret; cbn;
    match goal with
    | |- context [settles drv ?tr ?c] => destruct (settles drv tr c)
    end; cbn; rewrite <- app_assoc; repeat split.
Qed.

(** The slot the loops of [releasePage] and [removePage] stop at. *)
Lemma held_slot (p : Page) (m : list (string * PageInfo)) :
  holds p m ->
  exists k0 v0, first_entry (has_page p) m = Some (k0, v0) /\ In (k0, v0) m /\ page v0 = p.
Proof.
  intros (k & v & Hin & Hpage).
  assert (Hhas : has_page p v = true) by (unfold has_page; rewrite Hpage; apply Nat.eqb_refl).
  destruct (first_entry_exists (has_page p) _ k v Hin Hhas) as (k0 & v0 & Efirst).
  destruct (first_entry_In _ _ _ _ Efirst) as [Hin0 Hp0].
  unfold has_page in Hp0. apply Nat.eqb_eq in Hp0. now exists k0, v0.
Qed.

Lemma not_held (p : Page) (m : list (string * PageInfo)) :
  ~ holds p m -> first_entry (has_page p) m = None.
Proof.
  intros Hno. destruct (first_entry (has_page p) m) as [[k0 v0]|] eqn:E; [|reflexivity].
  destruct (first_entry_In _ _ _ _ E) as [Hin Hp]. exfalso. apply Hno.
  exists k0, v0. split; [exact Hin|]. unfold has_page in Hp. now apply Nat.eqb_eq in Hp.
Qed.

(** Deleting the key of the one slot that holds [p]. *)
Lemma delete_held (p : Page) (m : list (string * PageInfo)) k0 v0 :
  NoDup (map fst m) -> NoDup (pages m) -> In (k0, v0) m -> page v0 = p ->
  ~ holds p (Map_delete k0 m)
  /\ S (List.length (Map_delete k0 m)) = List.length m
  /\ forall q, q <> p -> holds q m -> holds q (Map_delete k0 m).
Proof.
  intros Hkeys Hpages Hin Hpage.
  destruct (Map_delete_keys k0 m Hkeys) as [_ Hdel].
  split; [|split].
  - intros (k & x & Hinx & Hpx). apply Hdel in Hinx. destruct Hinx as [Hinx Hne].
    assert (Heq : (k, x) = (k0, v0)).
    { apply (NoDup_map_eq (fun e => page (snd e)) m); try assumption. simpl. congruence. }
    inversion Heq. contradiction.
  - apply Map_delete_present. apply (in_map fst) in Hin. exact Hin.
  - intros q Hq (k & x & Hinx & Hpx). exists k, x. split; [|exact Hpx].
    apply Hdel. split; [exact Hinx|]. intros ->.
    assert (x = v0).
    { pose proof (In_Map_get _ _ _ Hkeys Hinx) as E1.
      pose proof (In_Map_get _ _ _ Hkeys Hin) as E2. congruence. }
    subst x. congruence.
Qed.

(** X5. A page that is released and not taken again is evicted when its
    timeout fires: the slot is deleted, the page is closed, and every
    other slot stays. *)
Theorem X5_released_page_is_evicted_on_timeout (n : nat) (h : Heap RenderObj) (p : Page) :
  pool_reach drv n h -> holds p (pool (this h)) ->
  let h1 := snd (PagePool.releasePage drv p h) in
  let h2 := snd (PagePool.fire drv (nextTimer (this h)) h1) in
  ~ holds p (pool (this h2))
  /\ S (List.length (pool (this h2))) = List.length (pool (this h))
  /\ trace (this h2) = trace (this h) ++ [Drv.close p]
  /\ forall q, q <> p -> holds q (pool (this h)) -> holds q (pool (this h2)).
Proof.
  intros Hreach Hheld h1 h2.
  destruct (pool_reach_inv drv n h Hreach) as [Hrt _].
  destruct (pool_reach_pages drv n h Hreach) as [Hpages _].
  pose proof (keys_unique _ _ _ Hrt) as Hkeys.
  destruct (held_slot p _ Hheld) as (k0 & v0 & Efirst & Hin0 & Hp0).
  set (g := fun i => set_timer (Some (nextTimer (this h)))
                       (set_lastUsed (clock drv (trace (this h))) (set_status idle i))).
  pose proof (releasePage_spec drv p h) as Hs. cbv zeta in Hs. rewrite Efirst in Hs.
  specialize (Hs Hkeys). unfold core in Hs. inversion Hs as [[Hpool1 Hts1 Hnext1]].
  fold h1 in Hpool1, Hts1. fold g in Hpool1.
  destruct (releasePage_pages drv p h) as [Hpg1 Htr1]. fold h1 in Hpg1, Htr1.
  assert (Hkeys1 : map fst (pool (this h1)) = map fst (pool (this h)))
    by (rewrite Hpool1; apply update_first_keys).
  pose proof (fire_cases drv (nextTimer (this h)) h1) as Hf. cbv zeta in Hf. fold h2 in Hf.
  rewrite Hts1, find_added in Hf.
  2:{ intros t' k' Hin'. apply cleared_In in Hin'. destruct Hin' as [Hin' _].
      exact (handles_old _ _ _ Hrt t' k' Hin'). }
  destruct (Map_update_update_first (has_page p) g (fun i => i) (pool (this h)) k0 v0
              Hkeys Efirst) as [_ Hget].
  rewrite Hpool1, Hget in Hf. change (is_idle (g v0)) with true in Hf.
  destruct Hf as [Hpool2 Htr2].
  assert (Hin1 : In (k0, g v0) (update_first (has_page p) g (pool (this h))))
    by (now apply update_first_hit).
  destruct (delete_held p (update_first (has_page p) g (pool (this h))) k0 (g v0))
    as (Hgone & Hlen & Hrest).
  - now rewrite update_first_keys.
  - rewrite <- Hpool1, Hpg1. exact Hpages.
  - exact Hin1.
  - exact Hp0.
  - rewrite Hpool2. split; [exact Hgone|]. split; [|split].
    + rewrite Hlen. apply update_first_length.
    + rewrite Htr2, Htr1. simpl. now rewrite Hp0.
    + intros q Hq (k & x & Hinx & Hpx). apply Hrest; [exact Hq|].
      assert (Hne : k <> k0).
      { intros ->. pose proof (In_Map_get _ _ _ Hkeys Hinx) as E1.
        pose proof (In_Map_get _ _ _ Hkeys Hin0) as E2. congruence. }
      exists k, x. split; [|exact Hpx].
      apply (update_first_In (has_page p) g _ k0 v0 Hkeys Efirst). right. now split.
Qed.

(** X7. [removePage] always resolves, also when closing the page is
    rejected, and afterwards no slot holds the page.  A page of the
    pool loses its listeners, is closed, and its slot is the one slot
    that goes; for a page the pool does not hold nothing happens. *)
Theorem X7_removePage_discards_page (n : nat) (h : Heap RenderObj) (p : Page) :
  pool_reach drv n h ->
  let out := PagePool.removePage drv p h in
  fst out = Ok tt
  /\ ~ holds p (pool (this (snd out)))
  /\ (forall q, q <> p -> holds q (pool (this h)) -> holds q (pool (this (snd out))))
  /\ (holds p (pool (this h)) ->
      S (List.length (pool (this (snd out)))) = List.length (pool (this h))
      /\ trace (this (snd out)) = trace (this h) ++ [Drv.removeAllListeners p; Drv.close p])
  /\ (~ holds p (pool (this h)) -> snd out = h).
Proof.
  intros Hreach out.
  destruct (pool_reach_inv drv n h Hreach) as [Hrt _].
  destruct (pool_reach_pages drv n h Hreach) as [Hpages _].
  pose proof (keys_unique _ _ _ Hrt) as Hkeys.
  pose proof (removePage_cases p h) as Hc. cbv zeta in Hc. fold out in Hc.
  destruct (first_entry (has_page p) (pool (this h))) as [[k0 v0]|] eqn:Efirst.
  - destruct Hc as (Hfst & Hpool & Htr).
    destruct (first_entry_In _ _ _ _ Efirst) as [Hin0 Hp0].
    unfold has_page in Hp0. apply Nat.eqb_eq in Hp0.
    destruct (delete_held p (pool (this h)) k0 v0 Hkeys Hpages Hin0 Hp0) as (Hgone & Hlen & Hrest).
    rewrite Hpool, Htr, Hp0. repeat split; try assumption.
    intros Hno. exfalso. apply Hno. now exists k0, v0.
  - rewrite Hc. simpl.
    assert (Hno : ~ holds p (pool (this h))).
    { intros Hheld. destruct (held_slot p _ Hheld) as (k0 & v0 & E & _). congruence. }
    repeat split; try assumption; try tauto.
Qed.

(** X8. Releasing a page the pool does not hold, or letting a timeout
    fire that is not pending, changes nothing. *)
Theorem X8_unknown_page_or_timeout_is_ignored (h : Heap RenderObj) (p : Page) (t : TimerId) :
  (~ holds p (pool (this h)) -> PagePool.releasePage drv p h = (Ok tt, h))
  /\ (~ In t (map fst (timers (this h))) -> PagePool.fire drv t h = (Ok tt, h)).
Proof.
  split.
  - intros Hno. pose proof (releasePage_spec drv p h) as Hs. cbv zeta in Hs.
    now rewrite (not_held p _ Hno) in Hs.
  - intros Hno. pose proof (fire_cases drv t h) as Hf. cbv zeta in Hf.
    destruct (find (fun e => Nat.eqb (fst e) t) (timers (this h))) as [[t' k]|] eqn:E;
      [|exact Hf].
    apply find_some in E. destruct E as [Hin Ht]. simpl in Ht. apply Nat.eqb_eq in Ht. subst t'.
    exfalso. apply Hno. now apply (in_map fst) in Hin.
Qed.

Lemma closeAll_loop_trace (l : list (string * PageInfo)) (h : Heap RenderObj) :
  exists h',
    for_of l (fun e =>
      match timer (snd e) with
      | Some t => clearTimeout t
      | None => ret tt
      end ;;
      catch_noop (call drv (Drv.close (page (snd e))))) h = (Ok tt, h')
    /\ trace (this h') = trace (this h) ++ map Drv.close (pages l)
    /\ (forall e, In e (timers (this h')) -> In e (timers (this h)))
    /\ (forall k v t, In (k, v) l -> timer v = Some t -> ~ In t (map fst (timers (this h')))).
Proof.
  revert h. induction l as [|[k0 v0] l IH]; intros h; simpl.
  - exists h. split; [reflexivity|]. split; [now rewrite app_nil_r|]. split; [tauto|]. tauto.
  - set (h1 := on_this (with_trace (fun tr => tr ++ [Drv.close (page v0)]))
                 (on_this (with_timers (cleared (timer v0))) h)).
    assert (Estep : bind (match timer v0 with
                          | Some t => clearTimeout t
                          | None => ret tt
                          end) (fun _ => catch_noop (call drv (Drv.close (page v0)))) h
                    = (Ok tt, h1)).
    { unfold bind, clearTimeout, modify_this, catch_noop, call, ret, h1.
      destruct (timer v0); cbn;
        match goal with
        | |- context [settles drv ?tr ?c] => destruct (settles drv tr c)
        end; destruct h as [[] ?]; reflexivity. }
    destruct (IH h1) as (h' & Hrun & Htr & Hsub & Hclr).
    exists h'. rewrite (bind_Ok _ _ _ _ _ Estep). split; [exact Hrun|].
    split; [rewrite Htr; simpl; now rewrite <- app_assoc|].
    split.
    + intros e He. apply Hsub in He. simpl in He.
      destruct e as [t k]. destruct (timer v0); [|exact He].
      apply (cleared_In (Some t0)) in He. tauto.
    + intros k v t [E|Hin] Ht; [|now apply (Hclr k v t)].
      inversion E; subst. intros Habs. apply in_map_iff in Habs.
      destruct Habs as ([t' k'] & Et & Hin'). simpl in Et. subst t'.
      apply Hsub in Hin'. simpl in Hin'. rewrite Ht in Hin'.
      apply (cleared_In (Some t)) in Hin'. destruct Hin' as [_ Hne]. now apply Hne.
Qed.

(** X9. [closeAll] always resolves, also when a page refuses to close:
    it closes the page of every slot once, in the order of the map,
    empties the map, and leaves no timeout pending that a slot held. *)
Theorem X9_closeAll_closes_every_page (h : Heap RenderObj) :
  exists h',
    PagePool.closeAll drv h = (Ok tt, h')
    /\ pool (this h') = []
    /\ trace (this h') = trace (this h) ++ map Drv.close (pages (pool (this h)))
    /\ forall k v t, In (k, v) (pool (this h)) -> timer v = Some t ->
         ~ In t (map fst (timers (this h'))).
Proof.
  destruct (closeAll_loop_trace (pool (this h)) h) as (h1 & Hrun & Htr & _ & Hclr).
  exists (on_this (with_pool (fun _ => [])) h1).
  unfold PagePool.closeAll.
  rewrite (bind_Ok get_this _ h (this h) h) by reflexivity.
  rewrite (bind_Ok _ _ _ _ _ Hrun).
  split; [reflexivity|]. split; [reflexivity|]. split; [exact Htr | exact Hclr].
Qed.

End Eviction.

(** ** The properties on the pool of a new browser *)

Lemma taken_reach : pool_reach steady 0 taken.
Proof. apply (reach_step steady 0 _ acquirePage), reach_init. Qed.

Lemma full_reach : pool_reach steady 0 full.
Proof.
  exact (pool_reach_iter steady acquirePage 10 0 _ (reach_init steady 0 (plain "http://a"))).
Qed.

Lemma taken_holds : holds 0 (pool (this taken)).
Proof. apply pages_In. vm_compute. now left. Qed.

Lemma X1_witness :
  pool_reach steady 1 crowded /\ NoDup (pages (pool (this crowded))).
Proof.
  split; [exact crowded_reach|].
  exact (proj1 (X1_slots_hold_distinct_pages steady 1 crowded crowded_reach)).
Defined.

(** The page released a moment ago is the one the next task gets. *)
Lemma X3_witness :
  exists k v h',
    first_entry is_idle (pool (this rested)) = Some (k, v)
    /\ PagePool.acquirePage steady rested = (Ok (page v), h')
    /\ trace (this h') = trace (this rested).
Proof.
  destruct (first_entry is_idle (pool (this rested))) as [[k v]|] eqn:E;
    [|vm_compute in E; discriminate].
  destruct (X3_acquirePage_reuses_idle_page steady rested k v E) as (h' & Hrun & Htr & _).
  exists k, v, h'. split; [reflexivity|]. split; [exact Hrun | exact Htr].
Defined.

Lemma X4_witness :
  pool_reach steady 0 full
  /\ first_entry is_idle (pool (this full)) = None
  /\ PagePool.maxSize <= List.length (pool (this full))
  /\ holds 0 (pool (this full))
  /\ PagePool.acquirePage steady full = (Pending, full)
  /\ fst (PagePool.poll steady (snd (PagePool.releasePage steady 0 full))) = Ok (Some 0).
Proof.
  assert (Hnone : first_entry is_idle (pool (this full)) = None) by (vm_compute; reflexivity).
  assert (Hlen : PagePool.maxSize <= List.length (pool (this full))) by (vm_compute; lia).
  assert (Hheld : holds 0 (pool (this full))) by (apply pages_In; vm_compute; now left).
  destruct (X4_acquirePage_waits_for_release steady 0 full 0 full_reach Hnone Hlen Hheld)
    as (Hwait & _ & Hwake).
  split; [exact full_reach|]. split; [exact Hnone|]. split; [exact Hlen|].
  split; [exact Hheld|]. split; [exact Hwait | exact Hwake].
Defined.

Lemma X5_witness :
  pool_reach steady 0 taken
  /\ holds 0 (pool (this taken))
  /\ ~ holds 0 (pool (this (snd (PagePool.fire steady (nextTimer (this taken))
                                   (snd (PagePool.releasePage steady 0 taken)))))).
Proof.
  split; [exact taken_reach|]. split; [exact taken_holds|].
  exact (proj1 (X5_released_page_is_evicted_on_timeout steady 0 taken 0 taken_reach taken_holds)).
Defined.

Lemma X7_witness :
  pool_reach steady 0 taken
  /\ fst (PagePool.removePage steady 0 taken) = Ok tt
  /\ ~ holds 0 (pool (this (snd (PagePool.removePage steady 0 taken)))).
Proof.
  split; [exact taken_reach|].
  destruct (X7_removePage_discards_page steady 0 taken 0 taken_reach) as (Hok & Hgone & _).
  split; [exact Hok | exact Hgone].
Defined.

(** * The bookkeeping of [render] *)

Lemma same_list_refl h : same_list h h.
Proof. reflexivity. Qed.

Lemma same_list_trans a b c : same_list a b -> same_list b c -> same_list a c.
Proof. unfold same_list. congruence. Qed.

Lemma same_list_trace f h : same_list h (on_this (with_trace f) h).
Proof. reflexivity. Qed.

Ltac list_frame :=
  frame same_list_refl same_list_trans same_list_trace;
  try solve [ reflexivity | auto with frames ].

Lemma bind_assoc {T A B C} (m : Async T A) (f : A -> Async T B) (g : B -> Async T C) h :
  bind (bind m f) g h = bind m (fun x => bind (f x) g) h.
Proof. unfold bind. destruct (m h) as [[a|e|] h1]; reflexivity. Qed.

(** Whatever becomes of [m], the code after it maintains [R]. *)
Lemma bind_after {T A B} (R : Heap T -> Heap T -> Prop) (m : Async T A)
    (k : A -> Async T B) h :
  (forall x, R x x) -> (forall a, respects R (k a)) -> R (snd (m h)) (snd (bind m k h)).
Proof.
  intros Hrefl Hk. unfold bind. destruct (m h) as [[a|e|] h1]; simpl; [apply Hk | apply Hrefl ..].
Qed.

Section InFlight.
Context (drv : Driver).

Lemma browser_newPage_same_list : respects same_list (browser_newPage drv).
Proof.
  intros h. unfold browser_newPage, bind, send, newPage_answered.
  destruct (settles drv _ Drv.newPage); reflexivity.
Qed.

Lemma newPage_answered_same_list o : respects same_list (newPage_answered o).
Proof. intros h. unfold newPage_answered. destruct o; reflexivity. Qed.

Lemma clearTimeout_same_list t : respects same_list (clearTimeout t).
Proof. intros h. reflexivity. Qed.

Lemma setTimeout_same_list k : respects same_list (setTimeout k).
Proof. intros h. reflexivity. Qed.

Lemma generateId_same_list : respects same_list (PagePool.generateId drv).
Proof. intros h. reflexivity. Qed.
Hint Resolve browser_newPage_same_list newPage_answered_same_list clearTimeout_same_list
  setTimeout_same_list generateId_same_list : frames.

Lemma createNewPage_same_list : respects same_list (PagePool.createNewPage drv).
Proof. unfold PagePool.createNewPage, PagePool.createNewPage_end.
  list_frame. Qed.

Lemma startIdleTimer_same_list k : respects same_list (PagePool.startIdleTimer k).
Proof. unfold PagePool.startIdleTimer. list_frame. Qed.
Hint Resolve createNewPage_same_list startIdleTimer_same_list : frames.

Lemma createPage_same_list : respects same_list (PagePool.createPage drv).
Proof. unfold PagePool.createPage, PagePool.take_created.
  list_frame. Qed.

Lemma takeIdle_same_list : respects same_list (PagePool.takeIdle drv).
Proof. unfold PagePool.takeIdle. list_frame. Qed.
Hint Resolve createPage_same_list takeIdle_same_list : frames.

Lemma acquirePage_same_list : respects same_list (PagePool.acquirePage drv).
Proof. unfold PagePool.acquirePage, PagePool.acquirePage_begin, PagePool.createNewPage_end, PagePool.take_created.
  list_frame. Qed.

Lemma releasePage_same_list p : respects same_list (PagePool.releasePage drv p).
Proof. unfold PagePool.releasePage. list_frame. Qed.

Lemma removePage_same_list p : respects same_list (PagePool.removePage drv p).
Proof. unfold PagePool.removePage, PagePool.removePage_begin, PagePool.removePage_end.
  list_frame. Qed.
Hint Resolve acquirePage_same_list releasePage_same_list removePage_same_list : frames.

Lemma setViewport_same_list page w h d : respects same_list (Render.setViewport drv page w h d).
Proof. unfold Render.setViewport. list_frame. Qed.

Lemma or_else_same_list (a b : M (option ElementHandle)) :
  respects same_list a -> respects same_list b -> respects same_list (Render.or_else a b).
Proof. intros Ha Hb. unfold Render.or_else. list_frame. Qed.

Lemma elementHandle_same_list page name : respects same_list (Render.elementHandle drv page name).
Proof.
  unfold Render.elementHandle.
  list_frame; repeat (apply or_else_same_list); list_frame.
Qed.

Lemma slices_same_list body w bh ht ixs : respects same_list (Render.slices drv body w bh ht ixs).
Proof. induction ixs as [|i ixs IH]; simpl; list_frame. Qed.
Hint Resolve setViewport_same_list elementHandle_same_list slices_same_list : frames.

Lemma capture_same_list page : respects same_list (Render.capture drv page).
Proof. unfold Render.capture. list_frame. Qed.

Lemma optionalWaits_same_list page : respects same_list (Render.optionalWaits drv page).
Proof. unfold Render.optionalWaits. list_frame. Qed.

Lemma openPage_same_list : respects same_list (Render.openPage drv).
Proof. unfold Render.openPage. list_frame. Qed.
Hint Resolve optionalWaits_same_list openPage_same_list : frames.

Lemma newPage_same_list : respects same_list (Render.newPage drv).
Proof. unfold Render.newPage. list_frame. Qed.

Lemma list_delete_set (echo : string) (l : list string) :
  Render.list_delete echo (Render.list_set echo l) = Render.list_delete echo l.
Proof.
  unfold Render.list_delete, Render.list_set.
  destruct (existsb (String.eqb echo) l); [reflexivity|].
  rewrite filter_app. simpl. rewrite String.eqb_refl. simpl. apply app_nil_r.
Qed.

Lemma list_delete_gone (echo : string) (l : list string) :
  ~ In echo (Render.list_delete echo l).
Proof.
  unfold Render.list_delete. intros Hin. apply filter_In in Hin.
  destruct Hin as [_ H]. rewrite String.eqb_refl in H. discriminate.
Qed.

(** The three ways [render] ends. *)
Lemma render_cases (echo : string) (h : Heap RenderObj) :
  let h0 := on_this (with_list (Render.list_set echo)) h in
  let gone := with_list (Render.list_delete echo) in
  match Render.newPage drv h0 with
  | (Pending, h1) => Render.render drv echo h = (Pending, h1)
  | (Throw e, h1) => Render.render drv echo h = (Throw e, on_this gone h1)
  | (Ok p, h1) =>
      match Render.capture drv p h1 with
      | (Pending, h2) => Render.render drv echo h = (Pending, h2)
      | (Throw e, h2) =>
          Render.render drv echo h
          = (Throw e, on_this gone (snd (PagePool.removePage drv p h2)))
      | (Ok r, h2) =>
          Render.render drv echo h
          = (Ok r, snd (PagePool.releasePage drv p
                          (on_this (with_trace (fun t => t ++ [Drv.emit "screenshot" (id (this h2))]))
                             (on_this gone h2))))
      end
  end.
Proof.
  cbv zeta. unfold Render.render.
  erewrite bind_Ok by reflexivity. cbv beta.
  destruct (Render.newPage drv _) as [[p|e|] h1] eqn:Enew.
  - erewrite bind_Ok by (unfold settle; rewrite Enew; reflexivity). cbv beta iota.
    destruct (Render.capture drv p h1) as [[r|e|] h2] eqn:Ecap.
    + erewrite bind_Ok by (unfold settle; rewrite Ecap; reflexivity). cbv beta iota.
      erewrite bind_Ok by reflexivity. cbv beta.
      erewrite bind_Ok by reflexivity. cbv beta.
      erewrite bind_Ok by reflexivity. cbv beta.
      match goal with
      | |- bind (PagePool.releasePage drv p) _ ?hh = _ =>
          destruct (releasePage_total drv p hh) as (h5 & Hrel);
          rewrite (bind_Ok _ _ _ _ _ Hrel)
      end.
      unfold ret. f_equal. symmetry. exact (f_equal snd Hrel).
    + erewrite bind_Ok by (unfold settle; rewrite Ecap; reflexivity). cbv beta iota.
      destruct (removePage_total drv p h2) as (h3 & Hrem).
      rewrite (bind_Ok _ _ _ _ _ Hrem), Hrem.
      erewrite bind_Ok by reflexivity. reflexivity.
    + erewrite bind_Pending by (unfold settle; rewrite Ecap; reflexivity). reflexivity.
  - erewrite bind_Ok by (unfold settle; rewrite Enew; reflexivity). cbv beta iota.
    erewrite bind_Ok by reflexivity. reflexivity.
  - erewrite bind_Pending by (unfold settle; rewrite Enew; reflexivity). reflexivity.
Qed.

(** X10. However [render] settles, the echo of the task is no longer
    among the echoes in flight afterwards and the other echoes are as
    before; while the task waits for a page, its echo is in flight. *)
Theorem X10_render_clears_echo (echo : string) (h : Heap RenderObj) :
  let out := Render.render drv echo h in
  match fst out with
  | Pending => list_ (this (snd out)) = Render.list_set echo (list_ (this h))
  | _ => list_ (this (snd out)) = Render.list_delete echo (list_ (this h))
         /\ ~ In echo (list_ (this (snd out)))
  end.
Proof.
  cbv zeta. pose proof (render_cases echo h) as Hc. cbv zeta in Hc.
  set (h0 := on_this (with_list (Render.list_set echo)) h) in *.
  assert (Hdone : forall hh : Heap RenderObj, list_ (this hh) = list_ (this h0) ->
            Render.list_delete echo (list_ (this hh)) = Render.list_delete echo (list_ (this h))
            /\ ~ In echo (Render.list_delete echo (list_ (this hh)))).
  { intros hh ->. split; [apply list_delete_set | apply list_delete_gone]. }
  destruct (Render.newPage drv h0) as [[p|e|] h1] eqn:Enew;
    pose proof (respects_run _ _ _ _ _ newPage_same_list Enew) as H1; unfold same_list in H1.
  - destruct (Render.capture drv p h1) as [[r|e|] h2] eqn:Ecap;
      pose proof (respects_run _ _ _ _ _ (capture_same_list p) Ecap) as H2;
      unfold same_list in H2; rewrite Hc; simpl fst; cbv iota; simpl snd.
    + rewrite (releasePage_same_list p _). simpl. apply Hdone. congruence.
    + simpl. rewrite (removePage_same_list p h2). apply Hdone. congruence.
    + rewrite H2, H1. reflexivity.
  - rewrite Hc. simpl. apply Hdone. exact H1.
  - rewrite Hc. simpl. exact H1.
Qed.

End InFlight.

(** * Tasks that fail *)

Lemma same_pool_wf (h h' : Heap RenderObj) : same_pool h h' -> pool_wf (this h) -> pool_wf (this h').
Proof.
  intros (Hp & Ht & Hn & Hnp) [Hinv Hpages]. split.
  - apply (pool_inv_same_core (this h)); [|exact Hinv]. unfold core. now rewrite Hp, Ht, Hn.
  - apply (pages_ok_same (this h)); [now rewrite Hp | exact Hnp | exact Hpages].
Qed.

Lemma pool_reach_wf (drv : Driver) (n : nat) (h : Heap RenderObj) :
  pool_reach drv n h -> pool_wf (this h).
Proof. intros H. split; [now apply (pool_reach_inv drv n) | now apply (pool_reach_pages drv n)]. Qed.

Section Failures.
Context (drv : Driver).

Lemma createPage_busy (h h' : Heap RenderObj) (p : Page) :
  PagePool.createPage drv h = (Ok p, h') ->
  exists k v, In (k, v) (pool (this h')) /\ page v = p /\ status v = busy.
Proof.
  intros E.
  destruct (createPage_pages drv h) as [_ [(e & He & _) | (k1 & v1 & Hp & Hpg & Hs & Hpool & _)]];
    rewrite E in *; simpl in *; [discriminate|].
  inversion Hp; subst p. exists k1, v1. rewrite Hpool. split; [apply Map_set_hit | now split].
Qed.

Lemma acquirePage_busy (h h' : Heap RenderObj) (p : Page) :
  PagePool.acquirePage drv h = (Ok p, h') ->
  exists k v, In (k, v) (pool (this h')) /\ page v = p /\ status v = busy.
Proof.
  intros E. pose proof (acquirePage_cases drv h) as Hc.
  pose proof (takeIdle_spec drv h) as Hs. cbv zeta in Hs.
  destruct (first_entry is_idle (pool (this h))) as [[k0 v0]|] eqn:Efirst.
  - rewrite E in Hc. inversion Hc; subst. destruct Hs as [Hfst _].
    destruct (PagePool.takeIdle drv h) as [r hh] eqn:Et. simpl in *. subst r.
    destruct (takeIdle_hands_idle drv h hh (page v0) Et) as (k1 & v1 & _ & Hp & Hin).
    eexists _, _. split; [exact Hin|]. split; [exact Hp | reflexivity].
  - destruct (Nat.ltb _ _); rewrite E in Hc; [|discriminate].
    now apply (createPage_busy h h' p).
Qed.

Lemma page_source_busy (d : Data.screenshot) (h h' : Heap RenderObj) (p : Page) :
  page_source drv d h = (Ok p, h') ->
  exists k v, In (k, v) (pool (this h')) /\ page v = p /\ status v = busy.
Proof.
  unfold page_source. destruct (Data.setRequestInterception d);
    [apply createPage_busy | apply acquirePage_busy].
Qed.

Lemma page_source_wf (d : Data.screenshot) (h : Heap RenderObj) :
  pool_wf (this h) -> pool_wf (this (snd (page_source drv d h))).
Proof.
  intros [Hinv Hpages]. unfold page_source. destruct (Data.setRequestInterception d); split.
  - now apply createPage_inv.
  - now apply createPage_pages_ok.
  - now apply acquirePage_inv.
  - now apply acquirePage_pages_ok.
Qed.

(** With no request interception, the page of the task is the one
    [acquirePage] resolves with. *)
Lemma openPage_plain (h h1 : Heap RenderObj) (p : Page) :
  Data.setRequestInterception (data h) = None ->
  Render.openPage drv h = (Ok p, h1) ->
  exists h0, PagePool.acquirePage drv h = (Ok p, h0).
Proof.
  intros Hcb H. unfold Render.openPage in H.
  rewrite (bind_Ok get_data _ h (data h) h) in H by reflexivity.
  rewrite (bind_Ok get_this _ h (this h) h) in H by reflexivity.
  rewrite Hcb in H.
  inv_bind H. rename a into p', h0 into hb.
  inv_bind Hstep. rename a into p0, h0 into h0'.
  inv_bind Hstep. apply ret_inv in Hstep. destruct Hstep as [<- <-].
  inv_bind H. inv_bind H. inv_bind H. apply ret_inv in H. destruct H as [<- <-].
  now exists h0'.
Qed.

Lemma openPage_after (h : Heap RenderObj) :
  same_pool (snd (page_source drv (data h) h)) (snd (Render.openPage drv h)).
Proof.
  unfold Render.openPage, page_source.
  rewrite (bind_Ok get_data _ h (data h) h) by reflexivity.
  rewrite (bind_Ok get_this _ h (this h) h) by reflexivity.
  destruct (Data.setRequestInterception (data h)); rewrite bind_assoc;
    (apply bind_after; [apply same_pool_refl | intro; pool_frame]).
Qed.

Lemma newPage_after (h : Heap RenderObj) :
  same_pool (snd (page_source drv (data h) h)) (snd (Render.newPage drv h)).
Proof.
  eapply same_pool_trans; [apply openPage_after|].
  unfold Render.newPage. apply bind_after; [apply same_pool_refl | intro; pool_frame].
  apply optionalWaits_same_pool.
Qed.

Lemma newPage_source (h h1 : Heap RenderObj) (p : Page) :
  Render.newPage drv h = (Ok p, h1) ->
  exists h0, page_source drv (data h) h = (Ok p, h0) /\ same_pool h0 h1.
Proof.
  intros Hnew. pose proof (newPage_after h) as Hafter. rewrite Hnew in Hafter. simpl in Hafter.
  unfold Render.newPage in Hnew. inv_bind Hnew. inv_bind Hnew.
  apply ret_inv in Hnew. destruct Hnew as [<- <-].
  assert (Hsrc : exists hs, page_source drv (data h) h = (Ok a, hs)).
  { unfold page_source. destruct (Data.setRequestInterception (data h)) as [cb|] eqn:Ecb.
    - destruct (openPage_intercepting drv cb h h0 a Ecb Hstep) as (hs & Hs & _). now exists hs.
    - now apply (openPage_plain h h0 a Ecb). }
  destruct Hsrc as (hs & Hs). exists hs. split; [exact Hs|]. now rewrite Hs in Hafter.
Qed.

Lemma newPage_wf (h : Heap RenderObj) :
  pool_wf (this h) -> pool_wf (this (snd (Render.newPage drv h))).
Proof.
  intros Hwf. apply (same_pool_wf _ _ (newPage_after h)). now apply page_source_wf.
Qed.

Lemma removePage_wf (p : Page) (h : Heap RenderObj) :
  pool_wf (this h) -> pool_wf (this (snd (PagePool.removePage drv p h))).
Proof. intros [Hinv Hpages]. split; [now apply removePage_inv | now apply removePage_pages_ok]. Qed.

Lemma releasePage_wf (p : Page) (h : Heap RenderObj) :
  pool_wf (this h) -> pool_wf (this (snd (PagePool.releasePage drv p h))).
Proof. intros [Hinv Hpages]. split; [now apply releasePage_inv | now apply releasePage_pages_ok]. Qed.

(** X11. The slot invariant of the pool (a Busy slot has no pending
    timeout, an Idle slot a pending one or none yet) and the distinct
    page handles are kept by a whole [render], whichever way it ends. *)
Theorem X11_render_keeps_pool_invariants (echo : string) (h : Heap RenderObj) :
  pool_inv (this h) -> pages_ok (this h) ->
  let h' := snd (Render.render drv echo h) in
  pages_ok (this h')
  /\ forall k v, In (k, v) (pool (this h')) ->
       (status v = busy -> ~ armed (timers (this h')) v)
       /\ (status v = idle -> armed (timers (this h')) v \/ timer v = None).
Proof.
  intros Hinv Hpages h'.
  assert (Hwf : pool_wf (this h')).
  { subst h'. pose proof (render_cases drv echo h) as Hc. cbv zeta in Hc.
    set (h0 := on_this (with_list (Render.list_set echo)) h) in *.
    assert (H0 : pool_wf (this h0)) by (apply (same_pool_wf h); [repeat split | now split]).
    pose proof (newPage_wf h0 H0) as H1.
    destruct (Render.newPage drv h0) as [[p|e|] h1]; simpl in H1.
    - pose proof (same_pool_wf _ _ (capture_same_pool drv p h1) H1) as H2.
      destruct (Render.capture drv p h1) as [[r|e|] h2]; simpl in H2; rewrite Hc; simpl snd.
      + apply releasePage_wf. eapply same_pool_wf; [|exact H2]. repeat split.
      + eapply same_pool_wf; [|apply (removePage_wf p h2 H2)]. repeat split.
      + exact H2.
    - rewrite Hc. simpl. eapply same_pool_wf; [|exact H1]. repeat split.
    - rewrite Hc. exact H1. }
  destruct Hwf as [[_ Hslots] Hpg]. split; [exact Hpg|].
  intros k v Hin. specialize (Hslots k v Hin). unfold slot_ok in Hslots.
  split; intros Hs; rewrite Hs in Hslots; exact Hslots.
Qed.

(** X12. When the capture fails on the page [newPage] resolved with,
    [render] rejects with the error of the capture, and the page is
    discarded: its listeners are removed, it is closed, and afterwards
    no slot of the pool holds it, so that no later task is given it. *)
Theorem X12_failed_capture_discards_page (echo : string) (h h1 h2 : Heap RenderObj)
    (p : Page) (e : Err) :
  pool_inv (this h) -> pages_ok (this h) ->
  Render.newPage drv (on_this (with_list (Render.list_set echo)) h) = (Ok p, h1) ->
  Render.capture drv p h1 = (Throw e, h2) ->
  exists h',
    Render.render drv echo h = (Throw e, h')
    /\ ~ holds p (pool (this h'))
    /\ S (List.length (pool (this h'))) = List.length (pool (this h1))
    /\ trace (this h') = trace (this h2) ++ [Drv.removeAllListeners p; Drv.close p].
Proof.
  intros Hinv Hpages Hnew Hcap.
  set (h0 := on_this (with_list (Render.list_set echo)) h) in *.
  assert (H0 : pool_wf (this h0)) by (apply (same_pool_wf h); [repeat split | now split]).
  pose proof (newPage_wf h0 H0) as H1. rewrite Hnew in H1. simpl in H1.
  pose proof (capture_same_pool drv p h1) as H12. rewrite Hcap in H12. simpl in H12.
  destruct (same_pool_wf _ _ H12 H1) as [[Hrt _] [Hpg _]].
  destruct (newPage_source h0 h1 p Hnew) as (hs & Hsrc & Hs1).
  destruct (page_source_busy _ _ _ _ Hsrc) as (k & v & Hin & Hpage & _).
  assert (Hheld : holds p (pool (this h2))).
  { exists k, v. destruct Hs1 as [Hs1 _]. destruct H12 as [H12 _]. rewrite H12, Hs1. now split. }
  destruct (held_slot p _ Hheld) as (k0 & v0 & Efirst & Hin0 & Hp0).
  pose proof (removePage_cases drv p h2) as Hrem. cbv zeta in Hrem. rewrite Efirst in Hrem.
  destruct Hrem as (_ & Hpool & Htr).
  destruct (delete_held p (pool (this h2)) k0 v0 (keys_unique _ _ _ Hrt) Hpg Hin0 Hp0)
    as (Hgone & Hlen & _).
  pose proof (render_cases drv echo h) as Hc. cbv zeta in Hc. fold h0 in Hc.
  rewrite Hnew, Hcap in Hc.
  eexists. split; [exact Hc|]. simpl. rewrite Hpool, Htr, Hp0.
  split; [exact Hgone|]. split; [|reflexivity].
  rewrite Hlen. destruct H12 as [H12 _]. now rewrite H12.
Qed.

(** X13. When [newPage] rejects after the pool has handed out a page
    (the headers, the navigation or the wait for [body] fail), [render]
    rejects with that error and neither releases nor removes the page:
    the pool is as the hand-out left it, and the slot of the page stays
    Busy. *)
Theorem X13_failed_navigation_leaves_page_busy (echo : string) (h h0 h1 : Heap RenderObj)
    (p : Page) (e : Err) :
  page_source drv (data h) (on_this (with_list (Render.list_set echo)) h) = (Ok p, h0) ->
  Render.newPage drv (on_this (with_list (Render.list_set echo)) h) = (Throw e, h1) ->
  exists h',
    Render.render drv echo h = (Throw e, h')
    /\ pool (this h') = pool (this h0)
    /\ timers (this h') = timers (this h0)
    /\ exists k v, In (k, v) (pool (this h')) /\ page v = p /\ status v = busy.
Proof.
  intros Hsrc Hnew.
  pose proof (newPage_after (on_this (with_list (Render.list_set echo)) h)) as Hafter.
  simpl data in Hafter. rewrite Hsrc, Hnew in Hafter. simpl in Hafter.
  destruct Hafter as (Hp & Ht & _).
  pose proof (render_cases drv echo h) as Hc. cbv zeta in Hc. rewrite Hnew in Hc.
  eexists. split; [exact Hc|]. simpl. split; [exact Hp|]. split; [exact Ht|].
  rewrite Hp. exact (page_source_busy _ _ _ _ Hsrc).
Qed.

End Failures.

Lemma pair_fst {A B} (x : A * B) (a : A) : fst x = a -> x = (a, snd x).
Proof. intros <-. apply surjective_pairing. Qed.

Lemma X11_witness :
  pool_inv (this (started steady (plain "http://a")))
  /\ pages_ok (this (started steady (plain "http://a")))
  /\ pages_ok (this (snd (Render.render steady "echo" (started steady (plain "http://a"))))).
Proof.
  pose proof (init_inv steady 0 (plain "http://a")) as Hinv.
  pose proof (init_pages_ok steady 0 (plain "http://a")) as Hpages.
  split; [exact Hinv|]. split; [exact Hpages|].
  exact (proj1 (X11_render_keeps_pool_invariants steady "echo"
                  (started steady (plain "http://a")) Hinv Hpages)).
Defined.

(** The browser refuses the capture: the task fails and page 0 is gone. *)
Lemma X12_witness :
  exists h',
    Render.render blind "echo" (started blind (plain "http://a")) = (Throw (DriverError 4), h')
    /\ ~ holds 0 (pool (this h')).
Proof.
  set (h := started blind (plain "http://a")).
  set (he := on_this (with_list (Render.list_set "echo")) h).
  assert (Enew : Render.newPage blind he = (Ok 0, snd (Render.newPage blind he)))
    by (apply pair_fst; vm_compute; reflexivity).
  assert (Ecap : Render.capture blind 0 (snd (Render.newPage blind he))
                 = (Throw (DriverError 4),
                    snd (Render.capture blind 0 (snd (Render.newPage blind he)))))
    by (apply pair_fst; vm_compute; reflexivity).
  destruct (X12_failed_capture_discards_page blind "echo" h _ _ 0 (DriverError 4)
              (init_inv blind 0 (plain "http://a")) (init_pages_ok blind 0 (plain "http://a"))
              Enew Ecap) as (h' & Hrun & Hgone & _).
  exists h'. split; [exact Hrun | exact Hgone].
Defined.

(** The first navigation is rejected: the task fails and page 0 stays
    Busy. *)
Lemma X13_witness :
  exists h' k v,
    Render.render flaky "echo" (started flaky (plain "http://a")) = (Throw (DriverError 1), h')
    /\ In (k, v) (pool (this h')) /\ page v = 0 /\ status v = busy.
Proof.
  set (h := started flaky (plain "http://a")).
  set (he := on_this (with_list (Render.list_set "echo")) h).
  assert (Esrc : page_source flaky (data h) he = (Ok 0, snd (page_source flaky (data h) he)))
    by (apply pair_fst; vm_compute; reflexivity).
  assert (Enew : Render.newPage flaky he = (Throw (DriverError 1), snd (Render.newPage flaky he)))
    by (apply pair_fst; vm_compute; reflexivity).
  destruct (X13_failed_navigation_leaves_page_busy flaky "echo" h _ _ 0 (DriverError 1) Esrc Enew)
    as (h' & Hrun & _ & _ & k & v & Hin & Hpage & Hbusy).
  exists h', k, v. split; [exact Hrun|]. split; [exact Hin|]. split; [exact Hpage | exact Hbusy].
Defined.

(** * Tasks and tabs *)

Section Tabs.
Context (drv : Driver).

(** X28. A task without request interception that finds an Idle slot
    runs on the page of the first such slot and opens no tab: when it
    succeeds, the pool holds the pages it held before, the browser has
    handed out no new page, and the slot of that page is Idle again. *)
Theorem X28_task_reuses_idle_page (echo : string) (h h' : Heap RenderObj)
    (r : RenderResult) k v :
  Data.setRequestInterception (data h) = None ->
  first_entry is_idle (pool (this h)) = Some (k, v) ->
  Render.render drv echo h = (Ok r, h') ->
  (exists h1, Render.newPage drv (on_this (with_list (Render.list_set echo)) h) = (Ok (page v), h1))
  /\ pages (pool (this h')) = pages (pool (this h))
  /\ nextPage (this h') = nextPage (this h)
  /\ exists k' v', In (k', v') (pool (this h')) /\ page v' = page v /\ status v' = idle.
Proof.
  intros Hcb Efirst Hrun.
  destruct (render_released drv echo h h' r Hrun) as (p & h1 & h2 & h3 & Hnew & Hcap & H23 & Hrel).
  set (he := on_this (with_list (Render.list_set echo)) h) in *.
  destruct (newPage_source drv he h1 p Hnew) as (hs & Hsrc & Hs1).
  unfold page_source in Hsrc. change (data he) with (data h) in Hsrc. rewrite Hcb in Hsrc.
  pose proof (acquirePage_cases drv he) as Hc.
  change (pool (this he)) with (pool (this h)) in Hc. rewrite Efirst, Hsrc in Hc.
  inversion Hc; subst p hs. clear Hc.
  pose proof (capture_same_pool drv (page v) h1) as H12. rewrite Hcap in H12. simpl in H12.
  assert (H13 : same_pool (snd (PagePool.takeIdle drv he)) h3)
    by (eapply same_pool_trans; [exact Hs1 | eapply same_pool_trans; [exact H12 | exact H23]]).
  destruct H13 as (Hp & _ & _ & Hn).
  destruct (releasePage_pages drv (page v) h3) as [Hpg _]. rewrite Hrel in Hpg. simpl in Hpg.
  pose proof (releasePage_same_next drv (page v) h3) as Hnx. unfold same_next in Hnx.
  rewrite Hrel in Hnx. simpl in Hnx.
  destruct (takeIdle_pages drv he) as [Hpt _].
  split; [now exists h1|]. split; [|split].
  - rewrite Hpg, Hp, Hpt. reflexivity.
  - rewrite Hnx, Hn. apply (takeIdle_same_next drv he).
  - destruct (acquirePage_busy drv he _ (page v) Hsrc) as (k1 & v1 & Hin1 & Hp1 & _).
    rewrite <- Hp in Hin1.
    destruct (releasePage_idles drv (page v) h3 k1 v1 Hin1 Hp1) as (k' & v' & Hin' & Hp' & Hs').
    rewrite Hrel in Hin'. simpl in Hin'. now exists k', v'.
Qed.


End Tabs.

Lemma X28_witness :
  exists k v h',
    first_entry is_idle (pool (this (started steady (plain "http://a")))) = Some (k, v)
    /\ snd (Render.render steady "echo" (started steady (plain "http://a"))) = h'
    /\ pages (pool (this h')) = pages (pool (this (started steady (plain "http://a")))).
Proof.
  set (h := started steady (plain "http://a")).
  destruct (first_entry is_idle (pool (this h))) as [[k v]|] eqn:E;
    [|vm_compute in E; discriminate].
  assert (Hrun : Render.render steady "echo" h
                 = (Ok (Single (Buffer [137; 80; 78; 71])), snd (Render.render steady "echo" h)))
    by (apply pair_fst; vm_compute; reflexivity).
  exists k, v, (snd (Render.render steady "echo" h)).
  split; [reflexivity|]. split; [reflexivity|].
  exact (proj1 (proj2 (X28_task_reuses_idle_page steady "echo" h _ _ k v eq_refl E Hrun))).
Defined.


(** * Whole-page capture *)

Section FullPage.
Context (drv : Driver).

(** X14. With [fullPage] set, the capture is one screenshot of the page
    with [captureBeyondViewport] forced on: no element is looked up or
    measured, [selector] and [multiPage] play no part, the parameter
    object is left as it is, and the viewport is changed, if at all,
    only after the image has been taken. *)
Theorem X14_fullPage_is_one_page_capture (page : Page) (h h' : Heap RenderObj)
    (r : RenderResult) :
  truthy_bool (Data.fullPage (data h)) = true ->
  Render.capture drv page h = (Ok r, h') ->
  let o := Render.set_captureBeyondViewport true (Render.makeOptions (data h)) in
  Options.captureBeyondViewport o = true
  /\ data h' = data h
  /\ (exists img, r = Single img)
  /\ (trace (this h') = trace (this h) ++ [Drv.page_screenshot page o]
      \/ exists w ht d,
           trace (this h')
           = trace (this h) ++ [Drv.page_screenshot page o; Drv.setViewport page w ht d]).
Proof.
  intros Hfull H. cbv zeta. unfold Render.capture in H.
  rewrite (bind_Ok get_data _ h (data h) h) in H by reflexivity.
  rewrite Hfull in H.
  inv_bind H. inv_bind H. apply ret_inv in H. destruct H as [<- <-].
  unfold take in Hstep. destruct (captures drv _ _) as [err|img]; inversion Hstep; subst; clear Hstep.
  split; [reflexivity|].
  unfold Render.setViewport in Hstep0.
  destruct (negb _ && negb _ && negb _).
  - apply ret_inv in Hstep0. destruct Hstep0 as [_ <-].
    split; [reflexivity|]. split; [eexists; reflexivity|]. now left.
  - unfold call in Hstep0. destruct (settles drv _ _); inversion Hstep0; subst; clear Hstep0.
    split; [reflexivity|]. split; [eexists; reflexivity|]. right.
    eexists _, _, _. simpl. rewrite <- app_assoc. reflexivity.
Qed.

End FullPage.

Lemma X14_witness :
  truthy_bool (Data.fullPage (data (started steady (whole "http://a")))) = true
  /\ exists img h',
       Render.capture steady 0 (started steady (whole "http://a")) = (Ok (Single img), h')
       /\ data h' = whole "http://a".
Proof.
  split; [reflexivity|].
  set (h := started steady (whole "http://a")).
  assert (E : Render.capture steady 0 h
              = (Ok (Single (Buffer [137; 80; 78; 71])), snd (Render.capture steady 0 h)))
    by (apply pair_fst; vm_compute; reflexivity).
  destruct (X14_fullPage_is_one_page_capture steady 0 h _ _ eq_refl E) as (_ & Hdata & _).
  eexists _, _. split; [exact E | exact Hdata].
Defined.

(** * The slices of a paginated capture *)

Section Tiling.
Local Open Scope Q_scope.

Lemma inject_Z_succ (i : nat) : inject_Z (Z.of_nat (S i)) == inject_Z (Z.of_nat i) + 1.
Proof. rewrite Nat2Z.inj_succ, <- Z.add_1_r, inject_Z_plus. reflexivity. Qed.

(** Where the clip of index [i] ends. *)
Lemma clipAt_bottom (i : nat) (boxWidth boxHeight height : Q) :
  let c := Render.clipAt i boxWidth boxHeight height in
  clip_y c + clip_height c
  == inject_Z (Z.of_nat i) * height + Qmin height (boxHeight - inject_Z (Z.of_nat i) * height).
Proof.
  cbv zeta. unfold Render.clipAt. destruct (Nat.eqb i 0); simpl; ring.
Qed.

Lemma sliceCount_positive (boxHeight height : Q) :
  0 < height -> 0 < boxHeight ->
  Render.sliceCount boxHeight height = Qceiling (boxHeight / height) ->
  (1 <= Render.sliceCount boxHeight height)%Z.
Proof.
  intros Hh Hb Hexact. destruct (sliceCount_kept boxHeight height Hh Hexact) as [_ Hup].
  destruct (Z_lt_le_dec 0 (Render.sliceCount boxHeight height)) as [Hpos|Hneg]; [lia|].
  exfalso. rewrite Zle_Qle in Hneg.
  assert (inject_Z (Render.sliceCount boxHeight height) * height <= 0).
  { setoid_replace 0 with (inject_Z 0 * height) by ring.
    apply Qmult_le_compat_r; [exact Hneg | now apply Qlt_le_weak]. }
  lra.
Qed.

Lemma clips_index (boxWidth boxHeight height : Q) (i : nat) (c : Clip) :
  nth_error (Render.clips boxWidth boxHeight height) i = Some c ->
  (i < Z.to_nat (Render.sliceCount boxHeight height))%nat.
Proof.
  intros H. rewrite <- clips_length with (boxWidth := boxWidth).
  apply nth_error_Some. congruence.
Qed.

(** X15. Take a positive slice height and a box of positive height
    such that rounding the quotient to double precision leaves its
    ceiling as it is, and such that the products, differences and sums
    of the loop are exact in double precision (as they are for whole
    numbers of pixels).  Then the clip rectangles tile the box from top
    to bottom: there is at least one, the first starts at [y = 0], each
    one ends where the next slice height begins, the next clip starts
    100 pixels above that end, the last clip ends at the bottom of the
    box, and every clip spans the width of the box from [x = 0]. *)
Theorem X15_slices_tile_the_box (boxWidth boxHeight height : Q) :
  0 < height -> 0 < boxHeight ->
  Render.sliceCount boxHeight height = Qceiling (boxHeight / height) ->
  Render.exact_clips boxHeight height ->
  let cs := Render.clips boxWidth boxHeight height in
  (1 <= List.length cs)%nat
  /\ (forall c, nth_error cs 0 = Some c -> clip_y c == 0)
  /\ (forall i c c', nth_error cs i = Some c -> nth_error cs (S i) = Some c' ->
        clip_y c + clip_height c == inject_Z (Z.of_nat (S i)) * height
        /\ clip_y c' == clip_y c + clip_height c - 100)
  /\ (forall c, nth_error cs (List.length cs - 1) = Some c ->
        clip_y c + clip_height c == boxHeight)
  /\ (forall c, In c cs -> clip_x c == 0 /\ clip_width c == boxWidth).
Proof.
  intros Hh Hb Hexact _ cs.
  destruct (sliceCount_kept boxHeight height Hh Hexact) as [Hlow Hup].
  pose proof (sliceCount_positive boxHeight height Hh Hb Hexact) as Hcount.
  assert (Hlen : List.length cs = Z.to_nat (Render.sliceCount boxHeight height))
    by apply clips_length.
  split; [lia|]. split; [|split; [|split]].
  - intros c Hc. apply clips_nth in Hc. subst c. simpl. ring.
  - intros i c c' Hc Hc'.
    pose proof (clips_index _ _ _ _ _ Hc') as Hi.
    apply clips_nth in Hc. apply clips_nth in Hc'. subst c c'.
    assert (Hnext : inject_Z (Z.of_nat (S i)) * height <= boxHeight).
    { apply Qle_trans with (inject_Z (Render.sliceCount boxHeight height - 1) * height);
        [|now apply Qlt_le_weak].
      apply Qmult_le_compat_r; [|now apply Qlt_le_weak].
      rewrite <- Zle_Qle. lia. }
    pose proof (inject_Z_succ i) as Hs.
    assert (Hmin : Qmin height (boxHeight - inject_Z (Z.of_nat i) * height) == height).
    { apply Q.min_l. rewrite Hs in Hnext. lra. }
    pose proof (clipAt_bottom i boxWidth boxHeight height) as Hbot. cbv zeta in Hbot.
    rewrite Hmin in Hbot. split.
    + rewrite Hbot, Hs. ring.
    + rewrite Hbot. unfold Render.clipAt at 1. simpl Nat.eqb. cbv iota. simpl clip_y.
      rewrite Hs. ring.
  - intros c Hc. apply clips_nth in Hc. subst c. rewrite Hlen.
    set (i := (Z.to_nat (Render.sliceCount boxHeight height) - 1)%nat).
    assert (Hi : inject_Z (Z.of_nat i) == inject_Z (Render.sliceCount boxHeight height) - 1).
    { unfold i. rewrite Nat2Z.inj_sub by lia. rewrite Z2Nat.id by lia.
      unfold Zminus. rewrite inject_Z_plus. reflexivity. }
    assert (Hmin : Qmin height (boxHeight - inject_Z (Z.of_nat i) * height)
                   == boxHeight - inject_Z (Z.of_nat i) * height).
    { apply Q.min_r. rewrite Hi. lra. }
    pose proof (clipAt_bottom i boxWidth boxHeight height) as Hbot. cbv zeta in Hbot.
    rewrite Hbot, Hmin. ring.
  - intros c Hc. apply In_nth_error in Hc. destruct Hc as [i Hc].
    apply clips_nth in Hc. subst c. unfold Render.clipAt.
    destruct (Nat.eqb i 0); simpl; split; reflexivity.
Qed.

(** X16. With [multiPage: true] the slice height is the box height
    capped at 2000, and a box shorter than 2000 is captured in one
    slice that covers the whole box. *)
Theorem X16_default_slice_height (boxWidth boxHeight : Q) :
  0 < boxHeight ->
  let height := Render.sliceHeight (Some (MPBool true)) boxHeight in
  0 < height /\ height <= 2000 /\ height <= boxHeight
  /\ (boxHeight < 2000 ->
      exists c, Render.clips boxWidth boxHeight height = [c]
                /\ clip_x c == 0 /\ clip_y c == 0
                /\ clip_width c == boxWidth /\ clip_height c == boxHeight).
Proof.
  intros Hb. cbv zeta. unfold Render.sliceHeight.
  destruct (Qle_bool 2000 boxHeight) eqn:E.
  - apply Qle_bool_iff in E. split; [lra|]. split; [lra|]. split; [exact E|]. intros Hlt. lra.
  - assert (Hlt : boxHeight < 2000).
    { apply Qnot_le_lt. intros Hle. apply Qle_bool_iff in Hle. congruence. }
    split; [exact Hb|]. split; [lra|]. split; [lra|]. intros _.
    assert (Hone : Render.sliceCount boxHeight boxHeight = 1%Z).
    { unfold Render.sliceCount.
      assert (Hq : boxHeight / boxHeight == 1) by (field; lra).
      rewrite (binary64_one _ Hq). reflexivity. }
    exists (Render.clipAt 0 boxWidth boxHeight boxHeight).
    unfold Render.clips, Render.indices. rewrite Hone. simpl.
    repeat split; try reflexivity; try ring.
    setoid_replace (boxHeight - 0 * boxHeight) with boxHeight by ring.
    apply Q.min_l. lra.
Qed.

End Tiling.

(** A box of 1000 pixels in slices of 300: the quotient is rounded,
    its ceiling is 4 all the same, and the fourth clip ends at the
    bottom of the box. *)
Lemma X15_witness :
  (0 < 300)%Q /\ (0 < 1000)%Q
  /\ ~ representable (1000 / 300)
  /\ Render.sliceCount 1000 300 = Qceiling (1000 / 300)
  /\ Render.exact_clips 1000 300
  /\ forall c, nth_error (Render.clips 800 1000 300) 3 = Some c ->
       (clip_y c + clip_height c == 1000)%Q.
Proof.
  assert (H1 : (0 < 300)%Q) by reflexivity.
  assert (H2 : (0 < 1000)%Q) by reflexivity.
  assert (H3 : Render.sliceCount 1000 300 = Qceiling (1000 / 300)) by (vm_compute; reflexivity).
  assert (H4 : Render.exact_clips 1000 300).
  { intros i Hi. change (Render.sliceCount 1000 300) with 4%Z in Hi.
    assert (Hcases : i = 0 \/ i = 1 \/ i = 2 \/ i = 3) by lia.
    destruct Hcases as [->|[->|[->| ->]]];
      repeat split; unfold representable; vm_compute; reflexivity. }
  split; [exact H1|]. split; [exact H2|].
  split; [unfold representable; vm_compute; discriminate|].
  split; [exact H3|]. split; [exact H4|].
  exact (proj1 (proj2 (proj2 (proj2
           (X15_slices_tile_the_box 800 1000 300 H1 H2 H3 H4))))).
Defined.

Lemma X16_witness :
  (0 < 1500)%Q
  /\ (Render.sliceHeight (Some (MPBool true)) 1500 <= 2000)%Q.
Proof.
  assert (H1 : (0 < 1500)%Q) by reflexivity.
  split; [exact H1|].
  exact (proj1 (proj2 (X16_default_slice_height 800 1500 H1))).
Defined.

(** * The viewport of an element capture *)

Section Viewport.
Context (drv : Driver).

(** X17. In a single-image capture of an element with no [setViewport]
    given, the viewport is fitted to the element before the image is
    taken: the element is measured, the viewport is set to the rounded
    width and height of its box with a device scale factor of 1, and
    then the page is captured with the options of the task. *)
Theorem X17_viewport_is_fitted_to_element (page : Page) (h h' : Heap RenderObj)
    (r : RenderResult) (b : BoundingBox) :
  truthy_bool (Data.fullPage (data h)) = false ->
  truthy_multiPage (Data.multiPage (data h)) = false ->
  Data.setViewport (data h) = None ->
  (forall tr e, measures drv tr e = inr (Some b)) ->
  truthy_number (box_width b) = true -> truthy_number (box_height b) = true ->
  Render.capture drv page h = (Ok r, h') ->
  exists e pre,
    trace (this h')
    = pre ++ [Drv.boundingBox e;
              Drv.setViewport page (Math_round (box_width b)) (Math_round (box_height b)) 1;
              Drv.page_screenshot page (Render.makeOptions (data h))].
Proof.
  intros Hfull Hmulti Hvp Hbox Hw Hh H. unfold Render.capture in H.
  rewrite (bind_Ok get_data _ h (data h) h) in H by reflexivity.
  rewrite Hfull, Hmulti in H. cbv beta iota zeta in H. simpl negb in H. cbv iota in H.
  inv_bind H. rename a into body, h0 into hb.
  inv_bind H. rename a into box, h0 into hm.
  destruct body as [e|]; [|discriminate].
  unfold boundingBox in Hstep0. rewrite Hbox in Hstep0.
  inversion Hstep0; subst box hm; clear Hstep0.
  inv_bind H. inv_bind H. apply ret_inv in H. destruct H as [_ <-].
  unfold Render.vp_width, Render.vp_height, Render.vp_deviceScaleFactor in Hstep0.
  rewrite Hvp in Hstep0. simpl option_map in Hstep0.
  unfold or_number, Render.setViewport in Hstep0.
  cbn [truthy_optnum or_default] in Hstep0. rewrite Hw, Hh in Hstep0.
  cbn [negb andb] in Hstep0.
  change (Math_round 1) with 1%Z in Hstep0.
  unfold call in Hstep0. destruct (settles drv _ _); inversion Hstep0; subst; clear Hstep0.
  unfold take in Hstep1. destruct (captures drv _ _); inversion Hstep1; subst; clear Hstep1.
  exists e, (trace (this hb)). simpl. rewrite <- !app_assoc. reflexivity.
Qed.

End Viewport.

Lemma X17_witness :
  exists e pre,
    trace (this (snd (Render.capture steady 0 (started steady (plain "http://a")))))
    = pre ++ [Drv.boundingBox e; Drv.setViewport 0 800 4500 1;
              Drv.page_screenshot 0 (Render.makeOptions (plain "http://a"))].
Proof.
  set (h := started steady (plain "http://a")).
  assert (E : Render.capture steady 0 h
              = (Ok (Single (Buffer [137; 80; 78; 71])), snd (Render.capture steady 0 h)))
    by (apply pair_fst; vm_compute; reflexivity).
  exact (X17_viewport_is_fitted_to_element steady 0 h _ _
           {| box_width := 800%Q; box_height := 4500%Q |}
           eq_refl eq_refl eq_refl (fun _ _ => eq_refl) eq_refl eq_refl E).
Defined.

(** * Round-robin dispatch *)

Section RoundRobin.
Context (drvs : nat -> Driver) (randomUUID : nat -> string).

(** What one [task] does to a rotation that is not empty. *)
Lemma task_dispatch (h : Heap Puppeteer.t) (b : RenderObj) (rest : list RenderObj) :
  Puppeteer.list_ (this h) = b :: rest ->
  let out := Puppeteer.task drvs randomUUID h in
  let run := Render.render (drvs (id b)) (randomUUID (Puppeteer.uuids (this h)))
               {| this := b; data := data h |} in
  fst out = fst run
  /\ Puppeteer.list_ (this (snd out)) = rest ++ [this (snd run)]
  /\ ids (Puppeteer.list_ (this (snd out))) = ids rest ++ [id b]
  /\ data (snd out) = data (snd run).
Proof.
  intros El. cbv zeta. unfold Puppeteer.task, Puppeteer.on_browser. rewrite El.
  pose proof (render_same_task (drvs (id b)) (randomUUID (Puppeteer.uuids (this h)))
                {| this := b; data := data h |}) as (Hid & _).
  destruct (Render.render _ _ _) as [image hb]. simpl in Hid |- *.
  repeat split. unfold ids. rewrite map_app. simpl. now rewrite Hid.
Qed.

(** X18. [task] hands the task to the browser at the front of the
    rotation under a new echo and moves that browser to the back,
    whatever becomes of the task; the browsers behind it keep their
    order. *)
Theorem X18_task_is_round_robin (h : Heap Puppeteer.t) (b : RenderObj)
    (rest : list RenderObj) :
  Puppeteer.list_ (this h) = b :: rest ->
  let out := Puppeteer.task drvs randomUUID h in
  let run := Render.render (drvs (id b)) (randomUUID (Puppeteer.uuids (this h)))
               {| this := b; data := data h |} in
  fst out = fst run
  /\ Puppeteer.list_ (this (snd out)) = rest ++ [this (snd run)]
  /\ ids (Puppeteer.list_ (this (snd out))) = ids rest ++ [id b]
  /\ data (snd out) = data (snd run).
Proof. exact (task_dispatch h b rest). Qed.

(** X30. The second dispatch of [screenshot] does not go back to the
    browser that produced the first result: with two browsers or more
    it is rendered by the browser that was second in the rotation,
    under the next echo and on the parameter object as the first
    render left it, and both browsers end up at the back. *)
Theorem X30_second_dispatch_goes_to_next_browser (h h1 : Heap Puppeteer.t)
    (b1 b2 : RenderObj) (rest : list RenderObj) (r : RenderResult) :
  Puppeteer.list_ (this h) = b1 :: b2 :: rest ->
  Puppeteer.task drvs randomUUID h = (Ok r, h1) ->
  Puppeteer.Array_isArray r || Puppeteer.Buffer_isBuffer r = false ->
  let out := Puppeteer.screenshot drvs randomUUID h in
  let run := Render.render (drvs (id b2)) (randomUUID (S (Puppeteer.uuids (this h))))
               {| this := b2; data := data h1 |} in
  fst out = fst run
  /\ ids (Puppeteer.list_ (this (snd out))) = ids rest ++ [id b1; id b2]
  /\ data (snd out) = data (snd run).
Proof.
  intros El E1 Hr. cbv zeta.
  rewrite (screenshot_retries_on_other _ _ h h1 r E1 Hr).
  destruct (task_dispatch h b1 (b2 :: rest) El) as (_ & Hl1 & Hids1 & _).
  pose proof (task_dispatches_once drvs randomUUID h) as Hu.
  rewrite E1 in Hl1, Hids1, Hu. simpl in Hl1, Hids1, Hu.
  set (hc := on_this (Puppeteer.with_console
                        (fun c => c ++ ["[chrome] first screenshot failed, retrying~"])) h1).
  assert (Elc : Puppeteer.list_ (this hc) = b2 :: (rest ++ [this (snd
                  (Render.render (drvs (id b1)) (randomUUID (Puppeteer.uuids (this h)))
                     {| this := b1; data := data h |}))])) by exact Hl1.
  destruct (task_dispatch hc b2 _ Elc) as (Hfst & _ & Hids & Hdata).
  change (Puppeteer.uuids (this hc)) with (Puppeteer.uuids (this h1)) in Hfst, Hdata.
  change (data hc) with (data h1) in Hfst, Hdata.
  rewrite Hu in Hfst, Hdata.
  split; [exact Hfst|]. split; [|exact Hdata].
  rewrite Hids. unfold ids. rewrite map_app, <- app_assoc. simpl.
  pose proof (render_same_task (drvs (id b1)) (randomUUID (Puppeteer.uuids (this h)))
                {| this := b1; data := data h |}) as (Hid & _).
  simpl in Hid. now rewrite Hid.
Qed.

Lemma task_ids (h : Heap Puppeteer.t) (a : nat) (l : list nat) :
  ids (Puppeteer.list_ (this h)) = a :: l ->
  ids (Puppeteer.list_ (this (snd (Puppeteer.task drvs randomUUID h)))) = l ++ [a].
Proof.
  intros E. unfold Puppeteer.task, Puppeteer.on_browser.
  destruct (Puppeteer.list_ (this h)) as [|b rest]; [discriminate|].
  simpl in E. inversion E; subst.
  pose proof (render_same_task (drvs (id b)) (randomUUID (Puppeteer.uuids (this h)))
                {| this := b; data := data h |}) as (Hid & _).
  destruct (Render.render _ _ _) as [image hb]. simpl in Hid |- *.
  unfold ids. rewrite map_app. simpl. now rewrite Hid.
Qed.

Lemma tasks_rotate (k : nat) (h : Heap Puppeteer.t) (l1 l2 : list nat) :
  List.length l1 = k ->
  ids (Puppeteer.list_ (this h)) = l1 ++ l2 ->
  ids (Puppeteer.list_ (this (Nat.iter k (fun x => snd (Puppeteer.task drvs randomUUID x)) h)))
  = l2 ++ l1.
Proof.
  revert l1 l2. induction k as [|k IH]; intros l1 l2 Hlen E.
  - destruct l1; [|discriminate]. simpl in *. now rewrite app_nil_r.
  - assert (Hne : l1 <> []) by (intro; subst; discriminate).
    destruct (exists_last Hne) as (l1' & a & ->).
    rewrite length_app in Hlen. simpl in Hlen.
    rewrite <- app_assoc in E. simpl in E.
    simpl Nat.iter. rewrite (task_ids _ a (l2 ++ l1')).
    + now rewrite <- app_assoc.
    + rewrite (IH l1' (a :: l2)); [reflexivity | lia | exact E].
Qed.

Lemma skipn_nth (l : list nat) (j : nat) :
  j < List.length l -> skipn j l = nth j l 0 :: skipn (S j) l.
Proof.
  revert j. induction l as [|a l IH]; intros j Hj; simpl in Hj; [lia|].
  destruct j as [|j]; [reflexivity|]. simpl. apply IH. lia.
Qed.

(** X19. The rotation is a cycle.  After [j] tasks, [j] not above the
    number of browsers and whatever the outcomes of the tasks, the
    rotation is the one of the start turned by [j] places; the task
    that comes next is rendered by the browser that was in place [j]
    at the start, so that of as many tasks as there are browsers each
    browser renders exactly one, in the order of the rotation; and
    after that many tasks the browsers are in the order they were in
    before. *)
Theorem X19_rotation_comes_round (h : Heap Puppeteer.t) (j : nat) :
  j <= List.length (Puppeteer.list_ (this h)) ->
  let l := ids (Puppeteer.list_ (this h)) in
  let hj := Nat.iter j (fun x => snd (Puppeteer.task drvs randomUUID x)) h in
  ids (Puppeteer.list_ (this hj)) = skipn j l ++ firstn j l
  /\ (j < List.length l ->
      exists b rest,
        Puppeteer.list_ (this hj) = b :: rest
        /\ id b = nth j l 0
        /\ fst (Puppeteer.task drvs randomUUID hj)
           = fst (Render.render (drvs (id b)) (randomUUID (Puppeteer.uuids (this hj)))
                    {| this := b; data := data hj |}))
  /\ (j = List.length l -> ids (Puppeteer.list_ (this hj)) = l).
Proof.
  intros Hj. cbv zeta.
  set (l := ids (Puppeteer.list_ (this h))).
  set (hj := Nat.iter j (fun x => snd (Puppeteer.task drvs randomUUID x)) h).
  assert (Hlen : List.length l = List.length (Puppeteer.list_ (this h)))
    by (unfold l, ids; apply length_map).
  assert (Hturn : ids (Puppeteer.list_ (this hj)) = skipn j l ++ firstn j l).
  { unfold hj. apply tasks_rotate.
    - rewrite length_firstn. lia.
    - fold l. symmetry. apply firstn_skipn. }
  split; [exact Hturn|]. split.
  - intros Hlt. rewrite (skipn_nth l j Hlt) in Hturn.
    destruct (Puppeteer.list_ (this hj)) as [|b rest] eqn:El; [discriminate|].
    exists b, rest. split; [reflexivity|]. split.
    + simpl in Hturn. now inversion Hturn.
    + exact (proj1 (task_dispatch hj b rest El)).
  - intros ->. rewrite Hturn, skipn_all, firstn_all. reflexivity.
Qed.

Lemma task_permutes (h : Heap Puppeteer.t) :
  Permutation (ids (Puppeteer.list_ (this (snd (Puppeteer.task drvs randomUUID h)))))
              (ids (Puppeteer.list_ (this h))).
Proof.
  destruct (Puppeteer.list_ (this h)) as [|b rest] eqn:El.
  - unfold Puppeteer.task. rewrite El. simpl. rewrite El. apply perm_nil.
  - rewrite (task_ids h (id b) (ids rest)) by (now rewrite El).
    simpl. symmetry. apply Permutation_cons_append.
Qed.

(** X20. [screenshot] neither loses nor duplicates a browser: after the
    call, with one dispatch or two and whatever the outcome, the
    rotation holds the ids it held before. *)
Theorem X20_screenshot_keeps_the_browsers (h : Heap Puppeteer.t) :
  Permutation (ids (Puppeteer.list_ (this (snd (Puppeteer.screenshot drvs randomUUID h)))))
              (ids (Puppeteer.list_ (this h)))
  /\ List.length (Puppeteer.list_ (this (snd (Puppeteer.screenshot drvs randomUUID h))))
     = List.length (Puppeteer.list_ (this h)).
Proof.
  assert (Hperm : Permutation
            (ids (Puppeteer.list_ (this (snd (Puppeteer.screenshot drvs randomUUID h)))))
            (ids (Puppeteer.list_ (this h)))).
  { pose proof (task_permutes h) as H1.
    destruct (Puppeteer.task drvs randomUUID h) as [[r|e|] h1] eqn:E1; simpl in H1.
    - destruct (Puppeteer.Array_isArray r || Puppeteer.Buffer_isBuffer r) eqn:Hr.
      + now rewrite (screenshot_returns_first _ _ h h1 r E1 Hr).
      + rewrite (screenshot_retries_on_other _ _ h h1 r E1 Hr).
        etransitivity; [apply task_permutes | exact H1].
    - now rewrite (screenshot_rejects_with_first _ _ h h1 e E1).
    - unfold Puppeteer.screenshot. now rewrite (bind_Pending _ _ _ _ E1). }
  split; [exact Hperm|].
  apply Permutation_length in Hperm. unfold ids in Hperm. now rewrite !length_map in Hperm.
Qed.

(** X21. With no browser in the rotation (before [init], or after every
    launch has failed) a capture is rejected with a [TypeError] after
    one dispatch; there is no second attempt, and the rotation and the
    parameter object are left as they were. *)
Theorem X21_capture_without_browser_is_rejected (h : Heap Puppeteer.t) :
  Puppeteer.list_ (this h) = [] ->
  let out := Puppeteer.screenshot drvs randomUUID h in
  (exists msg, fst out = Throw (TypeError msg))
  /\ Puppeteer.uuids (this (snd out)) = S (Puppeteer.uuids (this h))
  /\ Puppeteer.list_ (this (snd out)) = []
  /\ Puppeteer.console (this (snd out)) = Puppeteer.console (this h)
  /\ data (snd out) = data h.
Proof.
  intros El. cbv zeta.
  assert (E : Puppeteer.task drvs randomUUID h
              = (Throw (TypeError "Cannot read properties of undefined (reading 'render')"),
                 {| this := Puppeteer.with_uuids (S (Puppeteer.uuids (this h))) (this h);
                    data := data h |}))
    by (unfold Puppeteer.task; now rewrite El).
  rewrite (screenshot_rejects_with_first _ _ h _ _ E). simpl.
  split; [eexists; reflexivity|]. repeat split. exact El.
Qed.

Lemma launch_times_all (n : nat) (h : Heap Puppeteer.t) :
  (forall i, settles (drvs i) [] Drv.launch = None) ->
  let out := Puppeteer.launch_times drvs n h in
  fst out = Ok tt
  /\ ids (Puppeteer.list_ (this (snd out)))
     = ids (Puppeteer.list_ (this h)) ++ seq (Puppeteer.index (this h)) n
  /\ Puppeteer.index (this (snd out)) = Puppeteer.index (this h) + n.
Proof.
  intros Hl. revert h. induction n as [|n IH]; intros h; cbv zeta.
  - simpl. rewrite app_nil_r. repeat split. lia.
  - simpl Puppeteer.launch_times.
    destruct (launch_resolves drvs h (Hl _)) as (b & d & Hrun & Hid).
    rewrite (bind_Ok _ _ _ _ _ Hrun).
    destruct (IH {| this := Puppeteer.with_list_ (fun l => l ++ [b])
                              (Puppeteer.with_index (S (Puppeteer.index (this h))) (this h));
                    data := d |}) as (Hok & Hids & Hidx).
    split; [exact Hok|]. split.
    + rewrite Hids. simpl. unfold ids. rewrite map_app. simpl. rewrite Hid.
      now rewrite <- app_assoc.
    + rewrite Hidx. simpl. lia.
Qed.

(** X22. When every browser starts, [init] resolves with
    [browserCount || 1] browsers in the rotation, numbered from 0 in
    the order they were launched. *)
Theorem X22_init_launches_browserCount (browserCount : option nat) (d : Data.screenshot) :
  (forall i, settles (drvs i) [] Drv.launch = None) ->
  let out := Puppeteer.init drvs browserCount {| this := Puppeteer.new; data := d |} in
  let n := match browserCount with Some (S k) => S k | _ => 1 end in
  fst out = Ok tt
  /\ ids (Puppeteer.list_ (this (snd out))) = seq 0 n
  /\ Puppeteer.index (this (snd out)) = n.
Proof.
  intros Hl. cbv zeta. unfold Puppeteer.init.
  set (n := match browserCount with Some 0 | None => 1 | Some n => n end).
  replace (match browserCount with Some (S k) => S k | _ => 1 end) with n
    by (unfold n; destruct browserCount as [[|k]|]; reflexivity).
  destruct (launch_times_all n {| this := Puppeteer.new; data := d |} Hl) as (Hok & Hids & Hidx).
  split; [exact Hok|]. split; [exact Hids | exact Hidx].
Qed.

(** X23. When the replacement of a crashed browser does not start,
    nothing in the program handles the rejection of the launch: the
    listener neither awaits nor catches the promise of [this.launch()],
    so the error of the launch goes to the host as an unhandled
    rejection (on which Node by default ends the process).  The
    listener itself has returned; the crashed browser is out of the
    rotation, nothing has taken its place, and the id of the failed
    launch is used up. *)
Theorem X23_failed_replacement_is_unhandled (x : nat) (h : Heap Puppeteer.t) (e : Err) :
  settles (drvs (Puppeteer.index (this h))) [] Drv.launch = Some e ->
  let out := Puppeteer.browserCrash drvs x h in
  fst out = Ok tt
  /\ Puppeteer.unhandled (this (snd out)) = Puppeteer.unhandled (this h) ++ [e]
  /\ Puppeteer.list_ (this (snd out)) = remove_first x (Puppeteer.list_ (this h))
  /\ Puppeteer.index (this (snd out)) = S (Puppeteer.index (this h)).
Proof.
  intros Hl. cbv zeta. rewrite browserCrash_unfold.
  set (h1 := on_this (Puppeteer.with_list_
                        (fun _ => remove_first x (Puppeteer.list_ (this h)))) h).
  assert (Hlaunch : Puppeteer.launch drvs h1
            = (Throw e, {| this := Puppeteer.with_index (S (Puppeteer.index (this h1))) (this h1);
                           data := data h1 |})).
  { unfold Puppeteer.launch, Puppeteer.on_browser, Render.init, bind, call.
    simpl. rewrite Hl. reflexivity. }
  unfold detached. rewrite Hlaunch. repeat split.
Qed.

End RoundRobin.

(** Two browsers: the task goes to browser 0, and browser 1 is next. *)
Lemma X18_witness :
  exists b rest,
    Puppeteer.list_ (this (snd (Puppeteer.init (fun _ => steady) (Some 2)
                                  {| this := Puppeteer.new; data := plain "http://a" |})))
    = b :: rest
    /\ id b = 0
    /\ ids (Puppeteer.list_ (this (snd (Puppeteer.task (fun _ => steady) uuid
              (snd (Puppeteer.init (fun _ => steady) (Some 2)
                      {| this := Puppeteer.new; data := plain "http://a" |}))))))
       = ids rest ++ [id b].
Proof.
  set (h := snd (Puppeteer.init (fun _ => steady) (Some 2)
                   {| this := Puppeteer.new; data := plain "http://a" |})).
  assert (Hids : ids (Puppeteer.list_ (this h)) = [0; 1]) by (vm_compute; reflexivity).
  destruct (Puppeteer.list_ (this h)) as [|b rest] eqn:El; [discriminate|].
  exists b, rest. split; [reflexivity|]. split; [now inversion Hids|].
  exact (proj1 (proj2 (proj2 (X18_task_is_round_robin (fun _ => steady) uuid h b rest El)))).
Defined.

(** Two browsers that answer with base64 text: the image the caller
    gets is the one browser 1 rendered. *)
Lemma X30_witness :
  exists b1 b2 rest,
    Puppeteer.list_ (this (snd (Puppeteer.init (fun _ => textual) (Some 2)
                                  {| this := Puppeteer.new; data := plain "http://a" |})))
    = b1 :: b2 :: rest
    /\ ids (Puppeteer.list_ (this (snd (Puppeteer.screenshot (fun _ => textual) uuid
              (snd (Puppeteer.init (fun _ => textual) (Some 2)
                      {| this := Puppeteer.new; data := plain "http://a" |}))))))
       = ids rest ++ [id b1; id b2].
Proof.
  set (h := snd (Puppeteer.init (fun _ => textual) (Some 2)
                   {| this := Puppeteer.new; data := plain "http://a" |})).
  assert (Hlen : List.length (Puppeteer.list_ (this h)) = 2) by (vm_compute; reflexivity).
  destruct (Puppeteer.list_ (this h)) as [|b1 [|b2 rest]] eqn:El; try discriminate.
  assert (E1 : Puppeteer.task (fun _ => textual) uuid h
               = (Ok (Single (Base64 "iVBORw0KGgo=")),
                  snd (Puppeteer.task (fun _ => textual) uuid h)))
    by (apply pair_fst; vm_compute; reflexivity).
  exists b1, b2, rest. split; [reflexivity|].
  exact (proj1 (proj2 (X30_second_dispatch_goes_to_next_browser (fun _ => textual) uuid
                         h _ b1 b2 rest _ El E1 eq_refl))).
Defined.

Lemma X21_witness :
  exists msg,
    fst (Puppeteer.screenshot (fun _ => steady) uuid
           {| this := Puppeteer.new; data := plain "http://a" |}) = Throw (TypeError msg).
Proof.
  exact (proj1 (X21_capture_without_browser_is_rejected (fun _ => steady) uuid
                  {| this := Puppeteer.new; data := plain "http://a" |} eq_refl)).
Defined.

Lemma X22_witness :
  ids (Puppeteer.list_ (this (snd (Puppeteer.init (fun _ => steady) (Some 3)
                                     {| this := Puppeteer.new; data := plain "http://a" |}))))
  = [0; 1; 2].
Proof.
  exact (proj1 (proj2 (X22_init_launches_browserCount (fun _ => steady) (Some 3)
                         (plain "http://a") (fun _ => eq_refl)))).
Defined.

(** The one browser crashes and its replacement does not start: the
    rotation is empty and the error of the launch is with the host. *)
Lemma X23_witness :
  Puppeteer.unhandled (this (snd (Puppeteer.browserCrash one_shot 0
     (snd (Puppeteer.init one_shot None {| this := Puppeteer.new; data := plain "http://a" |})))))
  = [DriverError 5]
  /\ Puppeteer.list_ (this (snd (Puppeteer.browserCrash one_shot 0
       (snd (Puppeteer.init one_shot None
               {| this := Puppeteer.new; data := plain "http://a" |})))))
     = [].
Proof.
  set (h := snd (Puppeteer.init one_shot None {| this := Puppeteer.new; data := plain "http://a" |})).
  assert (Hl : settles (one_shot (Puppeteer.index (this h))) [] Drv.launch = Some (DriverError 5))
    by (vm_compute; reflexivity).
  assert (Hgone : remove_first 0 (Puppeteer.list_ (this h)) = []) by (vm_compute; reflexivity).
  assert (Hnone : Puppeteer.unhandled (this h) ++ [DriverError 5] = [DriverError 5])
    by (vm_compute; reflexivity).
  destruct (X23_failed_replacement_is_unhandled one_shot 0 h (DriverError 5) Hl)
    as (_ & Hu & Hlist & _).
  split; [exact (eq_trans Hu Hnone) | exact (eq_trans Hlist Hgone)].
Defined.

(** Two browsers and one task: browser 1 is at the front, and it
    renders the second task. *)
Lemma X19_witness :
  1 <= List.length (Puppeteer.list_ (this (snd (Puppeteer.init (fun _ => steady) (Some 2)
                      {| this := Puppeteer.new; data := plain "http://a" |}))))
  /\ ids (Puppeteer.list_ (this (Nat.iter 1
            (fun x => snd (Puppeteer.task (fun _ => steady) uuid x))
            (snd (Puppeteer.init (fun _ => steady) (Some 2)
                    {| this := Puppeteer.new; data := plain "http://a" |})))))
     = [1; 0].
Proof.
  set (h := snd (Puppeteer.init (fun _ => steady) (Some 2)
                   {| this := Puppeteer.new; data := plain "http://a" |})).
  assert (Hle : 1 <= List.length (Puppeteer.list_ (this h))) by (vm_compute; lia).
  split; [exact Hle|].
  pose proof (proj1 (X19_rotation_comes_round (fun _ => steady) uuid h 1 Hle)) as H.
  cbv zeta in H. rewrite H. vm_compute. reflexivity.
Defined.

(** * The requests in flight of [simulateWaitUntil] *)

Section WaitUntilFacts.
Import WaitUntil.

Lemma get_absent u m : ~ In u (keys m) -> get u m = None.
Proof.
  induction m as [|[k n] m IH]; simpl; [reflexivity|]. intros Hno.
  destruct (String.eqb k u) eqn:E; [apply String.eqb_eq in E; tauto | apply IH; tauto].
Qed.

Lemma set_absent u n m : ~ In u (keys m) -> set u n m = m ++ [(u, n)].
Proof.
  induction m as [|[k x] m IH]; simpl; [reflexivity|]. intros Hno.
  destruct (String.eqb k u) eqn:E; [apply String.eqb_eq in E; tauto|].
  rewrite IH by tauto. reflexivity.
Qed.

Lemma get_zero u m : zeros m -> In u (keys m) -> get u m = Some 0%Z.
Proof.
  induction m as [|[k n] m IH]; simpl; [tauto|]. intros Hz Hin.
  inversion Hz as [|? ? Hn Hm]; subst. simpl in Hn. subst n.
  destruct (String.eqb k u) eqn:E; [reflexivity|].
  apply IH; [exact Hm|]. destruct Hin as [->|Hin]; [|exact Hin].
  rewrite String.eqb_refl in E. discriminate.
Qed.

Lemma delCount_zero u m :
  zeros m -> In u (keys m) ->
  delCount u m = (delete u m, if Nat.leb (List.length (delete u m)) 0 then [end_ true] else []).
Proof.
  intros Hz Hin. unfold delCount. rewrite (get_zero u m Hz Hin). simpl.
  rewrite (get_zero u m Hz Hin). reflexivity.
Qed.

Lemma deliver_app (a b : list Event) (m : Counts) :
  deliver (a ++ b) m
  = (fst (deliver b (fst (deliver a m))),
     snd (deliver a m) ++ snd (deliver b (fst (deliver a m)))).
Proof.
  revert m. induction a as [|ev a IH]; intros m; simpl.
  - now destruct (deliver b m).
  - destruct (handle ev m) as [m1 s1]. rewrite IH.
    destruct (deliver a m1) as [m2 s2]. simpl.
    destruct (deliver b m2) as [m3 s3]. simpl. now rewrite app_assoc.
Qed.

Lemma keys_blank out : keys (blank out) = out.
Proof. unfold keys, blank. rewrite map_map. simpl. apply map_id. Qed.

Lemma zeros_blank out : zeros (blank out).
Proof.
  unfold zeros, blank. apply Forall_forall. intros e He.
  apply in_map_iff in He. destruct He as (u & <- & _). reflexivity.
Qed.

Lemma delete_blank u out : delete u (blank out) = blank (drop u out).
Proof.
  induction out as [|k out IH]; simpl; [reflexivity|].
  destruct (String.eqb k u); [reflexivity|]. simpl. now rewrite IH.
Qed.

Lemma drop_absent u out : ~ In u out -> drop u out = out.
Proof.
  induction out as [|k out IH]; simpl; [reflexivity|]. intros Hno.
  destruct (String.eqb k u) eqn:E; [apply String.eqb_eq in E; tauto|].
  rewrite IH by tauto. reflexivity.
Qed.

Lemma delCount_blank u out :
  delCount u (blank out)
  = (blank (drop u out), match drop u out with [] => [end_ true] | _ :: _ => [] end).
Proof.
  destruct (in_dec string_dec u out) as [Hin|Hno].
  - rewrite (delCount_zero u (blank out) (zeros_blank out)) by (now rewrite keys_blank).
    rewrite delete_blank. now destruct (drop u out).
  - assert (Hget : get u (blank out) = None) by (apply get_absent; now rewrite keys_blank).
    unfold delCount. rewrite Hget. cbv zeta. rewrite Hget.
    rewrite (drop_absent u out Hno). now destruct out.
Qed.

Lemma deliver_in_flight (evs : list Event) (out : list string) :
  apart evs out ->
  deliver evs (blank out) = (blank (fst (in_flight evs out)), snd (in_flight evs out)).
Proof.
  revert out. induction evs as [|ev evs IH]; intros out Ha; [reflexivity|].
  assert (Hdone : is_request ev = false ->
            apart evs (drop (url_of ev) out) ->
            handle ev (blank out) = delCount (url_of ev) (blank out) ->
            in_flight (ev :: evs) out
            = (let (out2, s2) := in_flight evs (drop (url_of ev) out) in
               (out2, (match drop (url_of ev) out with [] => [end_ true] | _ :: _ => [] end)
                        ++ s2)) ->
            deliver (ev :: evs) (blank out)
            = (blank (fst (in_flight (ev :: evs) out)), snd (in_flight (ev :: evs) out))).
  { intros _ Ha' Hh Hf. rewrite Hf. cbn [deliver]. rewrite Hh, delCount_blank, (IH _ Ha').
    now destruct (in_flight evs (drop (url_of ev) out)). }
  destruct ev as [u|u|u|u]; try (apply Hdone; [reflexivity | exact Ha | reflexivity ..]).
  destruct Ha as [Hno Ha]. cbn [deliver handle in_flight]. unfold onRequest.
  rewrite get_absent, set_absent by now rewrite keys_blank.
  change (blank out ++ [(u, 0%Z)]) with (blank out ++ blank [u]).
  unfold blank at 1 2. rewrite <- map_app. fold (blank (out ++ [u])).
  rewrite (IH _ Ha). reflexivity.
Qed.

(** X24. As long as no URL is requested again while a request for it
    is in flight, whatever the order of the events otherwise, the
    record of the listeners holds exactly the URLs in flight, each with
    the count 0 and in the order of their requests, and ['end'] is
    signalled with [true] by each [response], [requestfailed] and
    [requestfinished] event after which no request is in flight, and by
    no other event: a load that succeeds and so delivers both
    [response] and [requestfinished] signals twice when nothing else
    is in flight, and nothing is signalled while a request is. *)
Theorem X24_end_follows_last_completion (evs : list Event) :
  apart evs [] ->
  deliver evs []
  = (blank (fst (in_flight evs [])), snd (in_flight evs [])).
Proof. intros Ha. exact (deliver_in_flight evs [] Ha). Qed.

Lemma requests_again (u : string) (k : nat) (n : Z) :
  deliver (repeat (request u) k) [(u, n)]
  = ([(u, (n + Z.of_nat k)%Z)], repeat (continue_ u) k).
Proof.
  revert n. induction k as [|k IH]; intros n.
  - simpl. now rewrite Z.add_0_r.
  - cbn [repeat deliver handle]. unfold onRequest. simpl get. rewrite String.eqb_refl.
    simpl set. rewrite String.eqb_refl. rewrite IH. cbn [app repeat].
    replace (n + Z.of_nat (S k))%Z with (n + 1 + Z.of_nat k)%Z by lia. reflexivity.
Qed.

Lemma completions_again (u : string) (j : nat) (n : Z) :
  (Z.of_nat j < n)%Z ->
  deliver (repeat (response u) j) [(u, n)] = ([(u, (n - Z.of_nat j)%Z)], []).
Proof.
  revert n. induction j as [|j IH]; intros n Hlt.
  - simpl. now rewrite Z.sub_0_r.
  - cbn [repeat deliver handle]. unfold delCount. simpl get. rewrite String.eqb_refl.
    destruct (Z.eqb n 0) eqn:E0; [apply Z.eqb_eq in E0; lia|].
    simpl set. rewrite String.eqb_refl. simpl get. rewrite String.eqb_refl.
    destruct (Z.leb (n - 1) 0) eqn:E1; [apply Z.leb_le in E1; lia|].
    simpl List.length. simpl Nat.leb. cbv iota.
    rewrite IH by lia.
    replace (n - Z.of_nat (S j))%Z with (n - 1 - Z.of_nat j)%Z by lia. reflexivity.
Qed.

Lemma completion_last (u : string) (n : Z) :
  (n <= 1)%Z -> (0 <= n)%Z ->
  deliver [response u] [(u, n)] = ([], [end_ true]).
Proof.
  intros Hle Hge. cbn [deliver handle]. unfold delCount. simpl get. rewrite String.eqb_refl.
  destruct (Z.eqb n 0) eqn:E0.
  - apply Z.eqb_eq in E0. subst n. simpl. rewrite String.eqb_refl. reflexivity.
  - apply Z.eqb_neq in E0. assert (n = 1%Z) by lia. subst n.
    simpl. rewrite String.eqb_refl. simpl. rewrite String.eqb_refl. reflexivity.
Qed.

(** X25. A URL that is requested [k] times is out of the record after
    [max 1 (k - 1)] completions, not after [k]: the first request
    stores the count 0 and is not continued, each later one adds 1 and
    is continued, and each completion takes 1 off a positive count and
    deletes a count that is not positive.  ['end'] is signalled at that
    completion and at none before. *)
Theorem X25_repeated_url_is_cleared_early (u : string) (k : nat) :
  1 <= k ->
  deliver (repeat (request u) k ++ repeat (response u) (Nat.max 1 (k - 1))) []
  = ([], repeat (continue_ u) (k - 1) ++ [end_ true])
  /\ forall j, j < Nat.max 1 (k - 1) ->
       deliver (repeat (request u) k ++ repeat (response u) j) []
       = ([(u, Z.of_nat (k - 1 - j))], repeat (continue_ u) (k - 1)).
Proof.
  intros Hk. destruct k as [|k]; [lia|].
  replace (S k - 1) with k by lia.
  assert (Hreq : deliver (repeat (request u) (S k)) []
                 = ([(u, Z.of_nat k)], repeat (continue_ u) k)).
  { change (deliver (repeat (request u) (S k)) [])
      with (let (m2, s2) := deliver (repeat (request u) k) [(u, 0%Z)] in
            (m2, @nil Signal ++ s2)).
    rewrite requests_again. reflexivity. }
  remember (Nat.max 1 k) as c eqn:Ec.
  split.
  - rewrite deliver_app, Hreq. cbn [fst snd].
    destruct c as [|[|c']]; [lia | |].
    + simpl repeat. rewrite completion_last by lia. reflexivity.
    + change (repeat (response u) (S (S c')))
        with (response u :: repeat (response u) (S c')).
      rewrite repeat_cons, deliver_app.
      rewrite completions_again by lia. cbn [fst snd].
      rewrite completion_last by lia. reflexivity.
  - intros j Hj. rewrite deliver_app, Hreq. cbn [fst snd].
    destruct j as [|j].
    + simpl. now rewrite app_nil_r, Nat.sub_0_r.
    + rewrite completions_again by lia. rewrite app_nil_r.
      replace (Z.of_nat (k - S j)) with (Z.of_nat k - Z.of_nat (S j))%Z by lia. reflexivity.
Qed.

End WaitUntilFacts.

(** Two loads that overlap: the script is answered and finished while
    the style sheet is in flight, then the style sheet fails; a third
    load on its own, with its two closing events. *)
Lemma X24_witness :
  WaitUntil.apart
    [WaitUntil.request "https://a/app.js"; WaitUntil.request "https://a/app.css";
     WaitUntil.response "https://a/app.js"; WaitUntil.requestfinished "https://a/app.js";
     WaitUntil.requestfailed "https://a/app.css";
     WaitUntil.request "https://a/font.woff";
     WaitUntil.response "https://a/font.woff";
     WaitUntil.requestfinished "https://a/font.woff"] []
  /\ WaitUntil.deliver
       [WaitUntil.request "https://a/app.js"; WaitUntil.request "https://a/app.css";
        WaitUntil.response "https://a/app.js"; WaitUntil.requestfinished "https://a/app.js";
        WaitUntil.requestfailed "https://a/app.css";
        WaitUntil.request "https://a/font.woff";
        WaitUntil.response "https://a/font.woff";
        WaitUntil.requestfinished "https://a/font.woff"] []
     = ([], [WaitUntil.end_ true; WaitUntil.end_ true; WaitUntil.end_ true]).
Proof.
  assert (Ha : WaitUntil.apart
    [WaitUntil.request "https://a/app.js"; WaitUntil.request "https://a/app.css";
     WaitUntil.response "https://a/app.js"; WaitUntil.requestfinished "https://a/app.js";
     WaitUntil.requestfailed "https://a/app.css";
     WaitUntil.request "https://a/font.woff";
     WaitUntil.response "https://a/font.woff";
     WaitUntil.requestfinished "https://a/font.woff"] []).
  { simpl. repeat split; intuition discriminate. }
  split; [exact Ha|].
  rewrite (X24_end_follows_last_completion _ Ha). reflexivity.
Defined.

Lemma X25_witness :
  WaitUntil.deliver
    (repeat (WaitUntil.request "https://a/font.woff") 3
     ++ repeat (WaitUntil.response "https://a/font.woff") 2) []
  = ([], [WaitUntil.continue_ "https://a/font.woff"; WaitUntil.continue_ "https://a/font.woff";
          WaitUntil.end_ true]).
Proof.
  assert (H : 1 <= 3) by lia.
  exact (proj1 (X25_repeated_url_is_cleared_early "https://a/font.woff" 3 H)).
Defined.

(** * Installing the browser *)

Section Install.
Import InitChrome.
Context (host : Host).

Ltac run_init :=
  unfold init, andThen, exists_, unlink, fetch, unpack, run_install, pure, fail.

(** X26. [init] resolves with nothing but the path of the executable.
    When the executable is on disk it is returned after that one check;
    otherwise [init] resolves only after this sequence: the check for a
    stale archive, which is deleted if there is one, the download to
    the archive path, the unpacking into the root directory, the
    deletion of the archive, and, on Linux only, the installation of
    the system packages. *)
Theorem X26_init_resolves_with_the_executable (self : t) (tr tr' : list Call) (r : string) :
  init host self tr = (inr r, tr') ->
  r = chrome (info self)
  /\ (present host tr (chrome (info self)) = true ->
      tr' = tr ++ [existsSync (chrome (info self))])
  /\ (present host tr (chrome (info self)) = false ->
      tr' = tr ++ [existsSync (chrome (info self)); existsSync (zip (info self))]
            ++ (if present host (tr ++ [existsSync (chrome (info self))]) (zip (info self))
                then [unlinkSync (zip (info self))] else [])
            ++ [download (GetDownloadUrl self) (zip (info self));
                unzip (zip (info self)) (dir (info self));
                unlinkSync (zip (info self))]
            ++ (if is_linux host then [install] else [])).
Proof.
  run_init. destruct (present host tr (chrome (info self))) eqn:Efound.
  - intros H. inversion H; subst. split; [reflexivity|]. split; [reflexivity | discriminate].
  - destruct (present host _ (zip (info self))) eqn:Estale.
    + destruct (removed host _ (zip (info self))); [|discriminate].
      destruct (fetched host _ _ _) as [[|]|]; try discriminate. cbn [negb].
      destruct (unpacked host _ _ _); try discriminate. cbn [negb].
      destruct (removed host _ (zip (info self))); [|discriminate].
      destruct (is_linux host).
      * destruct (installed host _); [|discriminate].
        intros H. inversion H; subst. split; [reflexivity|]. split; [discriminate|].
        intros _. rewrite <- !app_assoc. reflexivity.
      * intros H. inversion H; subst. split; [reflexivity|]. split; [discriminate|].
        intros _. rewrite <- !app_assoc. reflexivity.
    + destruct (fetched host _ _ _) as [[|]|]; try discriminate. cbn [negb].
      destruct (unpacked host _ _ _); try discriminate. cbn [negb].
      destruct (removed host _ (zip (info self))); [|discriminate].
      destruct (is_linux host).
      * destruct (installed host _); [|discriminate].
        intros H. inversion H; subst. split; [reflexivity|]. split; [discriminate|].
        intros _. rewrite <- !app_assoc. reflexivity.
      * intros H. inversion H; subst. split; [reflexivity|]. split; [discriminate|].
        intros _. rewrite <- !app_assoc. reflexivity.
Qed.

(** X27. Without the executable on disk and without a download that
    resolves to [true], [init] is rejected, and it neither unpacks an
    archive nor installs system packages: what it calls is at most the
    two checks, the deletion of a stale archive and the download. *)
Theorem X27_nothing_is_unpacked_without_a_download (self : t) (tr : list Call) :
  present host tr (chrome (info self)) = false ->
  (forall tr0 url file, fetched host tr0 url file <> resolved true) ->
  let out := init host self tr in
  (exists f, fst out = inl f)
  /\ exists calls,
       snd out = tr ++ calls
       /\ forall c, In c calls ->
            c = existsSync (chrome (info self)) \/ c = existsSync (zip (info self))
            \/ c = unlinkSync (zip (info self))
            \/ c = download (GetDownloadUrl self) (zip (info self)).
Proof.
  intros Efound Hnet. cbv zeta. run_init. rewrite Efound.
  destruct (present host _ (zip (info self))) eqn:Estale.
  - destruct (removed host _ (zip (info self))).
    + pose proof (Hnet ((tr ++ [existsSync (chrome (info self))] ++ [])
                        ++ [existsSync (zip (info self))] ++ [unlinkSync (zip (info self))])
                    (GetDownloadUrl self) (zip (info self))) as Hn.
      simpl in Hn. rewrite <- !app_assoc in *. simpl in *.
      destruct (fetched host _ _ _) as [[|]|]; [contradiction | |];
        (split; [eexists; reflexivity|]); eexists; (split; [reflexivity|]);
        simpl; intuition.
    + split; [eexists; reflexivity|]. rewrite <- !app_assoc.
      eexists. split; [reflexivity|]. simpl. intuition.
  - pose proof (Hnet ((tr ++ [existsSync (chrome (info self))]) ++ [existsSync (zip (info self))])
                  (GetDownloadUrl self) (zip (info self))) as Hn.
    destruct (fetched host _ _ _) as [[|]|]; [contradiction | |];
      (split; [eexists; reflexivity|]); rewrite <- !app_assoc;
      eexists; (split; [reflexivity|]); simpl; intuition.
Qed.

End Install.

Lemma X26_witness :
  snd (InitChrome.init InitChrome.bare InitChrome.linux_chrome [])
  = [InitChrome.existsSync (InitChrome.chrome (InitChrome.info InitChrome.linux_chrome));
     InitChrome.existsSync (InitChrome.zip (InitChrome.info InitChrome.linux_chrome));
     InitChrome.download (InitChrome.GetDownloadUrl InitChrome.linux_chrome)
       (InitChrome.zip (InitChrome.info InitChrome.linux_chrome));
     InitChrome.unzip (InitChrome.zip (InitChrome.info InitChrome.linux_chrome))
       (InitChrome.dir (InitChrome.info InitChrome.linux_chrome));
     InitChrome.unlinkSync (InitChrome.zip (InitChrome.info InitChrome.linux_chrome));
     InitChrome.install].
Proof.
  assert (E : InitChrome.init InitChrome.bare InitChrome.linux_chrome []
              = (inr (InitChrome.chrome (InitChrome.info InitChrome.linux_chrome)),
                 snd (InitChrome.init InitChrome.bare InitChrome.linux_chrome [])))
    by (vm_compute; reflexivity).
  exact (proj2 (proj2 (X26_init_resolves_with_the_executable InitChrome.bare
                         InitChrome.linux_chrome [] _ _ E)) eq_refl).
Defined.

Lemma X27_witness :
  exists f, fst (InitChrome.init InitChrome.offline InitChrome.linux_chrome []) = inl f.
Proof.
  assert (Hnet : forall tr0 url file,
            InitChrome.fetched InitChrome.offline tr0 url file <> InitChrome.resolved true)
    by (intros; discriminate).
  exact (proj1 (X27_nothing_is_unpacked_without_a_download InitChrome.offline
                  InitChrome.linux_chrome [] eq_refl Hnet)).
Defined.
